(** * rltf: the off-policy agent core

    A shallow embedding of [rltf/agents/agent.py] (the [Agent] and
    [OffPolicyAgent] classes) and of the action tensors of
    [rltf/models/dqn.py].

    Python integers are unbounded and are modelled by [Z]; Python's [%]
    takes the sign of the divisor, as [Z.modulo] does, and raises
    [ZeroDivisionError] on a zero divisor.  The environment, the monitor,
    the replay buffer, the TensorBoard writers and the numerical content of
    the network are collaborators whose code is outside the two classes:
    they are operations on abstract types, gathered in [Collab].  *)

From Stdlib Require Import ZArith List Bool Lia String Ascii DecimalString.
Import ListNotations.
Local Open Scope Z_scope.

Set Implicit Arguments.

(** ** Python primitives *)

Inductive Exn :=
| ZeroDivisionError
| KeyError (name : string)
| ValueError (name : string)
| AssertionError.

Inductive Res (A : Type) :=
| Ret (a : A)
| Err (e : Exn).
Arguments Ret {A} a.
Arguments Err {A} e.

(** [a % b] *)
Definition py_mod (a b : Z) : option Z :=
  if b =? 0 then None else Some (a mod b).

(** [a % b == 0], [None] standing for the [ZeroDivisionError] *)
Definition divides (a b : Z) : option bool :=
  option_map (fun r => r =? 0) (py_mod a b).

(** [tf.int32] arithmetic: a sum that leaves [-2^31, 2^31) wraps around *)
Definition wrap32 (z : Z) : Z := (z + 2 ^ 31) mod 2 ^ 32 - 2 ^ 31.

(** [range(a, b)] *)
Definition range (a b : Z) : list Z :=
  map (fun i => a + Z.of_nat i) (seq 0 (Z.to_nat (b - a))).

(** ** Configuration: the constructor arguments of [Agent.__init__], and
    [update_target_freq], which the concrete agent classes add. *)

Record Config := mkConfig {
  train_freq : Z;
  start_train : Z;
  stop_step : Z;
  eval_freq : Z;
  eval_len : Z;
  batch_size : Z;
  log_freq : Z;
  save_freq : Z;
  update_target_freq : Z
}.

(** The guards of the two executors.  Python's [and] evaluates its right
    operand only when the left one is true. *)

(** [t >= self.start_train and t % self.train_freq == 0] *)
Definition train_due (cfg : Config) (t : Z) : option bool :=
  if start_train cfg <=? t then divides t (train_freq cfg) else Some false.

(** [t % self.update_target_freq == 0] *)
Definition target_due (cfg : Config) (t : Z) : option bool :=
  divides t (update_target_freq cfg).

(** [self.save_freq > 0 and t % self.save_freq == 0] *)
Definition save_due (cfg : Config) (t : Z) : option bool :=
  if 0 <? save_freq cfg then divides t (save_freq cfg) else Some false.

(** [self.eval_len > 0 and t % self.eval_freq == 0] *)
Definition eval_due (cfg : Config) (t : Z) : option bool :=
  if 0 <? eval_len cfg then divides t (eval_freq cfg) else Some false.

(** [t % self.log_freq == 0 and self.learn_started] *)
Definition log_due (cfg : Config) (t : Z) (started : bool) : option bool :=
  match divides t (log_freq cfg) with
  | Some true => Some started
  | Some false => Some false
  | None => None
  end.

(** ** The TensorFlow graph: operations found by name *)

Record Operation := mkOp {
  op_name : string;
  op_outputs : nat
}.

Definition Graph := list Operation.

Definition find_op (g : Graph) (n : string) : option Operation :=
  find (fun o => String.eqb (op_name o) n) g.

Fixpoint split_colon (s : string) : option (string * string) :=
  match s with
  | EmptyString => None
  | String c r =>
      if Ascii.eqb c ":"%char then Some (EmptyString, r)
      else match split_colon r with
           | Some (a, b) => Some (String c a, b)
           | None => None
           end
  end.

(** [graph.get_operation_by_name(n)]: a name with a colon is the name of a
    tensor and is refused *)
Definition get_operation_by_name (g : Graph) (n : string) : Res Operation :=
  match split_colon n with
  | Some _ => Err (ValueError n)
  | None =>
      match find_op g n with
      | Some o => Ret o
      | None => Err (KeyError n)
      end
  end.

(** *** [int(s)] on the index of a tensor name

    Python strips white space, reads a sign, and then wants decimal digits,
    which single underscores may separate.  Digits outside ASCII, which
    [int] reads as well, are not digits here. *)

Definition is_space (c : ascii) : bool :=
  let n := nat_of_ascii c in
  ((9 <=? n) && (n <=? 13) || (28 <=? n) && (n <=? 32))%nat.

Definition digit_of (c : ascii) : option Z :=
  let n := nat_of_ascii c in
  if ((48 <=? n) && (n <=? 57))%nat then Some (Z.of_nat (n - 48)) else None.

Fixpoint lstrip (l : list ascii) : list ascii :=
  match l with
  | c :: r => if is_space c then lstrip r else l
  | [] => []
  end.

Definition strip (l : list ascii) : list ascii := rev (lstrip (rev (lstrip l))).

(** the digits of [l] read after the value [acc]; [sep] says that the last
    character was an underscore, which a digit must follow *)
Fixpoint digits (acc : Z) (sep : bool) (l : list ascii) : option Z :=
  match l with
  | [] => if sep then None else Some acc
  | c :: r =>
      if Ascii.eqb c "_"%char then (if sep then None else digits acc true r)
      else match digit_of c with
           | Some d => digits (10 * acc + d) false r
           | None => None
           end
  end.

(** a numeral starts with a digit *)
Definition numeral (l : list ascii) : option Z :=
  match l with
  | c :: r => match digit_of c with
              | Some d => digits d false r
              | None => None
              end
  | [] => None
  end.

Definition parse_index (s : string) : option Z :=
  match strip (list_ascii_of_string s) with
  | c :: r =>
      if Ascii.eqb c "-"%char then option_map Z.opp (numeral r)
      else if Ascii.eqb c "+"%char then numeral r
      else numeral (c :: r)
  | [] => None
  end.

(** [outputs[k]] of a list of [n] outputs: a negative index counts from the end *)
Definition list_index (n : nat) (k : Z) : option nat :=
  if (0 <=? k) && (k <? Z.of_nat n) then Some (Z.to_nat k)
  else if (k <? 0) && (- Z.of_nat n <=? k) then Some (Z.to_nat (Z.of_nat n + k))
  else None.

(** [graph.get_tensor_by_name("op:i")]: the [i]-th output of operation [op];
    [name.split(":")] must give the two of them *)
Definition get_tensor_by_name (g : Graph) (n : string) : Res (Operation * nat) :=
  match split_colon n with
  | None => Err (ValueError n)
  | Some (o, i) =>
      match parse_index i with
      | None => Err (ValueError n)
      | Some k =>
          match find_op g o with
          | None => Err (KeyError n)
          | Some op =>
              match list_index (op_outputs op) k with
              | Some j => Ret (op, j)
              | None => Err (KeyError n)
              end
          end
      end
  end.

(** An operation created under a name already in the graph gets the name
    with [_1], [_2], ... appended. *)
Definition name_taken (g : Graph) (n : string) : bool :=
  match find_op g n with Some _ => true | None => false end.

Definition show_nat (k : nat) : string := NilEmpty.string_of_uint (Nat.to_uint k).

Fixpoint unique_from (g : Graph) (base : string) (k fuel : nat) : string :=
  let cand := (base ++ "_" ++ show_nat k)%string in
  match fuel with
  | O => cand
  | S f => if name_taken g cand then unique_from g base (S k) f else cand
  end.

Definition unique_name (g : Graph) (n : string) : string :=
  if name_taken g n then unique_from g n 1 (List.length g) else n.

Definition add_op (g : Graph) (n : string) (outs : nat) : Graph :=
  g ++ [mkOp (unique_name g n) outs].

(** ** Ghost events, recorded to observe a run *)

Inductive Mode := TrainMode | EvalMode.

Inductive Signal := ActChosen | TrainDone.

Inductive Event :=
| Signalled (s : Signal) (t : Z)   (* [set()]: [ActChosen t] in step [t];
                                      [TrainDone t] is what lets step [t] start *)
| Observed (s : Signal) (t : Z)    (* the waiter saw the signal and cleared it *)
| TrainStep (t : Z)                (* [sess.run([summary_op, train_op])] *)
| TargetSync (t : Z)               (* [sess.run(model.update_target)] *)
| SaveCall (t : Z)                 (* [self.save()] called by the learner *)
| EvalStart (r : Z)                (* [eval()] entered, run counter now [r] *)
| EvalStep (t : Z) (m : Mode)      (* one iteration of the loop of [eval()] *)
| Chose (t : Z) (by_model : bool)  (* action chosen: by the model or at random *)
| EnvStep (t : Z).                 (* [env.step] and [replay_buf.store] *)

(** ** Collaborators

    The classes use the environment, the monitor, the replay buffer, the
    model and the TensorBoard writers only through the calls below.  What
    each call may touch is in its type: the learnable parameters [Params]
    are read by action selection and written only by the training and the
    synchronisation operations of the session; everything the collaborators
    keep for themselves (simulator state, random generators, statistics,
    per-episode state of the model) is the [World]. *)

Class Collab (Obs Act Rew Params Replay Feed Summary MonSnap World : Type) := {
  (* [self.env.reset()] *)
  env_reset : World -> World * Obs;
  (* [self.env.step(action)], giving [next_obs, reward, done] *)
  env_step : World -> Act -> World * (Obs * Rew * bool);
  (* [self.env.action_space.sample()] *)
  sample_action : World -> World * Act;
  (* [self._action_train(obs, t)] *)
  action_train : Params -> Obs -> Z -> World -> World * Act;
  (* [self._action_eval(obs, t)] *)
  action_eval : Params -> Obs -> Z -> World -> World * Act;
  (* [self.model.reset(self.sess)] *)
  model_reset : World -> World;
  (* [self._reset()] *)
  agent_reset : World -> World;
  (* [self.replay_buf.store(obs, action, reward, done)] *)
  replay_store : Replay -> Obs -> Act -> Rew -> bool -> Replay;
  (* [self._get_feed_dict(t)] *)
  get_feed_dict : Replay -> Z -> World -> World * Feed;
  (* [sess.run([summary_op, train_op], feed_dict)]: new parameters, summary *)
  run_train_op : Params -> Params -> Feed -> Params * Summary;
  (* [sess.run(model.update_target)]: new target parameters *)
  run_update_target : Params -> Params -> Params;
  (* [self.env_monitor.log_stats(t)] *)
  log_stats : Mode -> Z -> World -> World;
  (* the summary of [eval()] handed to [tb_eval_writer.add_summary] *)
  tb_eval_add : Mode -> World -> World;
  (* the summary of [_log_stats] handed to [tb_train_writer.add_summary] *)
  tb_train_add : Mode -> Summary -> Z -> World -> World;
  (* what [self.env_monitor.save()] writes *)
  monitor_snapshot : World -> MonSnap;
  (* the operations [self._build()] and [self.model.build()] put in the graph *)
  build_ops : Graph;
  (* the variables after the two initializers: parameters and target copy *)
  initial_params : Params;
  initial_target : Params;
  (* [self.model.initialize(self.sess)]: the target copy it leaves *)
  model_initialize : Params -> Params -> Params;
  (* [self.model.restore(graph)] and [self._restore(graph)] *)
  model_restore : Graph -> Res unit;
  agent_restore : Graph -> Res unit
}.

Section Core.

Context {Obs Act Rew Params Replay Feed Summary MonSnap World : Type}.
Context {C : Collab Obs Act Rew Params Replay Feed Summary MonSnap World}.

(** What [saver.save(sess, model_dir, global_step=t_tf)] writes: the graph
    and the value of every variable, the step counter among them. *)
Record Checkpoint := mkCheckpoint {
  ck_graph : Graph;
  ck_params : Params;
  ck_target : Params;
  ck_t_tf : Z;
  ck_global_step : Z
}.

(** What [save()] keeps in the model directory: the checkpoints, newest
    first, and the statistics the monitor saved.  The event files that the
    two summary writers put under [model_dir + "tb/"] are no part of it:
    the writers are collaborators, and what they write is in the [World]. *)
Record Disk := mkDisk {
  checkpoints : list Checkpoint;
  monitor_saves : list MonSnap
}.

(** ** The agent after [build()]

    The attributes of [Agent] and [OffPolicyAgent], the variables the
    session holds ([t_tf], the parameters and their target copy), the
    collaborators' state, the model directory and the recorded events.
    [saver] is what [self.saver], made with [max_to_keep=2], remembers: the
    number of checkpoints of the directory, the newest ones, that it wrote
    itself and has not deleted. *)

Record Agent := mkAgent {
  start_step : Z;
  learn_started : bool;
  eval_runs : Z;
  summary : option Summary;
  graph : Graph;
  t_tf : Z;
  params : Params;
  target : Params;
  replay_buf : Replay;
  mon_mode : Mode;
  world : World;
  disk : Disk;
  saver : nat;
  act_chosen : bool;
  train_done : bool;
  trace : list Event
}.

Definition set_learn_started (v : bool) (a : Agent) : Agent :=
  mkAgent (start_step a) v (eval_runs a) (summary a) (graph a) (t_tf a)
    (params a) (target a) (replay_buf a) (mon_mode a) (world a) (disk a) (saver a)
    (act_chosen a) (train_done a) (trace a).

Definition set_eval_runs (v : Z) (a : Agent) : Agent :=
  mkAgent (start_step a) (learn_started a) v (summary a) (graph a) (t_tf a)
    (params a) (target a) (replay_buf a) (mon_mode a) (world a) (disk a) (saver a)
    (act_chosen a) (train_done a) (trace a).

Definition set_summary (v : option Summary) (a : Agent) : Agent :=
  mkAgent (start_step a) (learn_started a) (eval_runs a) v (graph a) (t_tf a)
    (params a) (target a) (replay_buf a) (mon_mode a) (world a) (disk a) (saver a)
    (act_chosen a) (train_done a) (trace a).

Definition set_t_tf (v : Z) (a : Agent) : Agent :=
  mkAgent (start_step a) (learn_started a) (eval_runs a) (summary a) (graph a) v
    (params a) (target a) (replay_buf a) (mon_mode a) (world a) (disk a) (saver a)
    (act_chosen a) (train_done a) (trace a).

Definition set_params (v : Params) (a : Agent) : Agent :=
  mkAgent (start_step a) (learn_started a) (eval_runs a) (summary a) (graph a) (t_tf a)
    v (target a) (replay_buf a) (mon_mode a) (world a) (disk a) (saver a)
    (act_chosen a) (train_done a) (trace a).

Definition set_target (v : Params) (a : Agent) : Agent :=
  mkAgent (start_step a) (learn_started a) (eval_runs a) (summary a) (graph a) (t_tf a)
    (params a) v (replay_buf a) (mon_mode a) (world a) (disk a) (saver a)
    (act_chosen a) (train_done a) (trace a).

Definition set_replay_buf (v : Replay) (a : Agent) : Agent :=
  mkAgent (start_step a) (learn_started a) (eval_runs a) (summary a) (graph a) (t_tf a)
    (params a) (target a) v (mon_mode a) (world a) (disk a) (saver a)
    (act_chosen a) (train_done a) (trace a).

Definition set_mon_mode (v : Mode) (a : Agent) : Agent :=
  mkAgent (start_step a) (learn_started a) (eval_runs a) (summary a) (graph a) (t_tf a)
    (params a) (target a) (replay_buf a) v (world a) (disk a) (saver a)
    (act_chosen a) (train_done a) (trace a).

Definition set_world (v : World) (a : Agent) : Agent :=
  mkAgent (start_step a) (learn_started a) (eval_runs a) (summary a) (graph a) (t_tf a)
    (params a) (target a) (replay_buf a) (mon_mode a) v (disk a) (saver a)
    (act_chosen a) (train_done a) (trace a).

Definition set_disk (v : Disk) (a : Agent) : Agent :=
  mkAgent (start_step a) (learn_started a) (eval_runs a) (summary a) (graph a) (t_tf a)
    (params a) (target a) (replay_buf a) (mon_mode a) (world a) v (saver a)
    (act_chosen a) (train_done a) (trace a).

Definition set_saver (v : nat) (a : Agent) : Agent :=
  mkAgent (start_step a) (learn_started a) (eval_runs a) (summary a) (graph a) (t_tf a)
    (params a) (target a) (replay_buf a) (mon_mode a) (world a) (disk a) v
    (act_chosen a) (train_done a) (trace a).

Definition set_act_chosen (v : bool) (a : Agent) : Agent :=
  mkAgent (start_step a) (learn_started a) (eval_runs a) (summary a) (graph a) (t_tf a)
    (params a) (target a) (replay_buf a) (mon_mode a) (world a) (disk a) (saver a)
    v (train_done a) (trace a).

Definition set_train_done (v : bool) (a : Agent) : Agent :=
  mkAgent (start_step a) (learn_started a) (eval_runs a) (summary a) (graph a) (t_tf a)
    (params a) (target a) (replay_buf a) (mon_mode a) (world a) (disk a) (saver a)
    (act_chosen a) v (trace a).

Definition set_trace (v : list Event) (a : Agent) : Agent :=
  mkAgent (start_step a) (learn_started a) (eval_runs a) (summary a) (graph a) (t_tf a)
    (params a) (target a) (replay_buf a) (mon_mode a) (world a) (disk a) (saver a)
    (act_chosen a) (train_done a) v.

Definition record (e : Event) (a : Agent) : Agent :=
  set_trace (trace a ++ [e]) a.

(** ** A state and exception monad for the methods of the agent *)

Definition M (A : Type) : Type := Agent -> Agent * Res A.

Definition ret {A} (x : A) : M A := fun a => (a, Ret x).

Definition bind {A B} (m : M A) (k : A -> M B) : M B :=
  fun a => match m a with
           | (a', Ret x) => k x a'
           | (a', Err e) => (a', Err e)
           end.

Definition raise {A} (e : Exn) : M A := fun a => (a, Err e).

Definition get : M Agent := fun a => (a, Ret a).

Definition modify (f : Agent -> Agent) : M unit := fun a => (f a, Ret tt).

(** a call into a collaborator, which updates the world and returns a value *)
Definition call {A} (f : World -> World * A) : M A :=
  fun a => let (w, x) := f (world a) in (set_world w a, Ret x).

(** a guard that may raise [ZeroDivisionError] *)
Definition guard (g : option bool) : M bool :=
  match g with
  | Some b => ret b
  | None => raise ZeroDivisionError
  end.

Notation "x <- m ;; k" := (bind m (fun x => k))
  (at level 61, m at next level, right associativity).
Notation "m ;;; k" := (bind m (fun _ => k))
  (at level 61, right associativity).

(** [for t in ts: x = body(t, x)] *)
Fixpoint for_each {X} (ts : list Z) (body : Z -> X -> M X) (x : X) : M X :=
  match ts with
  | [] => ret x
  | t :: rest => x' <- body t x ;; for_each rest body x'
  end.

(** ** [Agent.reset] *)
Definition reset : M Obs :=
  a <- get ;;
  (if learn_started a
   then modify (fun a => set_world (agent_reset (model_reset (world a))) a)
   else ret tt) ;;;
  call env_reset.

(** ** [Agent.save]

    [saver.save(sess, model_dir, global_step=g)] writes the files
    [model_dir-g], over a checkpoint of that name if there is one, puts the
    name last in the list of the checkpoints the saver remembers, and
    deletes the oldest of them when they are more than [max_to_keep].  What
    it would keep after 10000 hours, [keep_checkpoint_every_n_hours], is
    left out. *)

Definition max_to_keep : nat := 2.

Definition same_file (ck c : Checkpoint) : bool :=
  ck_global_step c =? ck_global_step ck.

(** the checkpoints of the directory and the number of them the saver
    remembers, after it wrote [ck] *)
Definition put (st : list Checkpoint * nat) (ck : Checkpoint) : list Checkpoint * nat :=
  let (cks, k) := st in
  let other c := negb (same_file ck c) in
  let remembered := firstn max_to_keep (ck :: filter other (firstn k cks)) in
  (remembered ++ filter other (skipn k cks), List.length remembered).

Definition save : M unit :=
  a <- get ;;
  if learn_started a then
    (* self.env_monitor.save() *)
    modify (fun a => set_disk (mkDisk (checkpoints (disk a))
                                 (monitor_snapshot (world a) :: monitor_saves (disk a))) a) ;;;
    (* self.saver.save(self.sess, self.model_dir, global_step=self.t_tf) *)
    modify (fun a =>
      let st := put (checkpoints (disk a), saver a)
                    (mkCheckpoint (graph a) (params a) (target a) (t_tf a) (t_tf a)) in
      set_saver (snd st) (set_disk (mkDisk (fst st) (monitor_saves (disk a))) a))
  else ret tt.

(** ** [OffPolicyAgent.eval] *)

(** the body of the loop of [eval], [obs] being the loop-carried local *)
Definition eval_body (cfg : Config) (t : Z) (obs : Obs) : M Obs :=
  modify (fun a => record (EvalStep t (mon_mode a)) a) ;;;
  a <- get ;;
  action <- call (action_eval (params a) obs t) ;;
  r <- call (fun w => env_step w action) ;;
  let '(next_obs, _, done) := r in
  next_obs <- (if done : bool then reset else ret next_obs) ;;
  due <- guard (divides t (log_freq cfg)) ;;
  (if due : bool then
     modify (fun a => set_world (log_stats (mon_mode a) t (world a)) a) ;;;
     modify (fun a => set_world (tb_eval_add (mon_mode a) (world a)) a)
   else ret tt) ;;;
  ret next_obs.

Definition eval (cfg : Config) : M unit :=
  modify (set_mon_mode EvalMode) ;;;
  modify (fun a => set_eval_runs (eval_runs a + 1) a) ;;;
  a <- get ;;
  modify (record (EvalStart (eval_runs a))) ;;;
  let start := eval_len cfg * eval_runs a + 1 in
  let stop := eval_len cfg + start in
  obs <- call env_reset ;;
  for_each (range start stop) (eval_body cfg) obs ;;;
  modify (set_mon_mode TrainMode).


(** ** [Agent.build]

    [tf.train.get_checkpoint_state(self.model_dir)] finds the newest
    checkpoint of the directory.  Of the operations that the build branch
    creates, the graph below keeps those created under a name of their own:
    the variable [t_tf], the sum [t_tf + 1], the assignment and the merged
    summary.  [w] and [rb] are the environment and the replay buffer the
    constructors made.  Either branch ends with a new [tf.train.Saver],
    which remembers no checkpoint. *)

Definition and_then {A B} (r : Res A) (k : A -> Res B) : Res B :=
  match r with
  | Ret x => k x
  | Err e => Err e
  end.

Definition fresh_graph : Graph :=
  (* self._build(); self.model.build() *)
  let g := build_ops in
  (* self.t_tf = tf.Variable(1, dtype=tf.int32, trainable=False, name="t_tf") *)
  let g := add_op g "t_tf" 1 in
  (* self.t_tf_inc = tf.assign(self.t_tf, self.t_tf + 1, name="t_inc_op") *)
  let g := add_op g "add" 1 in
  let g := add_op g "t_inc_op" 1 in
  (* self.summary_op = tf.summary.merge_all() *)
  add_op g "Merge/MergeSummary" 1.

Definition build (w : World) (rb : Replay) (d : Disk) : Res Agent :=
  match checkpoints d with
  | [] =>
      (* self.start_step = 1; self.learn_started = False; the initializers
         give [t_tf] its initial value 1 *)
      Ret (mkAgent 1 false (-1) None fresh_graph 1
             initial_params (model_initialize initial_params initial_target)
             rb TrainMode w d 0%nat false false [])
  | ckpt :: _ =>
      (* saver = tf.train.import_meta_graph(ckpt_path) *)
      let g := ck_graph ckpt in
      and_then (get_tensor_by_name g "t_tf:0") (fun _ =>
      and_then (get_operation_by_name g "t_tf_inc") (fun _ =>
      and_then (model_restore g) (fun _ =>
      and_then (agent_restore g) (fun _ =>
      (* saver.restore(self.sess, ckpt.model_checkpoint_path) *)
      and_then (get_tensor_by_name g "Merge/MergeSummary:0") (fun _ =>
      (* self.start_step = self.sess.run(self.t_tf); self.learn_started = True *)
      Ret (mkAgent (ck_t_tf ckpt) true (-1) None g (ck_t_tf ckpt)
             (ck_params ckpt) (ck_target ckpt)
             rb TrainMode w d 0%nat false false []))))))
  end.

(** the names [build()] creates operations under or looks up *)
Definition agent_names : list string :=
  ["t_tf"; "add"; "t_inc_op"; "Merge/MergeSummary"; "t_tf_inc"]%string.

(** the subclass and the model create no operation under these names *)
Definition names_free : Prop :=
  forall n, In n agent_names -> find_op build_ops n = None.

(** [Agent._log_stats] *)
Definition _log_stats (cfg : Config) (t : Z) : M unit :=
  a <- get ;;
  due <- guard (log_due cfg t (learn_started a)) ;;
  if due : bool then
    modify (fun a => set_world (log_stats (mon_mode a) t (world a)) a) ;;;
    a <- get ;;
    match summary a with
    | Some s => modify (fun a => set_world (tb_train_add (mon_mode a) s t (world a)) a)
    | None => ret tt
    end
  else ret tt.

(** ** [OffPolicyAgent.train]: two threads and two events

    Each thread is a program counter over the statements of its method; a
    move of a thread executes one statement.  [threading.Event] is a flag:
    [set()] and [clear()] write it, [is_set()] reads it, and [wait()]
    returns only once the flag is set.  A thread that raised stops where it
    is.  A call of [eval()], [reset()], [save()] or [_log_stats()] is one
    move of the thread that makes it: none of them touches the two flags,
    and of what the other thread writes meanwhile they read
    [learn_started] and [summary] only. *)

Inductive Status :=
| Running
| Finished
| Raised (e : Exn).

(** the statements of [_run_env]; [t], [obs], [action], ... are its locals *)
Inductive EnvPc :=
| E_start                                       (* obs = self.reset() *)
| E_head (t : Z) (obs : Obs)                    (* for t in range(start_step, stop_step+1) *)
| E_wait_test (t : Z) (obs : Obs)               (* while not self._train_done.is_set() *)
| E_wait_block (t : Z) (obs : Obs)              (*   self._train_done.wait() *)
| E_wait_clear (t : Z) (obs : Obs)              (* self._train_done.clear() *)
| E_eval (t : Z) (obs : Obs)                    (* if eval_len > 0 and ...: self.eval() *)
| E_act (t : Z) (obs : Obs)                     (* action = ... *)
| E_signal (t : Z) (obs : Obs) (action : Act)   (* self._signal_act_chosen() *)
| E_inc (t : Z) (obs : Obs) (action : Act)      (* self.sess.run(self.t_tf_inc) *)
| E_step (t : Z) (obs : Obs) (action : Act)     (* ... = self.env.step(action) *)
| E_store (t : Z) (obs : Obs) (action : Act) (next_obs : Obs) (reward : Rew) (done : bool)
                                                (* self.replay_buf.store(...) *)
| E_next (t : Z) (next_obs : Obs) (done : bool) (* if done: next_obs = self.reset() *)
| E_log (t : Z) (obs : Obs).                    (* self._log_stats(t) *)

(** the statements of [_train_model]; [feed] is [None] on a step without training *)
Inductive NnPc :=
| N_head (t : Z)                                (* for t in range(start_step, stop_step+1) *)
| N_cond (t : Z)                                (* if t >= start_train and t % train_freq == 0 *)
| N_mark (t : Z)                                (* self.learn_started = True *)
| N_feed (t : Z)                                (* feed_dict = self._get_feed_dict(t) *)
| N_wait_test (t : Z) (feed : option Feed)      (* while not self._act_chosen.is_set() *)
| N_wait_block (t : Z) (feed : option Feed)     (*   self._act_chosen.wait() *)
| N_wait_clear (t : Z) (feed : option Feed)     (* self._act_chosen.clear() *)
| N_run (t : Z) (feed : Feed)                   (* self.summary, _ = self.sess.run(...) *)
| N_target (t : Z)                              (* if t % update_target_freq == 0: ... *)
| N_save (t : Z)                                (* if save_freq > 0 and ...: self.save() *)
| N_signal (t : Z).                             (* self._signal_train_done() *)

Record Sys := mkSys {
  agent : Agent;
  env_status : Status;
  env_pc : EnvPc;
  nn_status : Status;
  nn_pc : NnPc
}.

Definition env_goto (s : Sys) (a : Agent) (pc : EnvPc) : Sys :=
  mkSys a Running pc (nn_status s) (nn_pc s).

Definition env_stop (s : Sys) (a : Agent) (st : Status) : Sys :=
  mkSys a st (env_pc s) (nn_status s) (nn_pc s).

Definition nn_goto (s : Sys) (a : Agent) (pc : NnPc) : Sys :=
  mkSys a (env_status s) (env_pc s) Running pc.

Definition nn_stop (s : Sys) (a : Agent) (st : Status) : Sys :=
  mkSys a (env_status s) (env_pc s) st (nn_pc s).

(** run a method in the environment thread, then continue at [k x] *)
Definition env_do {X} (s : Sys) (m : M X) (k : X -> EnvPc) : Sys :=
  match m (agent s) with
  | (a, Ret x) => env_goto s a (k x)
  | (a, Err e) => env_stop s a (Raised e)
  end.

Definition nn_do {X} (s : Sys) (m : M X) (k : X -> NnPc) : Sys :=
  match m (agent s) with
  | (a, Ret x) => nn_goto s a (k x)
  | (a, Err e) => nn_stop s a (Raised e)
  end.

(** [_signal_act_chosen] and [_signal_train_done] *)
Definition _signal_act_chosen (t : Z) : M unit :=
  modify (fun a => record (Signalled ActChosen t) (set_act_chosen true a)).

Definition _signal_train_done (t : Z) : M unit :=
  modify (fun a => record (Signalled TrainDone (t + 1)) (set_train_done true a)).

(** the [clear()] that ends [_wait_train_done] and [_wait_act_chosen] *)
Definition clear_train_done (t : Z) : M unit :=
  modify (fun a => record (Observed TrainDone t) (set_train_done false a)).

Definition clear_act_chosen (t : Z) : M unit :=
  modify (fun a => record (Observed ActChosen t) (set_act_chosen false a)).

(** One move of the thread running [_run_env]; [None] when it cannot move. *)
Definition _run_env (cfg : Config) (s : Sys) : option Sys :=
  match env_status s with
  | Running =>
      let a := agent s in
      match env_pc s with
      | E_start =>
          Some (env_do s reset (fun obs => E_head (start_step a) obs))
      | E_head t obs =>
          if t <=? stop_step cfg then Some (env_goto s a (E_wait_test t obs))
          else Some (env_stop s a Finished)
      | E_wait_test t obs =>
          if train_done a then Some (env_goto s a (E_wait_clear t obs))
          else Some (env_goto s a (E_wait_block t obs))
      | E_wait_block t obs =>
          if train_done a then Some (env_goto s a (E_wait_test t obs)) else None
      | E_wait_clear t obs =>
          Some (env_do s (clear_train_done t) (fun _ => E_eval t obs))
      | E_eval t obs =>
          Some (env_do s (due <- guard (eval_due cfg t) ;;
                          if due : bool then eval cfg else ret tt)
                  (fun _ => E_act t obs))
      | E_act t obs =>
          Some (env_do s (action <- (if learn_started a
                                     then call (action_train (params a) obs t)
                                     else call sample_action) ;;
                          modify (record (Chose t (learn_started a))) ;;;
                          ret action)
                  (fun action => E_signal t obs action))
      | E_signal t obs action =>
          Some (env_do s (_signal_act_chosen t) (fun _ => E_inc t obs action))
      | E_inc t obs action =>
          Some (env_goto s (set_t_tf (wrap32 (t_tf a + 1)) a) (E_step t obs action))
      | E_step t obs action =>
          Some (env_do s (call (fun w => env_step w action))
                  (fun r => let '(next_obs, reward, done) := r in
                            E_store t obs action next_obs reward done))
      | E_store t obs action next_obs reward done =>
          Some (env_goto s
                  (record (EnvStep t)
                     (set_replay_buf (replay_store (replay_buf a) obs action reward done) a))
                  (E_next t next_obs done))
      | E_next t next_obs done =>
          Some (env_do s (if done then reset else ret next_obs) (fun obs => E_log t obs))
      | E_log t obs =>
          Some (env_do s (_log_stats cfg t) (fun _ => E_head (t + 1) obs))
      end
  | _ => None
  end.

(** One move of the thread running [_train_model]. *)
Definition _train_model (cfg : Config) (s : Sys) : option Sys :=
  match nn_status s with
  | Running =>
      let a := agent s in
      match nn_pc s with
      | N_head t =>
          if t <=? stop_step cfg then Some (nn_goto s a (N_cond t))
          else Some (nn_stop s a Finished)
      | N_cond t =>
          Some (nn_do s (guard (train_due cfg t))
                  (fun due => if due : bool then N_mark t else N_wait_test t None))
      | N_mark t =>
          Some (nn_goto s (set_learn_started true a) (N_feed t))
      | N_feed t =>
          Some (nn_do s (call (get_feed_dict (replay_buf a) t))
                  (fun feed => N_wait_test t (Some feed)))
      | N_wait_test t feed =>
          if act_chosen a then Some (nn_goto s a (N_wait_clear t feed))
          else Some (nn_goto s a (N_wait_block t feed))
      | N_wait_block t feed =>
          if act_chosen a then Some (nn_goto s a (N_wait_test t feed)) else None
      | N_wait_clear t feed =>
          Some (nn_do s (clear_act_chosen t)
                  (fun _ => match feed with
                            | Some f => N_run t f
                            | None => N_save t
                            end))
      | N_run t feed =>
          let (p, sm) := run_train_op (params a) (target a) feed in
          Some (nn_goto s (record (TrainStep t) (set_summary (Some sm) (set_params p a)))
                  (N_target t))
      | N_target t =>
          Some (nn_do s (due <- guard (target_due cfg t) ;;
                         if due : bool
                         then modify (fun a => record (TargetSync t)
                                (set_target (run_update_target (params a) (target a)) a))
                         else ret tt)
                  (fun _ => N_save t))
      | N_save t =>
          Some (nn_do s (due <- guard (save_due cfg t) ;;
                         if due : bool
                         then modify (record (SaveCall t)) ;;; save
                         else ret tt)
                  (fun _ => N_signal t))
      | N_signal t =>
          Some (nn_do s (_signal_train_done t) (fun _ => N_head (t + 1)))
      end
  | _ => None
  end.

(** [train()]: clear [_act_chosen], set [_train_done], start both threads.
    The recording of events starts here. *)
Definition train (a : Agent) : Sys :=
  let a1 := set_act_chosen false a in
  let a2 := set_train_done true a1 in
  let a3 := set_trace [Signalled TrainDone (start_step a)] a2 in
  mkSys a3 Running E_start Running (N_head (start_step a)).

(** A schedule says which thread moves next; a thread that cannot move
    waits for its turn to come again. *)
Inductive Tid := T_env | T_nn.

Definition move (cfg : Config) (tid : Tid) (s : Sys) : option Sys :=
  match tid with
  | T_env => _run_env cfg s
  | T_nn => _train_model cfg s
  end.

Definition fire (cfg : Config) (s : Sys) (tid : Tid) : Sys :=
  match move cfg tid s with
  | Some s' => s'
  | None => s
  end.

Definition run (cfg : Config) (sched : list Tid) (s : Sys) : Sys :=
  fold_left (fire cfg) sched s.

(** both threads have returned: [train()] returns from its two [join()]s *)
Definition joined (s : Sys) : bool :=
  match env_status s, nn_status s with
  | Finished, Finished => true
  | _, _ => false
  end.

(** ** Vocabulary of the specification *)

(** *** Views of the recorded events *)

Definition is_handshake (e : Event) : bool :=
  match e with
  | Signalled _ _ | Observed _ _ => true
  | _ => false
  end.

Definition is_learning (e : Event) : bool :=
  match e with
  | TrainStep _ | TargetSync _ => true
  | _ => false
  end.

Definition is_eval (e : Event) : bool :=
  match e with
  | EvalStart _ | EvalStep _ _ => true
  | _ => false
  end.

Definition handshake (tr : list Event) : list Event := filter is_handshake tr.
Definition learning (tr : list Event) : list Event := filter is_learning tr.
Definition evals (tr : list Event) : list Event := filter is_eval tr.

(** the steps at which a training step, a synchronisation, ran *)
Definition train_steps (tr : list Event) : list Z :=
  flat_map (fun e => match e with TrainStep t => [t] | _ => [] end) tr.

Definition sync_steps (tr : list Event) : list Z :=
  flat_map (fun e => match e with TargetSync t => [t] | _ => [] end) tr.

(** the steps over which the loop of [eval()] iterated *)
Definition eval_steps (tr : list Event) : list Z :=
  flat_map (fun e => match e with EvalStep t _ => [t] | _ => [] end) tr.

Definition count_event (p : Event -> bool) (tr : list Event) : nat :=
  List.length (filter p tr).

Definition is_signalled (sg : Signal) (e : Event) : bool :=
  match e, sg with
  | Signalled ActChosen _, ActChosen => true
  | Signalled TrainDone _, TrainDone => true
  | _, _ => false
  end.

Definition is_observed (sg : Signal) (e : Event) : bool :=
  match e, sg with
  | Observed ActChosen _, ActChosen => true
  | Observed TrainDone _, TrainDone => true
  | _, _ => false
  end.

(** *** The alternation of the two signals *)

(** step [t] of the handshake *)
Definition round (t : Z) : list Event :=
  [Observed TrainDone t; Signalled ActChosen t;
   Observed ActChosen t; Signalled TrainDone (t + 1)].

(** the handshake from [train()] up to the first [j] events of step [t] *)
Definition handshake_upto (start t : Z) (j : nat) : list Event :=
  Signalled TrainDone start :: flat_map round (range start t) ++ firstn j (round t).

(** the handshake of a whole run *)
Definition handshake_of_run (start stop : Z) : list Event :=
  Signalled TrainDone start :: flat_map round (range start (stop + 1)).

(** the number of steps of a run: the length of [range(start, stop+1)] *)
Definition steps_of_run (start stop : Z) : nat := Z.to_nat (stop + 1 - start).

(** *** What the learner does at step [t] *)

Definition trains_at (cfg : Config) (t : Z) : bool :=
  match train_due cfg t with Some true => true | _ => false end.

Definition syncs_at (cfg : Config) (t : Z) : bool :=
  trains_at cfg t && match target_due cfg t with Some true => true | _ => false end.

Definition learning_at (cfg : Config) (t : Z) : list Event :=
  if trains_at cfg t
  then TrainStep t :: (if syncs_at cfg t then [TargetSync t] else [])
  else [].

(** no guard of the two loops divides by zero *)
Definition valid (cfg : Config) : Prop :=
  train_freq cfg <> 0 /\ update_target_freq cfg <> 0 /\ log_freq cfg <> 0 /\
  (0 < eval_len cfg -> eval_freq cfg <> 0).

(** *** Where a thread stands in the handshake *)

(** the step whose [train_done] the environment thread consumes next, and
    whether it stands between consuming it and signalling its action *)
Definition env_t (start : Z) (pc : EnvPc) : Z :=
  match pc with
  | E_start => start
  | E_head t _ | E_wait_test t _ | E_wait_block t _ | E_wait_clear t _
  | E_eval t _ | E_act t _ | E_signal t _ _ => t
  | E_inc t _ _ | E_step t _ _ | E_store t _ _ _ _ _ | E_next t _ _ | E_log t _ => t + 1
  end.

Definition env_mid (pc : EnvPc) : bool :=
  match pc with
  | E_eval _ _ | E_act _ _ | E_signal _ _ _ => true
  | _ => false
  end.

(** the step of the learner, and whether it stands between consuming
    [act_chosen] and signalling [train_done] *)
Definition nn_t (pc : NnPc) : Z :=
  match pc with
  | N_head t | N_cond t | N_mark t | N_feed t | N_wait_test t _ | N_wait_block t _
  | N_wait_clear t _ | N_run t _ | N_target t | N_save t | N_signal t => t
  end.

Definition nn_mid (pc : NnPc) : bool :=
  match pc with
  | N_run _ _ | N_target _ | N_save _ | N_signal _ => true
  | _ => false
  end.

(** how many events of round [nn_t] have happened *)
Definition phase (te : Z) (em : bool) (tn : Z) (nm : bool) : option nat :=
  if nm then (if (te =? tn + 1) && negb em then Some 3%nat else None)
  else if em then (if te =? tn then Some 1%nat else None)
  else if te =? tn then Some 0%nat
  else if te =? tn + 1 then Some 2%nat
  else None.

(** the iteration variable stays within [range(start_step, stop_step+1)];
    a thread has finished only by exhausting the range *)
Definition env_in_range (cfg : Config) (s : Sys) : Prop :=
  match env_pc s with
  | E_start => env_status s <> Finished
  | E_head t _ => start_step (agent s) <= t /\
                  (t <= stop_step cfg + 1 \/ t = start_step (agent s)) /\
                  (env_status s = Finished -> stop_step cfg < t)
  | E_wait_test t _ | E_wait_block t _ | E_wait_clear t _ | E_eval t _ | E_act t _
  | E_signal t _ _ | E_inc t _ _ | E_step t _ _ | E_store t _ _ _ _ _
  | E_next t _ _ | E_log t _ =>
      start_step (agent s) <= t <= stop_step cfg /\ env_status s <> Finished
  end.

Definition nn_in_range (cfg : Config) (s : Sys) : Prop :=
  match nn_pc s with
  | N_head t => start_step (agent s) <= t /\
                (t <= stop_step cfg + 1 \/ t = start_step (agent s)) /\
                (nn_status s = Finished -> stop_step cfg < t)
  | N_cond t | N_mark t | N_feed t | N_wait_test t _ | N_wait_block t _
  | N_wait_clear t _ | N_run t _ | N_target t | N_save t | N_signal t =>
      start_step (agent s) <= t <= stop_step cfg /\ nn_status s <> Finished
  end.

(** a thread about to clear a flag has seen it set *)
Definition waiter_saw_flag (s : Sys) : Prop :=
  (match env_pc s with E_wait_clear _ _ => train_done (agent s) = true | _ => True end) /\
  (match nn_pc s with N_wait_clear _ _ => act_chosen (agent s) = true | _ => True end).

(** the handshake invariant: the positions of the two threads, the two
    flags and the recorded handshake agree on a phase of a round *)
Definition handshake_inv (start : Z) (s : Sys) : Prop :=
  start_step (agent s) = start /\
  exists j : nat,
    phase (env_t start (env_pc s)) (env_mid (env_pc s))
          (nn_t (nn_pc s)) (nn_mid (nn_pc s)) = Some j /\
    train_done (agent s) = Nat.eqb j 0 /\
    act_chosen (agent s) = Nat.eqb j 2 /\
    handshake (trace (agent s)) = handshake_upto start (nn_t (nn_pc s)) j /\
    waiter_saw_flag s.

(** what the learner has recorded of its current step *)
Definition learning_partial (cfg : Config) (pc : NnPc) : list Event :=
  match pc with
  | N_target t => [TrainStep t]
  | N_save t | N_signal t => learning_at cfg t
  | _ => []
  end.

(** the branch of the learner agrees with the guards of its step *)
Definition nn_branch (cfg : Config) (pc : NnPc) : Prop :=
  match pc with
  | N_mark t | N_feed t | N_run t _ | N_target t => train_due cfg t = Some true
  | N_wait_test t f | N_wait_block t f | N_wait_clear t f =>
      train_due cfg t = Some (match f with Some _ => true | None => false end)
  | N_save t | N_signal t =>
      train_due cfg t = Some false \/
      (train_due cfg t = Some true /\ target_due cfg t <> None)
  | _ => True
  end.

Definition learning_inv (cfg : Config) (start : Z) (s : Sys) : Prop :=
  nn_branch cfg (nn_pc s) /\
  learning (trace (agent s)) =
    flat_map (learning_at cfg) (range start (nn_t (nn_pc s)))
    ++ learning_partial cfg (nn_pc s).

(** the invariant of a run of [train()] started at step [start] *)
Definition train_inv (cfg : Config) (start : Z) (s : Sys) : Prop :=
  handshake_inv start s /\ env_in_range cfg s /\ nn_in_range cfg s /\
  learning_inv cfg start s.

(** no thread has raised *)
Definition no_raise (s : Sys) : Prop :=
  (forall e, env_status s <> Raised e) /\ (forall e, nn_status s <> Raised e).

(** a running thread is stuck only in [wait()] on a flag that is not set *)
Definition env_blocked (s : Sys) : Prop :=
  env_status s = Running /\
  exists t obs, env_pc s = E_wait_block t obs /\ train_done (agent s) = false.

Definition nn_blocked (s : Sys) : Prop :=
  nn_status s = Running /\
  exists t feed, nn_pc s = N_wait_block t feed /\ act_chosen (agent s) = false.

(** *** A measure that every move decreases *)

Definition remaining (cfg : Config) (t : Z) : Z := Z.max 0 (stop_step cfg + 1 - t).

Definition env_rank (cfg : Config) (s : Sys) : Z :=
  match env_status s with
  | Running =>
      match env_pc s with
      | E_start => 20 * remaining cfg (start_step (agent s)) + 16
      | E_head t _ => 20 * remaining cfg t + 15
      | E_wait_test t _ =>
          20 * remaining cfg (t + 1) + 20 + (if train_done (agent s) then 12 else 14)
      | E_wait_block t _ => 20 * remaining cfg (t + 1) + 20 + 13
      | E_wait_clear t _ => 20 * remaining cfg (t + 1) + 20 + 11
      | E_eval t _ => 20 * remaining cfg (t + 1) + 20 + 10
      | E_act t _ => 20 * remaining cfg (t + 1) + 20 + 9
      | E_signal t _ _ => 20 * remaining cfg (t + 1) + 20 + 8
      | E_inc t _ _ => 20 * remaining cfg (t + 1) + 20 + 7
      | E_step t _ _ => 20 * remaining cfg (t + 1) + 20 + 6
      | E_store t _ _ _ _ _ => 20 * remaining cfg (t + 1) + 20 + 5
      | E_next t _ _ => 20 * remaining cfg (t + 1) + 20 + 4
      | E_log t _ => 20 * remaining cfg (t + 1) + 20 + 3
      end
  | _ => 0
  end.

Definition nn_rank (cfg : Config) (s : Sys) : Z :=
  match nn_status s with
  | Running =>
      match nn_pc s with
      | N_head t => 20 * remaining cfg t + 15
      | N_cond t => 20 * remaining cfg (t + 1) + 20 + 14
      | N_mark t => 20 * remaining cfg (t + 1) + 20 + 13
      | N_feed t => 20 * remaining cfg (t + 1) + 20 + 12
      | N_wait_test t _ =>
          20 * remaining cfg (t + 1) + 20 + (if act_chosen (agent s) then 9 else 11)
      | N_wait_block t _ => 20 * remaining cfg (t + 1) + 20 + 10
      | N_wait_clear t _ => 20 * remaining cfg (t + 1) + 20 + 8
      | N_run t _ => 20 * remaining cfg (t + 1) + 20 + 7
      | N_target t => 20 * remaining cfg (t + 1) + 20 + 6
      | N_save t => 20 * remaining cfg (t + 1) + 20 + 5
      | N_signal t => 20 * remaining cfg (t + 1) + 20 + 4
      end
  | _ => 0
  end.

Definition measure (cfg : Config) (s : Sys) : Z := env_rank cfg s + nn_rank cfg s.

(** the schedule that lets the two threads move in turn *)
Fixpoint in_turn (n : nat) : list Tid :=
  match n with
  | O => []
  | S k => T_env :: T_nn :: in_turn k
  end.

(** *** Views of the agent that a method leaves alone *)

(** what a method must not write for the handshake and the learner's
    record to stay as they are *)
Definition control_view (a : Agent) :=
  (start_step a, act_chosen a, train_done a,
   handshake (trace a), learning (trace a)).

(** the parameters, the replay buffer and the agent's own attributes other
    than the run counter *)
Definition model_view (a : Agent) :=
  (params a, target a, replay_buf a, t_tf a,
   (start_step a, learn_started a, summary a, graph a, disk a,
    (act_chosen a, train_done a))).

Definition same {V} (view : Agent -> V) (a a' : Agent) : Prop := view a' = view a.

(** a method that leaves every state related to the one it started from *)
Definition respects {A} (R : Agent -> Agent -> Prop) (m : M A) : Prop :=
  forall a, R a (fst (m a)).

(** the graph, and what [save()] alone writes: the checkpoints and the
    monitor's statistics of the model directory *)
Definition persist_view (a : Agent) := (graph a, disk a).

(** the agent runs the graph [g] and every checkpoint of its directory was
    written from [g] *)
Definition checkpoints_of (g : Graph) (a : Agent) : Prop :=
  graph a = g /\ forall ck, In ck (checkpoints (disk a)) -> ck_graph ck = g.

(** what [eval()] alone writes of the recorded events and counters *)
Definition eval_view (a : Agent) := (evals (trace a), eval_runs a).

Definition quiet_view (a : Agent) := (control_view a, eval_view a).

Definition quiet (a a' : Agent) : Prop :=
  control_view a' = control_view a /\ eval_view a' = eval_view a.

(** *** What a move does to the control state

    The statements that write a flag or record a handshake or learning
    event are described exactly; the others only as [quiet].  A thread
    raises only where a guard divides by zero. *)

Definition env_effect (cfg : Config) (s s' : Sys) : Prop :=
  env_status s = Running /\ nn_status s' = nn_status s /\ nn_pc s' = nn_pc s /\
  let a := agent s in
  let a' := agent s' in
  let goes pc := env_status s' = Running /\ env_pc s' = pc in
  let raises := (exists e, env_status s' = Raised e) /\ env_pc s' = env_pc s in
  match env_pc s with
  | E_start => quiet a a' /\ exists obs, goes (E_head (start_step a) obs)
  | E_head t obs =>
      a' = a /\
      if t <=? stop_step cfg then goes (E_wait_test t obs)
      else env_status s' = Finished /\ env_pc s' = env_pc s
  | E_wait_test t obs =>
      a' = a /\ goes (if train_done a then E_wait_clear t obs else E_wait_block t obs)
  | E_wait_block t obs => a' = a /\ train_done a = true /\ goes (E_wait_test t obs)
  | E_wait_clear t obs =>
      a' = record (Observed TrainDone t) (set_train_done false a) /\ goes (E_eval t obs)
  | E_eval t obs =>
      match eval_due cfg t with
      | None => a' = a /\ raises
      | Some false => a' = a /\ goes (E_act t obs)
      | Some true =>
          a' = fst (eval cfg a) /\ (goes (E_act t obs) \/ (log_freq cfg = 0 /\ raises))
      end
  | E_act t obs => quiet a a' /\ exists action, goes (E_signal t obs action)
  | E_signal t obs action =>
      a' = record (Signalled ActChosen t) (set_act_chosen true a) /\
      goes (E_inc t obs action)
  | E_inc t obs action => quiet a a' /\ goes (E_step t obs action)
  | E_step t obs action =>
      quiet a a' /\ exists next_obs reward done, goes (E_store t obs action next_obs reward done)
  | E_store t obs action next_obs reward done => quiet a a' /\ goes (E_next t next_obs done)
  | E_next t next_obs done => quiet a a' /\ exists obs, goes (E_log t obs)
  | E_log t obs =>
      quiet a a' /\ (goes (E_head (t + 1) obs) \/ (log_freq cfg = 0 /\ raises))
  end.

Definition nn_effect (cfg : Config) (s s' : Sys) : Prop :=
  nn_status s = Running /\ env_status s' = env_status s /\ env_pc s' = env_pc s /\
  let a := agent s in
  let a' := agent s' in
  let goes pc := nn_status s' = Running /\ nn_pc s' = pc in
  let raises := (exists e, nn_status s' = Raised e) /\ nn_pc s' = nn_pc s in
  match nn_pc s with
  | N_head t =>
      a' = a /\
      if t <=? stop_step cfg then goes (N_cond t)
      else nn_status s' = Finished /\ nn_pc s' = nn_pc s
  | N_cond t =>
      a' = a /\
      match train_due cfg t with
      | None => raises
      | Some true => goes (N_mark t)
      | Some false => goes (N_wait_test t None)
      end
  | N_mark t => quiet a a' /\ goes (N_feed t)
  | N_feed t => quiet a a' /\ exists feed, goes (N_wait_test t (Some feed))
  | N_wait_test t feed =>
      a' = a /\ goes (if act_chosen a then N_wait_clear t feed else N_wait_block t feed)
  | N_wait_block t feed => a' = a /\ act_chosen a = true /\ goes (N_wait_test t feed)
  | N_wait_clear t feed =>
      a' = record (Observed ActChosen t) (set_act_chosen false a) /\
      goes (match feed with Some f => N_run t f | None => N_save t end)
  | N_run t feed =>
      (exists p sm, a' = record (TrainStep t) (set_summary (Some sm) (set_params p a))) /\
      goes (N_target t)
  | N_target t =>
      match target_due cfg t with
      | None => a' = a /\ raises
      | Some true =>
          a' = record (TargetSync t)
                 (set_target (run_update_target (params a) (target a)) a) /\
          goes (N_save t)
      | Some false => a' = a /\ goes (N_save t)
      end
  | N_save t => quiet a a' /\ goes (N_signal t)
  | N_signal t =>
      a' = record (Signalled TrainDone (t + 1)) (set_train_done true a) /\
      goes (N_head (t + 1))
  end.

(** a method that returns, whatever the state *)
Definition returns {A} (m : M A) : Prop :=
  forall a, exists x, snd (m a) = Ret x.

(** *** Calls of [eval()] *)

(** the steps of the call of [eval()] that sets the run counter to [runs] *)
Definition eval_range (cfg : Config) (runs : Z) : list Z :=
  range (eval_len cfg * runs + 1) (eval_len cfg + (eval_len cfg * runs + 1)).

(** the events a call of [eval()] on [a] records *)
Definition events_of_call (cfg : Config) (a : Agent) : list Event :=
  skipn (List.length (trace a)) (trace (fst (eval cfg a))).

(** the steps over which the loop of that call iterates *)
Definition steps_of_call (cfg : Config) (a : Agent) : list Z :=
  eval_steps (events_of_call cfg a).

(** the agent after [n] calls of [eval()] *)
Definition after_evals (cfg : Config) (n : nat) (a : Agent) : Agent :=
  Nat.iter n (fun a => fst (eval cfg a)) a.

(** *** More of what a run records and keeps *)

Definition is_env_event (e : Event) : bool :=
  match e with
  | Chose _ _ | EnvStep _ => true
  | _ => false
  end.

Definition is_save_call (e : Event) : bool :=
  match e with
  | SaveCall _ => true
  | _ => false
  end.

(** the events of action selection and of the environment step *)
Definition env_events (tr : list Event) : list Event := filter is_env_event tr.

(** the steps at which [save()] was called *)
Definition save_calls (tr : list Event) : list Z :=
  flat_map (fun e => match e with SaveCall t => [t] | _ => [] end) tr.

(** the guards of evaluation and saving, as booleans *)
Definition eval_at (cfg : Config) (t : Z) : bool :=
  match eval_due cfg t with Some true => true | _ => false end.

Definition save_at (cfg : Config) (t : Z) : bool :=
  match save_due cfg t with Some true => true | _ => false end.

(** the environment thread reads the parameters: [eval()] and action selection *)
Definition selecting (pc : EnvPc) : bool :=
  match pc with
  | E_eval _ _ | E_act _ _ => true
  | _ => false
  end.

(** the learner writes the parameters or their target copy *)
Definition updating (pc : NnPc) : bool :=
  match pc with
  | N_run _ _ | N_target _ => true
  | _ => false
  end.

(** how many times the environment thread has run [t_tf_inc] *)
Definition increments (start : Z) (pc : EnvPc) : Z :=
  match pc with
  | E_start => 0
  | E_head t _ | E_wait_test t _ | E_wait_block t _ | E_wait_clear t _
  | E_eval t _ | E_act t _ | E_signal t _ _ | E_inc t _ _ => t - start
  | E_step t _ _ | E_store t _ _ _ _ _ | E_next t _ _ | E_log t _ => t + 1 - start
  end.

(** the first step for which no action is chosen yet, no transition stored
    yet, and whose evaluation guard is not passed yet *)
Definition acted_upto (start : Z) (pc : EnvPc) : Z :=
  match pc with
  | E_start => start
  | E_head t _ | E_wait_test t _ | E_wait_block t _ | E_wait_clear t _
  | E_eval t _ | E_act t _ => t
  | E_signal t _ _ | E_inc t _ _ | E_step t _ _ | E_store t _ _ _ _ _
  | E_next t _ _ | E_log t _ => t + 1
  end.

Definition stored_upto (start : Z) (pc : EnvPc) : Z :=
  match pc with
  | E_start => start
  | E_head t _ | E_wait_test t _ | E_wait_block t _ | E_wait_clear t _
  | E_eval t _ | E_act t _ | E_signal t _ _ | E_inc t _ _ | E_step t _ _
  | E_store t _ _ _ _ _ => t
  | E_next t _ _ | E_log t _ => t + 1
  end.

Definition evaluated_upto (start : Z) (pc : EnvPc) : Z :=
  match pc with
  | E_start => start
  | E_head t _ | E_wait_test t _ | E_wait_block t _ | E_wait_clear t _
  | E_eval t _ => t
  | E_act t _ | E_signal t _ _ | E_inc t _ _ | E_step t _ _ | E_store t _ _ _ _ _
  | E_next t _ _ | E_log t _ => t + 1
  end.

(** the learner is past [self.learn_started = True] in its step *)
Definition after_mark (pc : NnPc) : bool :=
  match pc with
  | N_head _ | N_cond _ | N_mark _ => false
  | _ => true
  end.

(** the learner is past [self.save()] in its step *)
Definition after_save (pc : NnPc) : bool :=
  match pc with
  | N_signal _ => true
  | _ => false
  end.

(** learning has started once the learner is through step [t] *)
Definition started_by (cfg : Config) (started : bool) (start t : Z) : bool :=
  started || existsb (trains_at cfg) (range start (t + 1)).

(** the steps at which [save()] writes a checkpoint *)
Definition saves_at (cfg : Config) (started : bool) (start t : Z) : bool :=
  save_at cfg t && started_by cfg started start t.

(** the steps of the actions chosen *)
Definition chose_steps (tr : list Event) : list Z :=
  flat_map (fun e => match e with Chose t _ => [t] | _ => [] end) tr.

(** the steps of the transitions stored *)
Definition env_steps (tr : list Event) : list Z :=
  flat_map (fun e => match e with EnvStep t => [t] | _ => [] end) tr.

(** what [k] consecutive calls of [eval()] record, the first of them
    setting the run counter to [r] *)
Fixpoint evals_of_calls (cfg : Config) (r : Z) (k : nat) : list Event :=
  match k with
  | O => []
  | S k' =>
      (EvalStart r :: map (fun t => EvalStep t EvalMode) (eval_range cfg r))
      ++ evals_of_calls cfg (r + 1) k'
  end.

(** the guards of the environment thread do not divide by zero *)
Definition env_valid (cfg : Config) : Prop :=
  log_freq cfg <> 0 /\ (0 < eval_len cfg -> eval_freq cfg <> 0).

(** what the agent keeps besides the events: a move of either thread is
    described by what it does to this view *)
Definition data_view (a : Agent) :=
  (t_tf a, learn_started a, disk a, env_events (trace a), save_calls (trace a)).

(** *** What a run keeps of the counter, the actions and the directory *)

(** the counter [x] after [n] runs of [t_tf_inc], each one the [int32]
    addition [tf.assign(t_tf, t_tf + 1)] *)
Definition incremented (x n : Z) : Z :=
  Nat.iter (Z.to_nat n) (fun x => wrap32 (x + 1)) x.

(** the counter [t_tf] follows the loop of the environment thread, which
    has chosen an action and stored a transition for each of its steps *)
Definition env_data_inv (a0 : Agent) (s : Sys) : Prop :=
  let start := start_step a0 in
  t_tf (agent s) = incremented (t_tf a0) (increments start (env_pc s)) /\
  chose_steps (env_events (trace (agent s))) = range start (acted_upto start (env_pc s)) /\
  env_steps (env_events (trace (agent s))) = range start (stored_upto start (env_pc s)).

(** [learn_started] is set by the first training step that is due *)
Definition started_inv (cfg : Config) (a0 : Agent) (s : Sys) : Prop :=
  learn_started (agent s) =
    learn_started a0
    || existsb (trains_at cfg) (range (start_step a0) (nn_t (nn_pc s)))
    || (after_mark (nn_pc s) && trains_at cfg (nn_t (nn_pc s))).

(** the action of step [t] came from the networks, [b = true], only if
    learning had started by step [t], and from the environment's sampler
    only if it had not started before step [t] *)
Definition chosen_ok (cfg : Config) (a0 : Agent) (t : Z) (b : bool) : Prop :=
  if b then started_by cfg (learn_started a0) (start_step a0) t = true
  else started_by cfg (learn_started a0) (start_step a0) (t - 1) = false.

Definition chosen_inv (cfg : Config) (a0 : Agent) (s : Sys) : Prop :=
  forall t b, In (Chose t b) (env_events (trace (agent s))) -> chosen_ok cfg a0 t b.

(** the steps of a list that the learner is through, with the one of the
    step it stands in once past [save()] *)
Definition through (p : Z -> bool) (start : Z) (pc : NnPc) : list Z :=
  filter p (range start (nn_t pc))
  ++ (if after_save pc && p (nn_t pc) then [nn_t pc] else []).

(** a checkpoint written at step [t]: its global step is the counter,
    read before or after the environment thread incremented it *)
Definition written_at (a0 : Agent) (t : Z) (ck : Checkpoint) : Prop :=
  ck_t_tf ck = ck_global_step ck /\
  (ck_global_step ck = incremented (t_tf a0) (t - start_step a0) \/
   ck_global_step ck = incremented (t_tf a0) (t - start_step a0 + 1)).

(** the checkpoints written, oldest first, went through the saver one
    after the other *)
Definition save_inv (cfg : Config) (a0 : Agent) (s : Sys) : Prop :=
  let start := start_step a0 in
  save_calls (trace (agent s)) = through (save_at cfg) start (nn_pc s) /\
  exists new snaps,
    (checkpoints (disk (agent s)), saver (agent s))
      = fold_left put new (checkpoints (disk a0), saver a0) /\
    monitor_saves (disk (agent s)) = snaps ++ monitor_saves (disk a0) /\
    Forall2 (written_at a0)
      (through (saves_at cfg (learn_started a0) start) start (nn_pc s)) new /\
    List.length snaps = List.length new.

(** the calls of [eval()] made by the environment thread so far *)
Definition evals_upto (cfg : Config) (start : Z) (pc : EnvPc) : nat :=
  List.length (filter (eval_at cfg) (range start (evaluated_upto start pc))).

Definition eval_inv (cfg : Config) (a0 : Agent) (s : Sys) : Prop :=
  let k := evals_upto cfg (start_step a0) (env_pc s) in
  eval_view (agent s) =
    (evals_of_calls cfg (eval_runs a0 + 1) k, eval_runs a0 + Z.of_nat k).

(** with [train_freq = 0] the learner does not get past the first step
    at which the left operand of its guard holds *)
Definition first_guarded (cfg : Config) (start : Z) : Z := Z.max start (start_train cfg).

(** a thread has raised *)
Definition raised (s : Sys) : bool :=
  match env_status s, nn_status s with
  | Raised _, _ | _, Raised _ => true
  | _, _ => false
  end.

(** the learner raises nothing but [ZeroDivisionError] *)
Definition nn_raises_zero (s : Sys) : Prop :=
  forall e, nn_status s = Raised e -> e = ZeroDivisionError.

(** a method that raises nothing but the [ZeroDivisionError] of a guard *)
Definition raises_zero {A} (m : M A) : Prop :=
  forall a e, snd (m a) = Err e -> e = ZeroDivisionError.

(** the environment thread raises nothing but [ZeroDivisionError] *)
Definition env_raises_zero (s : Sys) : Prop :=
  forall e, env_status s = Raised e -> e = ZeroDivisionError.

(** the step the environment thread is in *)
Definition env_step_of (start : Z) (pc : EnvPc) : Z :=
  match pc with
  | E_start => start
  | E_head t _ | E_wait_test t _ | E_wait_block t _ | E_wait_clear t _
  | E_eval t _ | E_act t _ | E_signal t _ _ | E_inc t _ _ | E_step t _ _
  | E_store t _ _ _ _ _ | E_next t _ _ | E_log t _ => t
  end.

(** the moves that a schedule makes the two threads take *)
Fixpoint moves (cfg : Config) (sched : list Tid) (s : Sys) : nat :=
  match sched with
  | [] => O
  | tid :: rest =>
      match move cfg tid s with
      | Some s' => S (moves cfg rest s')
      | None => moves cfg rest s
      end
  end.

End Core.

(** ** [rltf/models/dqn.py]: the action tensors of [DQN]

    A tensor is the expression that computes it.  [Frame] is an observation
    (an array of [uint8]), [Scaled] the same cast to [float32] and divided
    by 255, [QVal] a Q-value ([float32]) and [Weights] the variables of the
    scope [agent_net]. *)

Module DQN.

Section Model.

Context {Frame Scaled Weights QVal : Type}.
Variable shape_of : Frame -> list Z.                    (* [state.shape] *)
Variable scale : Frame -> Scaled.                       (* [tf.cast(x, tf.float32) / 255.0] *)
Variable nn_model : Weights -> Scaled -> list QVal.     (* [_nn_model(x, scope="agent_net")] *)
Variable q_ltb : QVal -> QVal -> bool.                  (* [<] on [float32] *)

Inductive Tensor :=
| Placeholder (name : string)
| ScaledObs (x : Tensor)
| AgentNet (x : Tensor)
| ArgMax (x : Tensor) (name : string)      (* tf.argmax(x, axis=-1, output_type=tf.int32) *)
| Identity (x : Tensor) (name : string).   (* tf.identity(x) *)

(** values with a batch dimension *)
Inductive Value :=
| V_frames (b : list Frame)
| V_scaled (b : list Scaled)
| V_q (b : list (list QVal))
| V_int (b : list Z).

(** the index of the first largest entry *)
Fixpoint argmax_from (best : QVal) (best_i i : Z) (l : list QVal) : Z :=
  match l with
  | [] => best_i
  | x :: r => if q_ltb best x then argmax_from x i (i + 1) r
              else argmax_from best best_i (i + 1) r
  end.

Definition argmax (l : list QVal) : Z :=
  match l with
  | [] => 0
  | x :: r => argmax_from x 0 1 r
  end.

(** [sess.run(t, feed_dict)] *)
Fixpoint sess_run (w : Weights) (feed : string -> option (list Frame)) (t : Tensor)
  : option Value :=
  match t with
  | Placeholder n => option_map V_frames (feed n)
  | ScaledObs x =>
      match sess_run w feed x with
      | Some (V_frames b) => Some (V_scaled (map scale b))
      | _ => None
      end
  | AgentNet x =>
      match sess_run w feed x with
      | Some (V_scaled b) => Some (V_q (map (nn_model w) b))
      | _ => None
      end
  | ArgMax x _ =>
      match sess_run w feed x with
      | Some (V_q b) => Some (V_int (map argmax b))
      | _ => None
      end
  | Identity x _ => sess_run w feed x
  end.

(** the attributes of [BaseDQN] that action selection uses *)
Record Model := mkModel {
  obs_shape : list Z;
  a_train : option Tensor;
  a_eval : option Tensor
}.

(** [BaseDQN.__init__] *)
Definition init (shape : list Z) : Model := mkModel shape None None.

(** [DQN._act_train] *)
Definition _act_train (self : Model) (agent_net : Tensor) (name : string) : Res Tensor :=
  Ret (ArgMax agent_net name).

(** [DQN._act_eval]: [tf.identity(self.a_train, name=name)] *)
Definition _act_eval (self : Model) (agent_net : Tensor) (name : string) : Res Tensor :=
  match a_train self with
  | Some t => Ret (Identity t name)
  | None => Err (ValueError name)
  end.

(** [BaseDQN.build], as far as the two action tensors go *)
Definition build (self : Model) : Res Model :=
  let obs_t := ScaledObs (Placeholder "obs_t_ph") in
  let agent_net := AgentNet obs_t in
  match _act_train self agent_net "a_train" with
  | Err e => Err e
  | Ret tr =>
      let self := mkModel (obs_shape self) (Some tr) (a_eval self) in
      match _act_eval self agent_net "a_eval" with
      | Err e => Err e
      | Ret ev => Ret (mkModel (obs_shape self) (a_train self) (Some ev))
      end
  end.

(** [feed_dict={self.obs_t_ph: state[None,:]}] *)
Definition feed_state (state : Frame) (n : string) : option (list Frame) :=
  if String.eqb n "obs_t_ph" then Some [state] else None.

(** [sess.run(tensor, feed_dict=...)] followed by [action[0]] *)
Definition run_action (w : Weights) (tensor : option Tensor) (state : Frame) : Res Z :=
  match tensor with
  | None => Err (ValueError "fetch")
  | Some t =>
      match sess_run w (feed_state state) t with
      | Some (V_int (a :: _)) => Ret a
      | _ => Err (ValueError "fetch")
      end
  end.

(** [BaseDQN.action_train] *)
Definition action_train (self : Model) (w : Weights) (state : Frame) : Res Z :=
  if list_eq_dec Z.eq_dec (shape_of state) (obs_shape self)
  then run_action w (a_train self) state
  else Err AssertionError.

(** [BaseDQN.action_eval] *)
Definition action_eval (self : Model) (w : Weights) (state : Frame) : Res Z :=
  if list_eq_dec Z.eq_dec (shape_of state) (obs_shape self)
  then run_action w (a_eval self) state
  else Err AssertionError.

End Model.

(** the operations [BaseDQN.build] creates under a name of their own *)
Definition named_ops : Graph :=
  [mkOp "train_op" 0; mkOp "update_target" 0; mkOp "a_train" 1; mkOp "a_eval" 1;
   mkOp "train/loss" 1].

(** [BaseDQN._restore] *)
Definition _restore (g : Graph) : Res unit :=
  match get_tensor_by_name g "a_train:0" with
  | Err e => Err e
  | Ret _ =>
      match get_tensor_by_name g "a_eval:0" with
      | Err e => Err e
      | Ret _ => Ret tt
      end
  end.

End DQN.

(** ** A deterministic stub for the scenarios of the specification

    Observations, actions and parameters carry no information; an episode
    never ends.  The graph is the one of the DQN model. *)

Definition stub : Collab unit unit unit unit unit unit unit unit unit := {|
  env_reset := fun w => (w, tt);
  env_step := fun w _ => (w, (tt, tt, false));
  sample_action := fun w => (w, tt);
  action_train := fun _ _ _ w => (w, tt);
  action_eval := fun _ _ _ w => (w, tt);
  model_reset := fun w => w;
  agent_reset := fun w => w;
  replay_store := fun _ _ _ _ _ => tt;
  get_feed_dict := fun _ _ w => (w, tt);
  run_train_op := fun _ _ _ => (tt, tt);
  run_update_target := fun _ _ => tt;
  log_stats := fun _ _ w => w;
  tb_eval_add := fun _ w => w;
  tb_train_add := fun _ _ _ w => w;
  monitor_snapshot := fun _ => tt;
  build_ops := DQN.named_ops;
  initial_params := tt;
  initial_target := tt;
  model_initialize := fun _ _ => tt;
  model_restore := DQN._restore;
  agent_restore := fun _ => Ret tt
|}.

(** [{train_freq=4, start_train=10, stop_step=20, batch_size=2}] with
    [target_update_freq=10], no evaluation, no saving *)
Definition scenario_cfg : Config := mkConfig 4 10 20 0 0 2 10000 0 10.

(** the agent [build()] makes in an empty model directory *)
Definition fresh_agent : Agent (Params := unit) (Replay := unit) (Summary := unit)
                               (MonSnap := unit) (World := unit) :=
  mkAgent 1 false (-1) None (fresh_graph (C := stub)) 1 tt tt tt TrainMode tt
    (mkDisk [] []) 0%nat false false [].

(** a model directory with a checkpoint not written from the graph of the
    build branch: its graph has an operation [t_tf_inc], its counter is 101 *)
Definition foreign_disk : Disk (Params := unit) (MonSnap := unit) :=
  mkDisk [mkCheckpoint (fresh_graph (C := stub) ++ [mkOp "t_tf_inc" 1]) tt tt 101 101] [].

(** a configuration that saves every fifth step *)
Definition saving_cfg : Config := mkConfig 4 10 20 0 0 2 10000 5 10.

(** a configuration that saves every second step *)
Definition often_saving_cfg : Config := mkConfig 4 10 20 0 0 2 10000 2 10.

(** one step, with training and saving at that step *)
Definition one_step_cfg : Config := mkConfig 1 1 1 0 0 2 10000 1 10.

(** the environment thread first, as far as it gets, then the learner *)
Definition env_first : list Tid := repeat T_env 20 ++ repeat T_nn 20.

(** the environment thread up to its signal, then the learner *)
Definition learner_early : list Tid := repeat T_env 7 ++ repeat T_nn 20.

(** a configuration with evaluation runs of three steps *)
Definition eval_cfg : Config := mkConfig 4 10 20 10 3 2 7 0 10.

(** a stub network for the DQN tensors: the observation is the Q-values *)
Definition toy_q (w : unit) (x : list Z) : list Z := x.

(** the DQN model built for observations of [n] entries *)
Definition mkDQN (n : Z) : DQN.Model :=
  match DQN.build (DQN.init [n]) with
  | Ret m => m
  | Err _ => DQN.init [n]
  end.

(** a configuration whose training period is zero *)
Definition zero_train_cfg : Config := mkConfig 0 10 20 0 0 2 10000 0 10.

(** a configuration whose target-update period is zero *)
Definition zero_target_cfg : Config := mkConfig 4 10 20 0 0 2 10000 0 0.

(** a configuration whose logging period is zero, with evaluation runs *)
Definition zero_log_cfg : Config := mkConfig 4 10 20 10 3 2 0 0 10.

(** * The hooks of [BaseDQN.build]

    [BaseDQN.build] builds the graph through six methods that it calls on
    [self] and that the subclasses override.  A class is the table of the
    methods it defines; a call finds the method along the classes of the
    object, binds its arguments to the parameters of the method, and runs
    its body.  The bodies build tensors and are parameters here; a body
    that is [raise NotImplementedError()] is [None]. *)

Module Hooks.

Local Open Scope string_scope.

Section Classes.

Variable V : Type.                            (* tensors, and the strings passed as names *)
Variable str : string -> V.

(** the attribute of [self] that a hook reads: [self.a_train] *)
Definition Self := option V.

Inductive Outcome (A : Type) :=
| Returned (x : A)
| AttributeError (method : string)        (* no class of the object defines it *)
| TypeError (method : string)             (* the arguments do not fit its parameters *)
| NotImplementedError (method : string)   (* its body is [raise NotImplementedError()] *)
| Failed (method : string).               (* its body raised while building tensors *)

Arguments Returned {A} x.
Arguments AttributeError {A} method.
Arguments TypeError {A} method.
Arguments NotImplementedError {A} method.
Arguments Failed {A} method.

(** [def name(self, p1, ..., pn): body] *)
Record Def := mkDef {
  def_params : list string;
  def_body : option (Self -> list V -> option V)
}.

Definition Class := list (string * Def).

Fixpoint lookup {A} (l : list (string * A)) (n : string) : option A :=
  match l with
  | [] => None
  | (k, x) :: r => if String.eqb k n then Some x else lookup r n
  end.

(** the method of the first class that defines it *)
Fixpoint resolve (mro : list Class) (n : string) : option Def :=
  match mro with
  | [] => None
  | c :: r => match lookup c n with
              | Some d => Some d
              | None => resolve r n
              end
  end.

Fixpoint all_some {A} (l : list (option A)) : option (list A) :=
  match l with
  | [] => Some []
  | Some x :: r => option_map (cons x) (all_some r)
  | None :: _ => None
  end.

(** Positional arguments go to the first parameters, keyword arguments to
    the parameters of their name; a call fits when every parameter gets
    one value and no argument is left over. *)
Definition bind_args (params : list string) (pos : list V) (kw : list (string * V))
  : option (list V) :=
  if (List.length params <? List.length pos)%nat then None
  else
    let named := skipn (List.length pos) params in
    if forallb (fun k => existsb (String.eqb (fst k)) named) kw
    then option_map (app pos) (all_some (map (lookup kw) named))
    else None.

(** a call [self.n(...)] with positional and keyword arguments *)
Definition call (mro : list Class) (self : Self) (n : string)
    (pos : list V) (kw : list (string * V)) : Outcome V :=
  match resolve mro n with
  | None => AttributeError n
  | Some d =>
      match bind_args (def_params d) pos kw with
      | None => TypeError n
      | Some args =>
          match def_body d with
          | None => NotImplementedError n
          | Some body =>
              match body self args with
              | Some v => Returned v
              | None => Failed n
              end
          end
      end
  end.

Definition then_ {A B} (o : Outcome A) (k : A -> Outcome B) : Outcome B :=
  match o with
  | Returned x => k x
  | AttributeError n => AttributeError n
  | TypeError n => TypeError n
  | NotImplementedError n => NotImplementedError n
  | Failed n => Failed n
  end.

(** what [build] does besides calling its hooks: the placeholders and the
    two scaled observations, and the optimizer with the two operations *)
Variable prepare : option (V * V).            (* [obs_t], [obs_tp1] *)
Variable optimize : V -> option unit.         (* from the loss *)

Definition step {A} (n : string) (r : option A) : Outcome A :=
  match r with
  | Some x => Returned x
  | None => Failed n
  end.

(** [BaseDQN.build] on an object of the classes [mro]; it returns
    [self.a_train] and [self.a_eval] *)
Definition build (mro : list Class) : Outcome (V * V) :=
  then_ (step "_build" prepare) (fun obs =>
  let (obs_t, obs_tp1) := obs in
  then_ (call mro None "_nn_model" [obs_t] [("scope", str "agent_net")]) (fun agent_net =>
  then_ (call mro None "_nn_model" [obs_tp1] [("scope", str "target_net")]) (fun target_net =>
  then_ (call mro None "_compute_estimate" [agent_net] []) (fun estimate =>
  then_ (call mro None "_compute_target" [agent_net; target_net] []) (fun target =>
  then_ (call mro None "_compute_loss" [estimate; target] []) (fun loss =>
  then_ (step "minimize" (optimize loss)) (fun _ =>
  then_ (call mro None "_act_train" [agent_net] [("name", str "a_train")]) (fun a_train =>
  then_ (call mro (Some a_train) "_act_eval" [agent_net] [("name", str "a_eval")])
    (fun a_eval =>
  Returned (a_train, a_eval)))))))))).

(** the hooks as [BaseDQN] defines them *)
Definition BaseDQN : Class :=
  [("_nn_model", mkDef ["x"; "scope"] None);
   ("_act_train", mkDef ["agent_net"; "name"] None);
   ("_act_eval", mkDef ["agent_net"; "name"] None);
   ("_compute_estimate", mkDef ["agent_net"] None);
   ("_compute_target", mkDef ["agent_net"; "target_net"] None);
   ("_compute_loss", mkDef ["estimate"; "target"] None)].

(** the bodies of a subclass, in the order of its source *)
Variable bodies : string -> Self -> list V -> option V.

(** the methods that [DQN] defines *)
Definition DQN : Class :=
  [("_nn_model", mkDef ["x"; "scope"] (Some (bodies "_nn_model")));
   ("_act_train", mkDef ["agent_net"; "name"] (Some (bodies "_act_train")));
   ("_act_eval", mkDef ["agent_net"; "name"] (Some (bodies "_act_eval")));
   ("_compute_estimate", mkDef ["agent_net"] (Some (bodies "_compute_estimate")));
   ("_compute_target", mkDef ["agent_net"; "target_net"] (Some (bodies "_compute_target")));
   ("_compute_loss", mkDef ["estimate"; "target"] (Some (bodies "_compute_loss")))].

(** the methods that [QRDQN] defines *)
Definition QRDQN : Class :=
  [("_nn_model", mkDef ["x"; "scope"] (Some (bodies "_nn_model")));
   ("_compute_q", mkDef ["nn_out"] (Some (bodies "_compute_q")));
   ("_compute_estimate", mkDef ["nn_out"] (Some (bodies "_compute_estimate")));
   ("_compute_target", mkDef ["nn_out"] (Some (bodies "_compute_target")));
   ("_compute_loss", mkDef ["estimate"; "target"] (Some (bodies "_compute_loss")))].

(** a call ended in an exception of the dispatch, not of a body *)
Definition dispatch_error {A} (o : Outcome A) : bool :=
  match o with
  | AttributeError _ | TypeError _ | NotImplementedError _ => true
  | _ => false
  end.

End Classes.

Arguments Returned {A} x.
Arguments AttributeError {A} method.
Arguments TypeError {A} method.
Arguments NotImplementedError {A} method.
Arguments Failed {A} method.

End Hooks.

(** * The default arguments: [rltf/cmdutils/defaults.py]

    A [dict] is the list of its items in insertion order.  Integers are
    evaluated ([10**6]); a float is kept as its literal, a class or a
    function as its qualified name, and a call of [ArgSpec] as the callee
    with its keyword arguments. *)

Module Defaults.

Local Open Scope string_scope.

#[local] Unset Elimination Schemes.

Inductive Val :=
| VInt (n : Z)
| VFloat (literal : string)
| VDiv (a b : Val)                                  (* [a / b] *)
| VBool (b : bool)
| VNone
| VName (qualified : string)
| VVar (name : string)
| VTuple (items : list Val)
| VList (items : list Val)
| VArgSpec (callee : string) (kwargs : list (string * Val))
| VLambda (param : string) (default : Val) (body : Val).

#[local] Set Elimination Schemes.

Definition Dict := list (string * Val).

Fixpoint get (d : Dict) (k : string) : option Val :=
  match d with
  | [] => None
  | (k', v) :: r => if String.eqb k' k then Some v else get r k
  end.

(** [d[k] = v]: a key that is there keeps its place *)
Fixpoint set (d : Dict) (k : string) (v : Val) : Dict :=
  match d with
  | [] => [(k, v)]
  | (k', v') :: r => if String.eqb k' k then (k', v) :: r else (k', v') :: set r k v
  end.

(** [{**a, **b}] *)
Definition merge (a b : Dict) : Dict :=
  fold_left (fun d kv => set d (fst kv) (snd kv)) b a.

(** [dict(k1=v1, ...)] *)
Definition dict (items : list (string * Val)) : Dict := merge [] items.

Definition piecewise : Val :=
  VArgSpec "PiecewiseSchedule"
    [("endpoints", VList [VTuple [VInt 0; VFloat "1.0"]; VTuple [VInt (10 ^ 6); VFloat "0.01"]]);
     ("outside_value", VFloat "0.01")].

Definition rmsprop_conf : Val :=
  VArgSpec "OptimizerConf"
    [("opt_type", VName "tf.train.RMSPropOptimizer"); ("learn_rate", VFloat "25e-5");
     ("epsilon", VFloat "1e-5"); ("decay", VFloat "0.95")].

Definition adam_conf (learn_rate : string) : Val :=
  VArgSpec "OptimizerConf"
    [("opt_type", VName "tf.train.AdamOptimizer"); ("learn_rate", VFloat learn_rate);
     ("epsilon", VDiv (VFloat ".01") (VInt 32))].

Definition const_zero : Val := VArgSpec "ConstSchedule" [("value", VFloat "0.0")].

Definition dqn_spec : Dict := dict
  [("warm_up", VInt 50000);
   ("train_period", VInt 4);
   ("target_update_period", VInt 10000);
   ("stop_step", VInt (50 * 10 ^ 6));
   ("eval_period", VInt 250000);
   ("eval_len", VInt 125000);
   ("batch_size", VInt 32);
   ("gamma", VFloat "0.99");
   ("memory_size", VInt (10 ^ 6));
   ("stack_frames", VInt 4);
   ("log_period", VInt 50000);
   ("save_period", VInt (10 ^ 6));
   ("video_period", VInt 1000);
   ("save_buf", VBool true);
   ("env_kwargs", VArgSpec "dict" [("max_ep_steps_train", VInt 108000);
                                   ("max_ep_steps_eval", VInt 108000)])].

Definition DQN : Dict := merge dqn_spec (dict
  [("agent", VName "agents.AgentDQN");
   ("model", VName "models.DQN");
   ("huber_loss", VBool true);
   ("opt_conf", rmsprop_conf);
   ("epsilon_train", piecewise);
   ("epsilon_eval", VFloat "0.001")]).

Definition DDQN : Dict := merge dqn_spec (dict
  [("agent", VName "agents.AgentDQN");
   ("model", VName "models.DDQN");
   ("huber_loss", VBool true);
   ("opt_conf", rmsprop_conf);
   ("epsilon_train", piecewise);
   ("epsilon_eval", VFloat "0.001")]).

Definition BstrapDQN : Dict := merge dqn_spec (dict
  [("agent", VName "agents.AgentDQN");
   ("model", VName "models.BstrapDQN");
   ("n_heads", VInt 10);
   ("huber_loss", VBool true);
   ("opt_conf", rmsprop_conf);
   ("epsilon_train", piecewise);
   ("epsilon_eval", VFloat "0.001")]).

Definition C51 : Dict := merge dqn_spec (dict
  [("agent", VName "agents.AgentDQN");
   ("model", VName "models.C51");
   ("V_min", VInt (-10));
   ("V_max", VInt 10);
   ("N", VInt 51);
   ("opt_conf", adam_conf "25e-5");
   ("epsilon_train", piecewise);
   ("epsilon_eval", VFloat "0.001")]).

Definition QRDQN : Dict := merge dqn_spec (dict
  [("agent", VName "agents.AgentDQN");
   ("model", VName "models.QRDQN");
   ("N", VInt 200);
   ("k", VInt 1);
   ("opt_conf", adam_conf "5e-5");
   ("epsilon_train", piecewise);
   ("epsilon_eval", VFloat "0.001")]).

Definition BstrapDQN_UCB : Dict := merge BstrapDQN (dict
  [("n_stds", VFloat "0.1");
   ("target_update_period", VInt 40000)]).

Definition BstrapDQN_Ensemble : Dict := merge [] BstrapDQN.

Definition BstrapDQN_IDS : Dict := merge dqn_spec (dict
  [("agent", VName "agents.AgentDQN");
   ("model", VName "models.BstrapDQN_IDS");
   ("huber_loss", VBool true);
   ("n_heads", VInt 10);
   ("n_stds", VFloat "0.1");
   ("opt_conf", adam_conf "5e-5");
   ("epsilon_train", const_zero);
   ("epsilon_eval", VFloat "0.0");
   ("target_update_period", VInt 40000)]).

Definition BstrapC51_IDS : Dict := merge dqn_spec (dict
  [("agent", VName "agents.AgentDQN");
   ("model", VName "models.BstrapC51_IDS");
   ("huber_loss", VBool true);
   ("n_heads", VInt 10);
   ("n_stds", VFloat "0.1");
   ("V_min", VInt (-10));
   ("V_max", VInt 10);
   ("N", VInt 51);
   ("opt_conf", adam_conf "5e-5");
   ("epsilon_train", const_zero);
   ("epsilon_eval", VFloat "0.0");
   ("target_update_period", VInt 40000)]).

Definition BstrapQRDQN_IDS : Dict := merge dqn_spec (dict
  [("agent", VName "agents.AgentDQN");
   ("model", VName "models.BstrapQRDQN_IDS");
   ("huber_loss", VBool true);
   ("n_heads", VInt 10);
   ("n_stds", VFloat "0.1");
   ("N", VInt 200);
   ("k", VInt 1);
   ("opt_conf", adam_conf "5e-5");
   ("epsilon_train", const_zero);
   ("epsilon_eval", VFloat "0.0");
   ("target_update_period", VInt 40000)]).

Definition BDQN : Dict := merge dqn_spec (dict
  [("agent", VName "agents.AgentBDQN");
   ("model", VName "models.BDQN");
   ("huber_loss", VBool true);
   ("sigma_e", VFloat "1.0");
   ("tau", VFloat "0.01");
   ("opt_conf", adam_conf "5e-5");
   ("epsilon_train", piecewise);
   ("epsilon_eval", VFloat "0.001");
   ("blr_train_period", VInt 10000);
   ("blr_batch_size", VInt 10000)]).

Definition BDQN_IDS : Dict := merge dqn_spec (dict
  [("agent", VName "agents.AgentBDQN");
   ("model", VName "models.BDQN_IDS");
   ("huber_loss", VBool true);
   ("n_stds", VFloat "0.1");
   ("sigma_e", VFloat "1.0");
   ("tau", VFloat "0.01");
   ("opt_conf", adam_conf "5e-5");
   ("epsilon_train", const_zero);
   ("epsilon_eval", VFloat "0.0");
   ("target_update_period", VInt 40000);
   ("blr_train_period", VInt 40000);
   ("blr_batch_size", VInt 40000)]).

Definition BDQN_TS : Dict := merge [] BDQN.
Definition BDQN_UCB : Dict := merge [] BDQN_IDS.

Definition DDPG : Dict := merge [] (dict
  [("agent", VName "agents.AgentDDPG");
   ("model", VName "models.DDPG");
   ("obs_norm", VBool false);
   ("batch_norm", VBool false);
   ("critic_reg", VFloat "0.0");
   ("critic_huber_loss", VBool false);
   ("tau", VFloat "0.001");
   ("batch_size", VInt 64);
   ("gamma", VFloat "0.99");
   ("memory_size", VInt (10 ^ 6));
   ("stack_frames", VInt 3);
   ("actor_opt_conf",
    VArgSpec "OptimizerConf"
      [("opt_type", VName "tf.train.AdamOptimizer"); ("learn_rate", VFloat "1e-4")]);
   ("critic_opt_conf",
    VArgSpec "OptimizerConf"
      [("opt_type", VName "tf.train.AdamOptimizer"); ("learn_rate", VFloat "1e-3")]);
   ("action_noise",
    VLambda "shape" (VTuple [VInt 1])
      (VArgSpec "DecayedExplorationNoise"
         [("noise", VArgSpec "OrnsteinUhlenbeckNoise"
                      [("shape", VVar "shape"); ("mu", VFloat "0.0");
                       ("sigma", VFloat "0.5"); ("theta", VFloat "0.15");
                       ("dt", VFloat "1e-2")]);
          ("decay", VArgSpec "PiecewiseSchedule"
                      [("endpoints", VList [VTuple [VInt 0; VFloat "1.0"];
                                            VTuple [VInt 500000; VFloat "0.0"]]);
                       ("outside_value", VFloat "0.0")])]));
   ("warm_up", VInt 10000);
   ("train_period", VInt 1);
   ("target_update_period", VInt 1);
   ("stop_step", VInt 2500000);
   ("eval_period", VInt 500000);
   ("eval_len", VInt 50000);
   ("log_period", VInt 50000);
   ("video_period", VInt 500);
   ("save_period", VInt 500000);
   ("save_buf", VBool true);
   ("env_kwargs", VArgSpec "dict" [("max_ep_steps_train", VNone);
                                   ("max_ep_steps_eval", VNone);
                                   ("rew_scale", VFloat "1.0")])]).

Definition MODELS : list (string * Dict) :=
  [("DQN", DQN);
   ("DDQN", DDQN);
   ("C51", C51);
   ("QRDQN", QRDQN);
   ("BstrapDQN", BstrapDQN);
   ("BstrapDQN_UCB", BstrapDQN_UCB);
   ("BstrapDQN_Ensemble", BstrapDQN_Ensemble);
   ("BstrapDQN_IDS", BstrapDQN_IDS);
   ("BstrapC51_IDS", BstrapC51_IDS);
   ("BstrapQRDQN_IDS", BstrapQRDQN_IDS);
   ("BDQN", BDQN);
   ("BDQN_TS", BDQN_TS);
   ("BDQN_UCB", BDQN_UCB);
   ("BDQN_IDS", BDQN_IDS);
   ("DDPG", DDPG)].

Fixpoint find_model (l : list (string * Dict)) (k : string) : option Dict :=
  match l with
  | [] => None
  | (k', d) :: r => if String.eqb k' k then Some d else find_model r k
  end.

(** [get_args(model)]: [MODELS[model]] *)
Definition get_args (model : string) : Res Dict :=
  match find_model MODELS model with
  | Some d => Ret d
  | None => Err (KeyError model)
  end.

(** the arguments that set the periods of the loops of an agent *)
Definition periods : list string :=
  ["train_period"; "target_update_period"; "eval_period"; "log_period"; "save_period"].

(** the argument [k] of [d] is an integer above zero *)
Definition positive_int (d : Dict) (k : string) : bool :=
  match get d k with
  | Some (VInt n) => (0 <? n)%Z
  | _ => false
  end.

End Defaults.

(** hooks whose bodies return their own name for a tensor *)
Definition toy_bodies (n : string) (self : Hooks.Self string) (args : list string)
  : option string := Some n.

Unset Implicit Arguments.

(** * Facts *)

(** ** Python primitives *)

Lemma range_empty (a b : Z) : b <= a -> range a b = [].
Proof.
  intros H. unfold range. replace (Z.to_nat (b - a)) with O by lia. reflexivity.
Qed.

Lemma range_snoc (a b : Z) : a <= b -> range a (b + 1) = range a b ++ [b].
Proof.
  intros H. unfold range.
  replace (Z.to_nat (b + 1 - a)) with (S (Z.to_nat (b - a))) by lia.
  rewrite seq_S, map_app. simpl. do 2 f_equal. lia.
Qed.

Lemma range_length (a b : Z) : List.length (range a b) = Z.to_nat (b - a).
Proof. unfold range. now rewrite length_map, length_seq. Qed.

Lemma in_range (a b t : Z) : In t (range a b) <-> a <= t < b.
Proof.
  unfold range. rewrite in_map_iff. split.
  - intros (i & <- & Hi). apply in_seq in Hi. lia.
  - intros H. exists (Z.to_nat (t - a)). split; [lia|]. apply in_seq. lia.
Qed.

Lemma seq_from (k m : nat) : seq k m = map (Nat.add k) (seq 0 m).
Proof.
  revert k. induction m as [|m IH]; intros k; simpl; [reflexivity|].
  f_equal; [lia|]. rewrite <- (seq_shift m 0), map_map, (IH (S k)).
  apply map_ext. intros i. lia.
Qed.

Lemma range_app (a b c : Z) : a <= b <= c -> range a c = range a b ++ range b c.
Proof.
  intros H. unfold range.
  replace (Z.to_nat (c - a)) with (Z.to_nat (b - a) + Z.to_nat (c - b))%nat by lia.
  rewrite seq_app, map_app. f_equal. simpl.
  rewrite seq_from, map_map. apply map_ext. intros i. lia.
Qed.

Lemma divides_some (a b : Z) : b <> 0 -> divides a b = Some (a mod b =? 0).
Proof.
  intros H. unfold divides, py_mod. destruct (Z.eqb_spec b 0); [contradiction|reflexivity].
Qed.

Lemma divides_zero (a : Z) : divides a 0 = None.
Proof. reflexivity. Qed.

Section CoreFacts.

Context {Obs Act Rew Params Replay Feed Summary MonSnap World : Type}.
Context {C : Collab Obs Act Rew Params Replay Feed Summary MonSnap World}.

Local Abbreviation AgentT :=
  (Agent (Params := Params) (Replay := Replay) (Summary := Summary)
         (MonSnap := MonSnap) (World := World)).
Local Abbreviation MT := (M (Params := Params) (Replay := Replay) (Summary := Summary)
                        (MonSnap := MonSnap) (World := World)).
Local Abbreviation CkT := (Checkpoint (Params := Params)).

(** ** Methods and the views they leave alone *)

Section Views.

Context {V : Type} (view : AgentT -> V).

Lemma respects_ret {A} (x : A) : respects (same view) (ret x).
Proof. intros a. reflexivity. Qed.

Lemma respects_raise {A} (e : Exn) : respects (same view) (@raise _ _ _ _ _ A e).
Proof. intros a. reflexivity. Qed.

Lemma respects_get : respects (same view) get.
Proof. intros a. reflexivity. Qed.

Lemma respects_guard (g : option bool) : respects (same view) (guard g).
Proof. intros a. destruct g; reflexivity. Qed.

Lemma respects_modify (f : AgentT -> AgentT) :
  (forall a, view (f a) = view a) -> respects (same view) (modify f).
Proof. intros H a. apply H. Qed.

Lemma respects_call {A} (f : World -> World * A) :
  (forall a w, view (set_world w a) = view a) -> respects (same view) (call f).
Proof. intros H a. unfold call. destruct (f (world a)). apply H. Qed.

Lemma respects_bind {A B} (m : MT A) (k : A -> MT B) :
  respects (same view) m -> (forall x, respects (same view) (k x)) ->
  respects (same view) (bind m k).
Proof.
  intros Hm Hk a. unfold bind. specialize (Hm a).
  destruct (m a) as [a' [x|e]]; simpl in *.
  - unfold same in *. rewrite <- Hm. apply Hk.
  - exact Hm.
Qed.

Lemma respects_for_each {X} (ts : list Z) (body : Z -> X -> MT X) (x : X) :
  (forall t y, respects (same view) (body t y)) ->
  respects (same view) (for_each ts body x).
Proof.
  intros Hb. revert x. induction ts as [|t ts IH]; intros x; simpl.
  - apply respects_ret.
  - apply respects_bind; [apply Hb|]. intros y. apply IH.
Qed.

End Views.

Lemma returns_ret {A} (x : A) : returns (ret x : MT A).
Proof. intros a. now exists x. Qed.

Lemma returns_get : returns (get : MT AgentT).
Proof. intros a. now exists a. Qed.

Lemma returns_modify (f : AgentT -> AgentT) : returns (modify f).
Proof. intros a. now exists tt. Qed.

Lemma returns_call {A} (f : World -> World * A) : returns (call f : MT A).
Proof. intros a. unfold call. destruct (f (world a)) as [w x]. now exists x. Qed.

Lemma returns_guard (b : bool) : returns (guard (Some b) : MT bool).
Proof. intros a. now exists b. Qed.

Lemma returns_bind {A B} (m : MT A) (k : A -> MT B) :
  returns m -> (forall x, returns (k x)) -> returns (bind m k).
Proof.
  intros Hm Hk a. unfold bind. destruct (Hm a) as [x Hx].
  destruct (m a) as [a' r]; simpl in Hx; subst r. apply Hk.
Qed.

Lemma returns_for_each {X} (ts : list Z) (body : Z -> X -> MT X) (x : X) :
  (forall t y, returns (body t y)) -> returns (for_each ts body x).
Proof.
  intros Hb. revert x. induction ts as [|t ts IH]; intros x; simpl.
  - apply returns_ret.
  - apply returns_bind; [apply Hb|]. intros y. apply IH.
Qed.

(** one step of a proof that a method respects a view or returns *)
Ltac method_step :=
  match goal with
  | |- respects _ (if ?b then _ else _) => destruct b
  | |- respects _ (match ?x with _ => _ end) => destruct x
  | |- respects _ (ret _) => apply respects_ret
  | |- respects _ get => apply respects_get
  | |- respects _ (raise _) => apply respects_raise
  | |- respects _ (guard _) => apply respects_guard
  | |- respects _ (bind _ _) => apply respects_bind; [|intros ?]
  | |- respects _ (modify _) => apply respects_modify; intros ?
  | |- respects _ (call _) => apply respects_call; intros ? ?
  | |- respects _ (for_each _ _ _) => apply respects_for_each; intros ? ?
  | |- returns (if ?b then _ else _) => destruct b
  | |- returns (match ?x with _ => _ end) => destruct x
  | |- returns (ret _) => apply returns_ret
  | |- returns get => apply returns_get
  | |- returns (guard (Some _)) => apply returns_guard
  | |- returns (bind _ _) => apply returns_bind; [|intros ?]
  | |- returns (modify _) => apply returns_modify
  | |- returns (call _) => apply returns_call
  | |- returns (for_each _ _ _) => apply returns_for_each; intros ? ?
  end.

(** a view of a record update, event records included *)
Ltac view_eq :=
  unfold control_view, model_view, record, handshake, learning, evals;
  simpl; rewrite ?filter_app; simpl; rewrite ?app_nil_r; reflexivity.

Ltac method := repeat method_step; try view_eq.

Lemma reset_control : respects (same control_view) reset.
Proof. unfold reset. method. Qed.

Lemma reset_model : respects (same model_view) reset.
Proof. unfold reset. method. Qed.

Lemma reset_returns : returns reset.
Proof. unfold reset. method. Qed.

Lemma save_control : respects (same control_view) save.
Proof. unfold save. method. Qed.

Lemma save_returns : returns save.
Proof. unfold save. method. Qed.

Lemma log_stats_control cfg t : respects (same control_view) (_log_stats cfg t).
Proof. unfold _log_stats. method. Qed.

Lemma eval_body_control cfg t obs : respects (same control_view) (eval_body cfg t obs).
Proof. unfold eval_body. method; apply reset_control. Qed.

Lemma eval_control cfg : respects (same control_view) (eval cfg).
Proof. unfold eval. method. apply eval_body_control. Qed.

Lemma eval_body_model cfg t obs : respects (same model_view) (eval_body cfg t obs).
Proof. unfold eval_body. method; apply reset_model. Qed.

Lemma eval_model cfg : respects (same model_view) (eval cfg).
Proof. unfold eval. method. apply eval_body_model. Qed.

(** ** [eval()] *)

Lemma after_modify {A V} (view : AgentT -> V) (f : AgentT -> AgentT)
      (k : unit -> MT A) (a : AgentT) :
  respects (same view) (k tt) -> view (fst (bind (modify f) k a)) = view (f a).
Proof. intros H. unfold bind, modify. apply H. Qed.

Lemma modify_bind {A} (f : AgentT -> AgentT) (k : unit -> MT A) (a : AgentT) :
  bind (modify f) k a = k tt (f a).
Proof. reflexivity. Qed.

Lemma reset_trace : respects (same trace) reset.
Proof. unfold reset. method. Qed.

Lemma reset_mode : respects (same mon_mode) reset.
Proof. unfold reset. method. Qed.

Lemma reset_runs : respects (same eval_runs) reset.
Proof. unfold reset. method. Qed.

Lemma eval_body_mode cfg t obs : respects (same mon_mode) (eval_body cfg t obs).
Proof. unfold eval_body. method; apply reset_mode. Qed.

Lemma eval_body_runs cfg t obs : respects (same eval_runs) (eval_body cfg t obs).
Proof. unfold eval_body. method; apply reset_runs. Qed.

Lemma eval_body_trace cfg t obs a :
  trace (fst (eval_body cfg t obs a)) = trace a ++ [EvalStep t (mon_mode a)].
Proof.
  unfold eval_body. rewrite (after_modify trace); [reflexivity|].
  method; apply reset_trace.
Qed.

Lemma eval_body_returns cfg t obs :
  log_freq cfg <> 0 -> returns (eval_body cfg t obs).
Proof.
  intros H. unfold eval_body. rewrite (divides_some t _ H).
  method; apply reset_returns.
Qed.

Lemma eval_loop cfg ts : forall obs a,
  mon_mode a = EvalMode ->
  mon_mode (fst (for_each ts (eval_body cfg) obs a)) = EvalMode /\
  (forall x, snd (for_each ts (eval_body cfg) obs a) = Ret x ->
     trace (fst (for_each ts (eval_body cfg) obs a)) =
       trace a ++ map (fun t => EvalStep t EvalMode) ts).
Proof.
  induction ts as [|t ts IH]; intros obs a Hm; simpl.
  - split; [exact Hm|]. intros _ _. now rewrite app_nil_r.
  - unfold bind.
    pose proof (eval_body_trace cfg t obs a) as Ht.
    pose proof (eval_body_mode cfg t obs a) as Hm'. unfold same in Hm'.
    destruct (eval_body cfg t obs a) as [a1 [o1|e]]; simpl in *.
    + destruct (IH o1 a1) as [IH1 IH2]; [congruence|].
      split; [exact IH1|]. intros x Hx. rewrite (IH2 x Hx), Ht, Hm, <- app_assoc.
      reflexivity.
    + split; [congruence|]. intros x Hx. discriminate.
Qed.

Lemma eval_unfold cfg (a : AgentT) :
  eval cfg a =
    let a1 := record (EvalStart (eval_runs a + 1))
                (set_eval_runs (eval_runs a + 1) (set_mon_mode EvalMode a)) in
    let (w, obs) := env_reset (world a1) in
    match for_each (eval_range cfg (eval_runs a + 1)) (eval_body cfg) obs (set_world w a1) with
    | (a2, Ret _) => (set_mon_mode TrainMode a2, Ret tt)
    | (a2, Err e) => (a2, Err e)
    end.
Proof.
  unfold eval, bind, modify, get, call, eval_range. simpl.
  destruct (env_reset (world a)) as [w obs]. reflexivity.
Qed.

Lemma eval_spec cfg (a : AgentT) :
  eval_runs (fst (eval cfg a)) = eval_runs a + 1 /\
  (log_freq cfg <> 0 ->
   snd (eval cfg a) = Ret tt /\
   mon_mode (fst (eval cfg a)) = TrainMode /\
   trace (fst (eval cfg a)) =
     trace a ++ EvalStart (eval_runs a + 1)
       :: map (fun t => EvalStep t EvalMode) (eval_range cfg (eval_runs a + 1))).
Proof.
  rewrite eval_unfold. simpl. destruct (env_reset (world a)) as [w obs].
  match goal with
  | |- context [for_each ?ts ?body ?x ?st] =>
      destruct (eval_loop cfg ts x st eq_refl) as [Hm Ht];
      pose proof (@respects_for_each _ eval_runs _ ts body x
                    (fun t y => eval_body_runs cfg t y) st) as Hr;
      pose proof (fun Hlog => @returns_for_each _ ts body x
                    (fun t y => @eval_body_returns cfg t y Hlog) st) as Ho;
      destruct (for_each ts body x st) as [a2 r]
  end.
  unfold same in Hr. simpl in *. split.
  - destruct r; simpl; exact Hr.
  - intros Hlog. destruct (Ho Hlog) as [o ->]. simpl. repeat split.
    rewrite (Ht o eq_refl), <- app_assoc. reflexivity.
Qed.

Lemma skipn_app_length {A} (l l' : list A) : skipn (List.length l) (l ++ l') = l'.
Proof. induction l; simpl; auto. Qed.

Lemma eval_steps_of_steps (ts : list Z) (m : Mode) :
  eval_steps (map (fun t => EvalStep t m) ts) = ts.
Proof. induction ts; simpl; congruence. Qed.

Lemma events_of_call_spec cfg (a : AgentT) :
  log_freq cfg <> 0 ->
  events_of_call cfg a =
    EvalStart (eval_runs a + 1)
      :: map (fun t => EvalStep t EvalMode) (eval_range cfg (eval_runs a + 1)).
Proof.
  intros Hlog. unfold events_of_call.
  destruct (eval_spec cfg a) as [_ H]. destruct (H Hlog) as (_ & _ & ->).
  apply skipn_app_length.
Qed.

Lemma steps_of_call_spec cfg (a : AgentT) :
  log_freq cfg <> 0 -> steps_of_call cfg a = eval_range cfg (eval_runs a + 1).
Proof.
  intros Hlog. unfold steps_of_call. rewrite (events_of_call_spec cfg a Hlog).
  simpl. apply eval_steps_of_steps.
Qed.

Lemma after_evals_runs cfg n (a : AgentT) :
  eval_runs (after_evals cfg n a) = eval_runs a + Z.of_nat n.
Proof.
  induction n as [|n IH].
  - simpl. lia.
  - unfold after_evals in *. rewrite Nat.iter_succ.
    destruct (eval_spec cfg (Nat.iter n (fun a => fst (eval cfg a)) a)) as [-> _].
    rewrite IH. lia.
Qed.

(** C6. With [log_freq <> 0], so that no call is cut short by the
    [ZeroDivisionError] of [t % self.log_freq], evaluation run [r], counted
    from 0 with the run counter starting at -1, iterates over the steps
    [eval_len*r + 1, ..., eval_len*r + eval_len] in order; the steps of two
    consecutive runs, put end to end, are one range without a gap or a
    repetition. *)
Theorem eval_run_covers cfg (a0 : AgentT) (r : nat) :
  log_freq cfg <> 0 ->
  eval_runs a0 = -1 ->
  let len := eval_len cfg in
  let r' := Z.of_nat r in
  steps_of_call cfg (after_evals cfg r a0) = range (len * r' + 1) (len * r' + len + 1) /\
  (forall t, In t (steps_of_call cfg (after_evals cfg r a0)) <->
             len * r' + 1 <= t <= len * r' + len) /\
  steps_of_call cfg (after_evals cfg r a0) ++ steps_of_call cfg (after_evals cfg (S r) a0)
    = range (len * r' + 1) (len * (r' + 2) + 1).
Proof.
  intros Hlog H0 len r'.
  assert (Hr : forall n, steps_of_call cfg (after_evals cfg n a0)
                         = range (len * Z.of_nat n + 1) (len * Z.of_nat n + len + 1)).
  { intros n. rewrite (steps_of_call_spec cfg _ Hlog), after_evals_runs, H0.
    unfold eval_range. fold len. f_equal; lia. }
  split; [apply Hr|]. split.
  - intros t. rewrite Hr, in_range. lia.
  - rewrite !Hr. fold r'. replace (Z.of_nat (S r)) with (r' + 1) by lia.
    destruct (Z_le_gt_dec 0 len) as [Hl|Hl].
    + rewrite (range_app (len * r' + 1) (len * r' + len + 1) (len * (r' + 2) + 1)) by lia.
      f_equal. f_equal; lia.
    + rewrite !range_empty by lia. reflexivity.
Qed.

(** C8. [eval()] leaves the parameters, their target copy and the replay
    buffer as they were, and with them the step counter, the control flags,
    the summary, the graph, the checkpoints and monitor statistics of the
    model directory and the two signals; it adds one to the run counter.
    With [log_freq <> 0] it returns, every step of its loop has run with
    the monitor in evaluation mode, and the monitor is back in training
    mode.  (With [log_freq = 0] and a loop to run it raises instead and
    leaves the monitor in evaluation mode.) *)
Theorem eval_frame cfg (a : AgentT) :
  params (fst (eval cfg a)) = params a /\
  target (fst (eval cfg a)) = target a /\
  replay_buf (fst (eval cfg a)) = replay_buf a /\
  model_view (fst (eval cfg a)) = model_view a /\
  eval_runs (fst (eval cfg a)) = eval_runs a + 1 /\
  (log_freq cfg <> 0 ->
   snd (eval cfg a) = Ret tt /\
   mon_mode (fst (eval cfg a)) = TrainMode /\
   List.length (eval_steps (events_of_call cfg a)) = List.length (eval_range cfg (eval_runs a + 1)) /\
   forall t m, In (EvalStep t m) (events_of_call cfg a) -> m = EvalMode).
Proof.
  pose proof (eval_model cfg a) as Hv. unfold same in Hv.
  assert (Hv' := Hv). unfold model_view in Hv'. injection Hv' as Hp Ht Hr _ _.
  clear - Hv Hp Ht Hr.
  destruct (eval_spec cfg a) as [Hruns Hret].
  do 5 (split; [assumption|]). intros Hlog.
  split; [apply (Hret Hlog)|]. split; [apply (Hret Hlog)|]. split.
  - fold (steps_of_call cfg a). now rewrite (steps_of_call_spec cfg a Hlog).
  - intros t m Hin. rewrite (events_of_call_spec cfg a Hlog) in Hin.
    destruct Hin as [Hin|Hin]; [discriminate|].
    apply in_map_iff in Hin. destruct Hin as (t' & Heq & _). congruence.
Qed.

(** what writing a checkpoint leaves in the directory *)
Lemma put_spec (cks : list CkT) (k : nat) (ck : CkT) :
  let other c := negb (same_file ck c) in
  put (cks, k) ck =
    (ck :: firstn (max_to_keep - 1) (filter other (firstn k cks))
        ++ filter other (skipn k cks),
     S (List.length (firstn (max_to_keep - 1) (filter other (firstn k cks))))).
Proof. reflexivity. Qed.

Lemma put_in (st : list CkT * nat) (ck c : CkT) :
  In c (fst (put st ck)) -> c = ck \/ (In c (fst st) /\ same_file ck c = false).
Proof.
  destruct st as [cks k]. rewrite put_spec. cbn [fst]. intros [H|H]; [now left|right].
  assert (Hf : In c (filter (fun c => negb (same_file ck c)) cks)).
  { rewrite <- (firstn_skipn k cks), filter_app. apply in_app_iff.
    apply in_app_or in H. destruct H as [H|H]; [left|now right].
    revert H. generalize (max_to_keep - 1)%nat.
    induction (filter (fun c => negb (same_file ck c)) (firstn k cks)) as [|x l IH];
      intros [|n]; simpl; try tauto.
    intros [H|H]; [now left|right; eauto]. }
  apply filter_In in Hf. destruct Hf as [Hin Hs]. split; [exact Hin|].
  now destruct (same_file ck c).
Qed.

Lemma put_kept (st : list CkT * nat) (ck : CkT) :
  (1 <= snd (put st ck) <= max_to_keep)%nat /\
  (snd (put st ck) <= List.length (fst (put st ck)))%nat.
Proof.
  destruct st as [cks k]. rewrite put_spec. cbn [fst snd].
  pose proof (firstn_le_length (max_to_keep - 1)
                (filter (fun c => negb (same_file ck c)) (firstn k cks))) as H.
  cbn [List.length]. rewrite length_app.
  set (n := List.length _) in *. unfold max_to_keep in *. lia.
Qed.

Lemma save_started (a : AgentT) :
  learn_started a = true ->
  save a =
    (let st := put (checkpoints (disk a), saver a)
                   (mkCheckpoint (graph a) (params a) (target a) (t_tf a) (t_tf a)) in
     set_saver (snd st)
       (set_disk (mkDisk (fst st) (monitor_snapshot (world a) :: monitor_saves (disk a)))
          a),
     Ret tt).
Proof. unfold save, bind, get, modify. intros ->. reflexivity. Qed.

Lemma save_not_started (a : AgentT) : learn_started a = false -> save a = (a, Ret tt).
Proof. unfold save, bind, get, ret. intros ->. reflexivity. Qed.

(** C9. [save()] does nothing while learning has not started; once it has,
    one call writes the monitor's statistics and a checkpoint holding the
    parameters, the target copy and the step counter, which is then the
    newest of the directory, and changes nothing else of the agent.  Of
    the checkpoints that were there it keeps what the saver, made with
    [max_to_keep=2], does not delete and the new one does not overwrite. *)
Theorem save_spec (a : AgentT) :
  (learn_started a = false -> save a = (a, Ret tt)) /\
  (learn_started a = true ->
   let ck := mkCheckpoint (graph a) (params a) (target a) (t_tf a) (t_tf a) in
   let st := put (checkpoints (disk a), saver a) ck in
   save a =
     (set_saver (snd st)
        (set_disk (mkDisk (fst st) (monitor_snapshot (world a) :: monitor_saves (disk a)))
           a),
      Ret tt) /\
   (exists rest, fst st = ck :: rest /\
      forall c, In c rest -> In c (checkpoints (disk a)) /\ ck_global_step c <> t_tf a) /\
   (1 <= snd st <= max_to_keep)%nat).
Proof.
  split; [apply save_not_started|]. intros Hl ck st. split; [|split].
  - now rewrite save_started.
  - pose proof (put_in (checkpoints (disk a), saver a) ck) as Hin. fold st in Hin.
    unfold st in *. rewrite put_spec in *. cbn [fst] in *. eexists. split; [reflexivity|].
    intros c Hc. destruct (Hin c (or_intror Hc)) as [->|[H1 H2]].
    + exfalso. apply in_app_or in Hc.
      assert (Hs : same_file ck ck = true) by (unfold same_file; apply Z.eqb_refl).
      assert (Hno : forall l, ~ In ck (filter (fun c => negb (same_file ck c)) l)).
      { intros l H. apply filter_In in H. rewrite Hs in H. now destruct H. }
      destruct Hc as [Hc|Hc]; [|now apply Hno in Hc].
      revert Hc. generalize (max_to_keep - 1)%nat. intros n Hc.
      assert (Hsub : forall (l : list CkT) n x, In x (firstn n l) -> In x l).
      { induction l as [|y l IH]; intros [|m] x; simpl; try tauto.
        intros [H|H]; [now left|right; eauto]. }
      apply Hsub in Hc. now apply Hno in Hc.
    + split; [exact H1|]. unfold same_file in H2. simpl in H2.
      intros He. rewrite He, Z.eqb_refl in H2. discriminate.
  - apply (put_kept (checkpoints (disk a), saver a) ck).
Qed.

(** ** The two threads *)

Local Abbreviation SysT :=
  (Sys (Obs := Obs) (Act := Act) (Rew := Rew) (Params := Params) (Replay := Replay)
       (Feed := Feed) (Summary := Summary) (MonSnap := MonSnap) (World := World)).

Lemma quiet_of_same (a a' : AgentT) : same quiet_view a a' -> quiet a a'.
Proof.
  unfold same, quiet_view, quiet. intros H.
  split; [exact (f_equal fst H) | exact (f_equal snd H)].
Qed.

Lemma quiet_refl (a : AgentT) : quiet a a.
Proof. split; reflexivity. Qed.

Ltac quiet_eq :=
  unfold quiet_view, eval_view, control_view, record, handshake, learning, evals;
  simpl; rewrite ?filter_app; simpl; rewrite ?app_nil_r; reflexivity.

Ltac quiet_method := repeat method_step; try quiet_eq.

Lemma reset_quiet : respects (same quiet_view) reset.
Proof. unfold reset. quiet_method. Qed.

Lemma save_quiet : respects (same quiet_view) save.
Proof. unfold save. quiet_method. Qed.

Lemma log_stats_quiet cfg t : respects (same quiet_view) (_log_stats cfg t).
Proof. unfold _log_stats. quiet_method. Qed.

Lemma log_stats_returns cfg t : log_freq cfg <> 0 -> returns (_log_stats cfg t).
Proof.
  intros H. unfold _log_stats. apply returns_bind; [apply returns_get|]. intros a.
  unfold log_due. rewrite (divides_some t _ H).
  destruct (t mod log_freq cfg =? 0); repeat method_step.
Qed.

Lemma save_due_some cfg t : exists b, save_due cfg t = Some b.
Proof.
  unfold save_due. destruct (Z.ltb_spec 0 (save_freq cfg)); [|now exists false].
  rewrite divides_some by lia. eauto.
Qed.

(** a method run by the environment thread *)
Lemma env_do_effect {X V} (view : AgentT -> V) (s : SysT) (m : MT X) (k : X -> EnvPc) :
  respects (same view) m ->
  view (agent (env_do s m k)) = view (agent s) /\
  nn_status (env_do s m k) = nn_status s /\
  nn_pc (env_do s m k) = nn_pc s /\
  ((exists x, snd (m (agent s)) = Ret x /\
              env_status (env_do s m k) = Running /\ env_pc (env_do s m k) = k x) \/
   (exists e, snd (m (agent s)) = Err e /\
              env_status (env_do s m k) = Raised e /\ env_pc (env_do s m k) = env_pc s)).
Proof.
  intros H. specialize (H (agent s)). unfold same in H. unfold env_do.
  destruct (m (agent s)) as [a' [x|e]]; simpl in *; repeat split; eauto.
Qed.

Lemma nn_do_effect {X V} (view : AgentT -> V) (s : SysT) (m : MT X) (k : X -> NnPc) :
  respects (same view) m ->
  view (agent (nn_do s m k)) = view (agent s) /\
  env_status (nn_do s m k) = env_status s /\
  env_pc (nn_do s m k) = env_pc s /\
  ((exists x, snd (m (agent s)) = Ret x /\
              nn_status (nn_do s m k) = Running /\ nn_pc (nn_do s m k) = k x) \/
   (exists e, snd (m (agent s)) = Err e /\
              nn_status (nn_do s m k) = Raised e /\ nn_pc (nn_do s m k) = nn_pc s)).
Proof.
  intros H. specialize (H (agent s)). unfold same in H. unfold nn_do.
  destruct (m (agent s)) as [a' [x|e]]; simpl in *; repeat split; eauto.
Qed.

(** the effect of a quiet method of the environment thread: it returns
    and the thread goes on, or it raises *)
Ltac env_quiet :=
  match goal with
  | |- context [env_do ?s ?m ?k] =>
      let Hq := fresh "Hq" in
      let Hv := fresh "Hv" in
      assert (Hq : respects (same quiet_view) m);
      [ | destruct (env_do_effect quiet_view s m k Hq)
            as (Hv & ? & ? & [(? & ? & ? & ?)|(? & ? & ? & ?)]);
          apply quiet_of_same in Hv; clear Hq ]
  end.

Ltac nn_quiet :=
  match goal with
  | |- context [nn_do ?s ?m ?k] =>
      let Hq := fresh "Hq" in
      let Hv := fresh "Hv" in
      assert (Hq : respects (same quiet_view) m);
      [ | destruct (nn_do_effect quiet_view s m k Hq)
            as (Hv & ? & ? & [(? & ? & ? & ?)|(? & ? & ? & ?)]);
          apply quiet_of_same in Hv; clear Hq ]
  end.

(** the method at hand returns, so it has not raised *)
Ltac not_raised :=
  match goal with
  | H : snd (?m ?a) = Err _ |- _ =>
      let R := fresh "R" in
      let x := fresh "x" in
      assert (R : returns m); [ | destruct (R a) as [x ?]; congruence ]
  end.

Lemma run_env_effect cfg (s s' : SysT) : _run_env cfg s = Some s' -> env_effect cfg s s'.
Proof.
  unfold _run_env, env_effect. intros H.
  destruct (env_status s) eqn:Hst; try discriminate.
  split; [reflexivity|].
  destruct (env_pc s) eqn:Hpc.
  - (* E_start *)
    injection H as <-. env_quiet; [apply reset_quiet| |].
    + eauto 10.
    + not_raised. apply reset_returns.
  - (* E_head *)
    destruct (t <=? stop_step cfg); injection H as <-; simpl; auto 10.
  - (* E_wait_test *)
    destruct (train_done (agent s)); injection H as <-; simpl; auto 10.
  - (* E_wait_block *)
    destruct (train_done (agent s)); [|discriminate]. injection H as <-; simpl; auto 10.
  - (* E_wait_clear *)
    injection H as <-. simpl. auto 10.
  - (* E_eval *)
    injection H as <-. unfold env_do, bind, guard.
    destruct (eval_due cfg t) as [[|]|]; simpl; [|auto 7|eauto 10].
    destruct (eval_spec cfg (agent s)) as [_ He].
    destruct (eval cfg (agent s)) as [a' [x|e]]; simpl in *; auto 7.
    do 3 (split; [reflexivity|]). right. split; [|eauto].
    destruct (Z.eq_dec (log_freq cfg) 0) as [|Hne]; [assumption|].
    destruct (He Hne) as [? _]. discriminate.
  - (* E_act *)
    injection H as <-. env_quiet; [quiet_method| |].
    + eauto 10.
    + not_raised. repeat method_step.
  - (* E_signal *)
    injection H as <-. simpl. auto 10.
  - (* E_inc *)
    injection H as <-. simpl. repeat split.
  - (* E_step *)
    injection H as <-. env_quiet; [quiet_method| |].
    + destruct x as [[next_obs reward] done]. eauto 12.
    + not_raised. repeat method_step.
  - (* E_store *)
    injection H as <-. simpl. repeat split; quiet_eq.
  - (* E_next *)
    injection H as <-. env_quiet; [quiet_method; apply reset_quiet| |].
    + eauto 10.
    + not_raised. repeat method_step. apply reset_returns.
  - (* E_log *)
    injection H as <-. env_quiet; [apply log_stats_quiet| |].
    + auto 10.
    + do 3 (split; [assumption|]). right. split; [|split; [eauto|congruence]].
      destruct (Z.eq_dec (log_freq cfg) 0) as [|Hne]; [assumption|].
      not_raised. now apply log_stats_returns.
Qed.

Lemma train_model_effect cfg (s s' : SysT) :
  _train_model cfg s = Some s' -> nn_effect cfg s s'.
Proof.
  unfold _train_model, nn_effect. intros H.
  destruct (nn_status s) eqn:Hst; try discriminate.
  split; [reflexivity|].
  destruct (nn_pc s) eqn:Hpc.
  - (* N_head *)
    destruct (t <=? stop_step cfg); injection H as <-; simpl; auto 10.
  - (* N_cond *)
    injection H as <-. unfold nn_do, guard.
    destruct (train_due cfg t) as [[|]|]; simpl; eauto 10.
  - (* N_mark *)
    injection H as <-. simpl. repeat split.
  - (* N_feed *)
    injection H as <-. nn_quiet; [quiet_method| |].
    + eauto 10.
    + not_raised. repeat method_step.
  - (* N_wait_test *)
    destruct (act_chosen (agent s)); injection H as <-; simpl; auto 10.
  - (* N_wait_block *)
    destruct (act_chosen (agent s)); [|discriminate]. injection H as <-; simpl; auto 10.
  - (* N_wait_clear *)
    injection H as <-. simpl. auto 10.
  - (* N_run *)
    destruct (run_train_op (params (agent s)) (target (agent s)) feed) as [p sm].
    injection H as <-. simpl. eauto 10.
  - (* N_target *)
    injection H as <-. unfold nn_do, bind, guard.
    destruct (target_due cfg t) as [[|]|]; simpl; eauto 10.
  - (* N_save *)
    injection H as <-. destruct (save_due_some cfg t) as [b Hb]. rewrite Hb.
    nn_quiet; [quiet_method; apply save_quiet| |].
    + auto.
    + not_raised. repeat method_step. apply save_returns.
  - (* N_signal *)
    injection H as <-. simpl. auto 10.
Qed.

(** ** The handshake *)

Lemma phase_some te em tn nm j :
  phase te em tn nm = Some j <->
  (j = 0%nat /\ te = tn /\ em = false /\ nm = false) \/
  (j = 1%nat /\ te = tn /\ em = true /\ nm = false) \/
  (j = 2%nat /\ te = tn + 1 /\ em = false /\ nm = false) \/
  (j = 3%nat /\ te = tn + 1 /\ em = false /\ nm = true).
Proof.
  unfold phase.
  destruct nm, em; simpl;
    destruct (Z.eqb_spec te tn); destruct (Z.eqb_spec te (tn + 1)); simpl;
    split; intros H;
    repeat match goal with
           | H : _ \/ _ |- _ => destruct H
           | H : _ /\ _ |- _ => destruct H
           | H : Some _ = Some _ |- _ => injection H as <-
           end;
    try discriminate; try lia; try (subst; reflexivity);
    intuition (auto; lia).
Qed.

Lemma handshake_record (e : Event) (a : AgentT) :
  handshake (trace (record e a)) =
  handshake (trace a) ++ (if is_handshake e then [e] else []).
Proof. unfold handshake, record. simpl. now rewrite filter_app; simpl; destruct (is_handshake e). Qed.

Lemma handshake_upto_next start t (j : nat) :
  (j < 3)%nat ->
  handshake_upto start t (S j) = handshake_upto start t j ++ [nth j (round t) (TrainStep 0)].
Proof.
  intros Hj. unfold handshake_upto.
  destruct j as [|[|[|j]]]; try lia; simpl; rewrite <- ?app_assoc; reflexivity.
Qed.

Lemma handshake_upto_wrap start t :
  start <= t ->
  handshake_upto start (t + 1) 0 = handshake_upto start t 3 ++ [Signalled TrainDone (t + 1)].
Proof.
  intros H. unfold handshake_upto.
  rewrite range_snoc, flat_map_app by assumption. simpl.
  rewrite !app_nil_r, <- !app_assoc. reflexivity.
Qed.

Lemma handshake_upto_run start stop :
  handshake_upto start (Z.max start (stop + 1)) 0 = handshake_of_run start stop.
Proof.
  unfold handshake_upto, handshake_of_run. simpl. rewrite app_nil_r.
  destruct (Z.max_spec start (stop + 1)) as [[H ->]|[H ->]]; [reflexivity|].
  now rewrite !range_empty by lia.
Qed.

(** break the description of a move into its facts *)
Ltac open_effect :=
  repeat match goal with
         | H : _ /\ _ |- _ => destruct H
         | H : exists _, _ |- _ => destruct H
         | H : _ \/ _ |- _ => destruct H
         | H : quiet _ _ |- _ =>
             let Hc := fresh "Hc" in
             let He := fresh "He" in
             destruct H as [Hc He]; unfold control_view in Hc;
             unfold eval_view in He; injection Hc as ? ? ? ? ?; injection He as ? ?
         | H : (if ?b then _ else _) |- _ => destruct b eqn:?
         | H : match ?x with _ => _ end |- _ => destruct x eqn:?
         end.

Lemma learning_record (e : Event) (a : AgentT) :
  learning (trace (record e a)) =
  learning (trace a) ++ (if is_learning e then [e] else []).
Proof. unfold learning, record. simpl. now rewrite filter_app; simpl; destruct (is_learning e). Qed.

(** rewrite the agent of the new state by what the move says of it *)
Ltac new_agent :=
  try match goal with
      | H : agent _ = fst (eval ?cfg ?a) |- _ =>
          let Hv := fresh "Hv" in
          pose proof (eval_control cfg a) as Hv; unfold same, control_view in Hv;
          injection Hv as ? ? ? ? ?; rewrite H
      | H : agent _ = _ |- _ => rewrite H
      end;
  rewrite ?handshake_record, ?learning_record; simpl; rewrite ?app_nil_r.

(** what a move of the environment thread does to the flags and to the
    recorded handshake *)
Lemma env_effect_control cfg (s s' : SysT) :
  env_effect cfg s s' ->
  start_step (agent s') = start_step (agent s) /\
  learning (trace (agent s')) = learning (trace (agent s)) /\
  match env_pc s with
  | E_wait_clear t _ =>
      handshake (trace (agent s')) = handshake (trace (agent s)) ++ [Observed TrainDone t] /\
      train_done (agent s') = false /\ act_chosen (agent s') = act_chosen (agent s)
  | E_signal t _ _ =>
      handshake (trace (agent s')) = handshake (trace (agent s)) ++ [Signalled ActChosen t] /\
      train_done (agent s') = train_done (agent s) /\ act_chosen (agent s') = true
  | _ =>
      handshake (trace (agent s')) = handshake (trace (agent s)) /\
      train_done (agent s') = train_done (agent s) /\
      act_chosen (agent s') = act_chosen (agent s)
  end.
Proof.
  intros (Hst & Hns & Hnpc & Hc). cbv zeta in Hc.
  destruct (env_pc s) eqn:Hpc; open_effect; new_agent; repeat split; congruence.
Qed.

Lemma nn_effect_control cfg (s s' : SysT) :
  nn_effect cfg s s' ->
  start_step (agent s') = start_step (agent s) /\
  match nn_pc s with
  | N_wait_clear t _ =>
      handshake (trace (agent s')) = handshake (trace (agent s)) ++ [Observed ActChosen t] /\
      train_done (agent s') = train_done (agent s) /\ act_chosen (agent s') = false
  | N_signal t =>
      handshake (trace (agent s')) =
        handshake (trace (agent s)) ++ [Signalled TrainDone (t + 1)] /\
      train_done (agent s') = true /\ act_chosen (agent s') = act_chosen (agent s)
  | _ =>
      handshake (trace (agent s')) = handshake (trace (agent s)) /\
      train_done (agent s') = train_done (agent s) /\
      act_chosen (agent s') = act_chosen (agent s)
  end.
Proof.
  intros (Hst & Hns & Hnpc & Hc). cbv zeta in Hc.
  destruct (nn_pc s) eqn:Hpc; open_effect; new_agent; repeat split; congruence.
Qed.

Arguments phase : simpl never.

(** close a goal of the handshake invariant at phase [j] *)
Ltac at_phase j :=
  exists j; split;
  [ apply phase_some; simpl; intuition (try lia; try congruence)
  | simpl; repeat split; try congruence;
    try (rewrite handshake_upto_next by lia; cbn [nth round]; congruence);
    try (rewrite handshake_upto_wrap by lia; congruence);
    unfold waiter_saw_flag in *;
    repeat match goal with H : _ /\ _ |- _ => destruct H end;
    try (destruct (nn_pc _); simpl in *; try exact I; congruence);
    try (destruct (env_pc _); simpl in *; try exact I; congruence) ].

Ltac any_phase :=
  first [ solve [at_phase 0%nat] | solve [at_phase 1%nat]
        | solve [at_phase 2%nat] | solve [at_phase 3%nat] ].

Lemma env_effect_handshake cfg start (s s' : SysT) :
  handshake_inv start s -> env_effect cfg s s' -> handshake_inv start s'.
Proof.
  intros (Hs & j & Hph & Htd & Hac & Htr & Hw) He.
  pose proof (env_effect_control cfg s s' He) as (Hs' & _ & Hctl).
  destruct He as (Hst & Hns & Hnpc & Hc). cbv zeta in Hc.
  apply phase_some in Hph.
  unfold handshake_inv, waiter_saw_flag. rewrite Hnpc. split; [congruence|].
  assert (Hw' := Hw). unfold waiter_saw_flag in Hw'.
  destruct (env_pc s) eqn:Hpc; simpl in Hph; open_effect; subst j;
    try discriminate;
    repeat match goal with H : env_pc s' = _ |- _ => rewrite H; clear H end;
    repeat match goal with |- context [if ?b then _ else _] => destruct b eqn:? end;
    simpl in *; any_phase.
Qed.

Lemma nn_effect_handshake cfg start (s s' : SysT) :
  handshake_inv start s -> nn_in_range cfg s -> nn_effect cfg s s' ->
  handshake_inv start s'.
Proof.
  intros (Hs & j & Hph & Htd & Hac & Htr & Hw) Hr He.
  pose proof (nn_effect_control cfg s s' He) as (Hs' & Hctl).
  destruct He as (Hst & Hns & Hnpc & Hc). cbv zeta in Hc.
  apply phase_some in Hph.
  unfold handshake_inv, waiter_saw_flag. rewrite Hnpc. split; [congruence|].
  unfold nn_in_range in Hr.
  assert (Hw' := Hw). unfold waiter_saw_flag in Hw'.
  destruct (nn_pc s) eqn:Hpc; simpl in Hph; open_effect; subst j;
    try discriminate;
    repeat match goal with H : nn_pc s' = _ |- _ => rewrite H; clear H end;
    repeat match goal with |- context [if ?b then _ else _] => destruct b eqn:? end;
    repeat match goal with |- context [match ?f with Some _ => _ | None => _ end] =>
                             destruct f end;
    simpl in *; any_phase.
Qed.

(** ** The ranges of the two loops *)

Ltac range_facts :=
  repeat match goal with
         | H : (_ <=? _) = true |- _ => apply Z.leb_le in H
         | H : (_ <=? _) = false |- _ => apply Z.leb_gt in H
         end.

Lemma env_effect_env_range cfg (s s' : SysT) :
  env_in_range cfg s -> env_effect cfg s s' -> env_in_range cfg s'.
Proof.
  intros Hr He.
  pose proof (env_effect_control cfg s s' He) as (Hs' & _).
  destruct He as (Hst & Hns & Hnpc & Hc). cbv zeta in Hc.
  unfold env_in_range in *.
  destruct (env_pc s) eqn:Hpc; open_effect; range_facts;
    repeat match goal with H : env_pc s' = _ |- _ => rewrite H; clear H end;
    repeat match goal with |- context [if ?b then _ else _] => destruct b eqn:? end;
    rewrite ?Hs'; repeat split; try lia; try congruence; auto.
Qed.

Lemma nn_effect_env_range cfg (s s' : SysT) :
  env_in_range cfg s -> nn_effect cfg s s' -> env_in_range cfg s'.
Proof.
  intros Hr He.
  pose proof (nn_effect_control cfg s s' He) as (Hs' & _).
  destruct He as (Hst & Hns & Hnpc & _).
  unfold env_in_range in *. rewrite Hnpc, Hns, Hs'. exact Hr.
Qed.

Lemma nn_effect_nn_range cfg (s s' : SysT) :
  nn_in_range cfg s -> nn_effect cfg s s' -> nn_in_range cfg s'.
Proof.
  intros Hr He.
  pose proof (nn_effect_control cfg s s' He) as (Hs' & _).
  destruct He as (Hst & Hns & Hnpc & Hc). cbv zeta in Hc.
  unfold nn_in_range in *.
  destruct (nn_pc s) eqn:Hpc; open_effect; range_facts;
    repeat match goal with H : nn_pc s' = _ |- _ => rewrite H; clear H end;
    repeat match goal with |- context [if ?b then _ else _] => destruct b eqn:? end;
    repeat match goal with |- context [match ?f with Some _ => _ | None => _ end] =>
                             destruct f end;
    rewrite ?Hs'; repeat split; try lia; try congruence; auto.
Qed.

Lemma env_effect_nn_range cfg (s s' : SysT) :
  nn_in_range cfg s -> env_effect cfg s s' -> nn_in_range cfg s'.
Proof.
  intros Hr He.
  pose proof (env_effect_control cfg s s' He) as (Hs' & _).
  destruct He as (Hst & Hns & Hnpc & _).
  unfold nn_in_range in *. rewrite Hnpc, Hns, Hs'. exact Hr.
Qed.

(** ** The record of the learner *)

Lemma env_effect_learning cfg start (s s' : SysT) :
  learning_inv cfg start s -> env_effect cfg s s' -> learning_inv cfg start s'.
Proof.
  intros [Hb Hl] He.
  pose proof (env_effect_control cfg s s' He) as (_ & Hl' & _).
  destruct He as (Hst & Hns & Hnpc & _).
  unfold learning_inv. rewrite Hnpc, Hl'. now split.
Qed.

Lemma learning_at_idle cfg t : train_due cfg t = Some false -> learning_at cfg t = [].
Proof. intros H. unfold learning_at, trains_at. now rewrite H. Qed.

Lemma learning_at_train cfg t :
  train_due cfg t = Some true ->
  learning_at cfg t =
    TrainStep t :: match target_due cfg t with Some true => [TargetSync t] | _ => [] end.
Proof.
  intros H. unfold learning_at, syncs_at, trains_at. rewrite H. simpl.
  now destruct (target_due cfg t) as [[|]|].
Qed.

Lemma nn_effect_learning cfg start (s s' : SysT) :
  learning_inv cfg start s -> nn_in_range cfg s -> start_step (agent s) = start ->
  nn_effect cfg s s' -> learning_inv cfg start s'.
Proof.
  intros [Hb Hl] Hr Hs (Hst & Hns & Hnpc & Hc). cbv zeta in Hc.
  unfold learning_inv. unfold nn_in_range in Hr.
  destruct (nn_pc s) eqn:Hpc; open_effect; range_facts;
    repeat match goal with H : nn_pc s' = _ |- _ => rewrite H; clear H end;
    new_agent;
    repeat match goal with |- context [if ?b then _ else _] => destruct b eqn:? end;
    repeat match goal with |- context [match ?f with Some _ => _ | None => _ end] =>
                             destruct f end;
    simpl in *; rewrite ?app_nil_r in *;
    try (split; [solve [auto; congruence] | congruence]).
  - (* N_wait_clear, no training: on to N_save *)
    split; [now left|]. rewrite (learning_at_idle cfg t Hb), app_nil_r. exact Hl.
  - (* N_target, synchronising *)
    split; [right; split; congruence|].
    rewrite (learning_at_train cfg t Hb), Hl.
    match goal with H : target_due cfg t = _ |- _ => rewrite H end.
    rewrite <- app_assoc. reflexivity.
  - (* N_target, not synchronising *)
    split; [right; split; congruence|].
    rewrite (learning_at_train cfg t Hb), Hl.
    match goal with H : target_due cfg t = _ |- _ => rewrite H end.
    reflexivity.
  - (* N_signal: the step is complete *)
    split; [exact I|]. rewrite range_snoc, flat_map_app by lia. simpl.
    rewrite app_nil_r. exact Hl.
Qed.

(** ** The invariant of a run *)

Lemma train_inv_init cfg (a : AgentT) : train_inv cfg (start_step a) (train a : SysT).
Proof.
  unfold train_inv, handshake_inv, env_in_range, nn_in_range, learning_inv,
    waiter_saw_flag. simpl.
  repeat split; try lia; try discriminate; auto.
  - exists 0%nat. repeat split.
    + apply phase_some. auto.
    + unfold handshake_upto. now rewrite range_empty by lia.
  - now rewrite range_empty by lia.
Qed.

Lemma move_effect cfg tid (s s' : SysT) :
  move cfg tid s = Some s' ->
  match tid with T_env => env_effect cfg s s' | T_nn => nn_effect cfg s s' end.
Proof.
  destruct tid; simpl; [apply run_env_effect | apply train_model_effect].
Qed.

Lemma train_inv_move cfg start tid (s s' : SysT) :
  train_inv cfg start s -> move cfg tid s = Some s' -> train_inv cfg start s'.
Proof.
  intros (Hh & He & Hn & Hl) Hm. apply move_effect in Hm.
  assert (Hs : start_step (agent s) = start) by apply Hh.
  destruct tid; (split; [|split; [|split]]).
  - eapply env_effect_handshake; eauto.
  - eapply env_effect_env_range; eauto.
  - eapply env_effect_nn_range; eauto.
  - eapply env_effect_learning; eauto.
  - eapply nn_effect_handshake; eauto.
  - eapply nn_effect_env_range; eauto.
  - eapply nn_effect_nn_range; eauto.
  - eapply nn_effect_learning; eauto.
Qed.

Lemma train_inv_fire cfg start tid (s : SysT) :
  train_inv cfg start s -> train_inv cfg start (fire cfg s tid).
Proof.
  intros H. unfold fire. destruct (move cfg tid s) eqn:Hm; [|exact H].
  eapply train_inv_move; eauto.
Qed.

Lemma train_inv_run cfg start sched : forall s : SysT,
  train_inv cfg start s -> train_inv cfg start (run cfg sched s).
Proof.
  induction sched as [|tid sched IH]; intros s H; simpl; [exact H|].
  apply IH. now apply train_inv_fire.
Qed.

(** ** A run under a valid configuration raises nothing *)

Lemma eval_due_valid cfg t : valid cfg -> eval_due cfg t <> None.
Proof.
  intros (_ & _ & _ & He). unfold eval_due.
  destruct (Z.ltb_spec 0 (eval_len cfg)); [|discriminate].
  rewrite divides_some by auto. discriminate.
Qed.

Lemma train_due_valid cfg t : train_freq cfg <> 0 ->
  train_due cfg t = Some ((start_train cfg <=? t) && (t mod train_freq cfg =? 0)).
Proof.
  intros H. unfold train_due. destruct (start_train cfg <=? t); [|reflexivity].
  now rewrite divides_some.
Qed.

Lemma no_raise_move cfg tid (s s' : SysT) :
  valid cfg -> no_raise s -> move cfg tid s = Some s' -> no_raise s'.
Proof.
  intros Hv [Hne Hnn] Hm. apply move_effect in Hm.
  assert (Hev : forall t, eval_due cfg t <> None)
    by (intros t; now apply eval_due_valid).
  destruct Hv as (Htf & Huf & Hlf & _).
  destruct tid; destruct Hm as (Hst & Hns & Hnpc & Hc); cbv zeta in Hc.
  - split; [|rewrite Hns; exact Hnn].
    destruct (env_pc s) eqn:Hpc; open_effect; try congruence;
      try (exfalso; eapply Hev; eassumption).
  - split; [rewrite Hns; exact Hne|].
    destruct (nn_pc s) eqn:Hpc; open_effect; try congruence.
    + rewrite train_due_valid in * by assumption. discriminate.
    + unfold target_due in *. rewrite divides_some in * by assumption. discriminate.
Qed.

Lemma no_raise_run cfg sched : forall s : SysT,
  valid cfg -> no_raise s -> no_raise (run cfg sched s).
Proof.
  induction sched as [|tid sched IH]; intros s Hv H; simpl; [exact H|].
  apply IH; [exact Hv|]. unfold fire.
  destruct (move cfg tid s) eqn:Hm; [|exact H]. eapply no_raise_move; eauto.
Qed.

Lemma no_raise_init (a : AgentT) : no_raise (train a : SysT).
Proof. split; intros e; discriminate. Qed.

(** ** No deadlock *)

Lemma run_env_stuck cfg (s : SysT) :
  _run_env cfg s = None -> env_status s <> Running \/ env_blocked s.
Proof.
  unfold _run_env, env_blocked. intros H.
  destruct (env_status s); [|left; discriminate..].
  right. split; [reflexivity|].
  destruct (env_pc s); try discriminate;
    repeat match type of H with
           | (if ?b then _ else _) = _ => destruct b eqn:?
           | (let (_, _) := ?x in _) = _ => destruct x
           end; try discriminate.
  eauto.
Qed.

Lemma train_model_stuck cfg (s : SysT) :
  _train_model cfg s = None -> nn_status s <> Running \/ nn_blocked s.
Proof.
  unfold _train_model, nn_blocked. intros H.
  destruct (nn_status s); [|left; discriminate..].
  right. split; [reflexivity|].
  destruct (nn_pc s); try discriminate;
    repeat match type of H with
           | (if ?b then _ else _) = _ => destruct b eqn:?
           | (let (_, _) := ?x in _) = _ => destruct x
           end; try discriminate.
  eauto.
Qed.

Lemma finished_at_head cfg (s : SysT) :
  env_in_range cfg s -> nn_in_range cfg s ->
  (env_status s = Finished ->
   env_mid (env_pc s) = false /\
   env_t (start_step (agent s)) (env_pc s) = Z.max (start_step (agent s)) (stop_step cfg + 1)) /\
  (nn_status s = Finished ->
   nn_mid (nn_pc s) = false /\
   nn_t (nn_pc s) = Z.max (start_step (agent s)) (stop_step cfg + 1)).
Proof.
  unfold env_in_range, nn_in_range. intros He Hn. split; intros Hf.
  - destruct (env_pc s); simpl; try (exfalso; intuition congruence).
    destruct He as (? & ? & Hs). specialize (Hs Hf). split; [reflexivity|lia].
  - destruct (nn_pc s); simpl; try (exfalso; intuition congruence).
    destruct Hn as (? & ? & Hs). specialize (Hs Hf). split; [reflexivity|lia].
Qed.

(** as long as a thread has not returned, one of the two can move *)
Lemma progress cfg start (s : SysT) :
  train_inv cfg start s -> no_raise s -> joined s = false ->
  exists tid s', move cfg tid s = Some s'.
Proof.
  intros (Hh & He & Hn & _) [Hre Hrn] Hj.
  destruct (_run_env cfg s) as [s'|] eqn:Hme; [exists T_env, s'; exact Hme|].
  destruct (_train_model cfg s) as [s'|] eqn:Hmn; [exists T_nn, s'; exact Hmn|].
  exfalso.
  apply run_env_stuck in Hme. apply train_model_stuck in Hmn.
  destruct (finished_at_head cfg s He Hn) as [Hfe Hfn].
  destruct Hh as (Hs & j & Hph & Htd & Hac & _).
  apply phase_some in Hph. rewrite <- Hs in Hph.
  unfold env_in_range, nn_in_range in *.
  assert (Hes : env_status s = Finished \/ env_blocked s).
  { destruct Hme as [H|H]; [|now right]. left.
    destruct (env_status s) as [| |e]; [congruence|reflexivity|now destruct (Hre e)]. }
  assert (Hns : nn_status s = Finished \/ nn_blocked s).
  { destruct Hmn as [H|H]; [|now right]. left.
    destruct (nn_status s) as [| |e]; [congruence|reflexivity|now destruct (Hrn e)]. }
  clear Hme Hmn.
  destruct Hes as [Hef|(Her & te & obs & Hepc & Hetd)];
    destruct Hns as [Hnf|(Hnr & tn & feed & Hnpc & Hnac)].
  - unfold joined in Hj. rewrite Hef, Hnf in Hj. discriminate.
  - destruct (Hfe Hef) as [Hem Het]. rewrite Hnpc in *. simpl in *.
    destruct Hph as [H|[H|[H|H]]]; destruct H as (-> & H1 & H2 & H3);
      simpl in *; try congruence; lia.
  - destruct (Hfn Hnf) as [Hnm Hnt]. rewrite Hepc in *. simpl in *.
    destruct Hph as [H|[H|[H|H]]]; destruct H as (-> & H1 & H2 & H3);
      simpl in *; try congruence; lia.
  - rewrite Hepc, Hnpc in *. simpl in *.
    destruct Hph as [H|[H|[H|H]]]; destruct H as (-> & H1 & H2 & H3);
      simpl in *; congruence.
Qed.

(** ** Termination *)

Ltac rank_arith :=
  unfold remaining in *; range_facts;
  repeat match goal with
         | |- context [if ?b then _ else _] => destruct b eqn:?
         | H : context [if ?b then _ else _] |- _ => destruct b eqn:?
         end;
  try congruence; try lia.

Lemma env_effect_rank cfg (s s' : SysT) :
  env_effect cfg s s' ->
  0 <= env_rank cfg s' < env_rank cfg s /\ nn_rank cfg s' <= nn_rank cfg s.
Proof.
  intros He.
  pose proof (env_effect_control cfg s s' He) as (Hs' & _ & Hctl).
  destruct He as (Hst & Hns & Hnpc & Hc). cbv zeta in Hc. split.
  - unfold env_rank. rewrite Hst.
    destruct (env_pc s) eqn:Hpc; open_effect;
      repeat match goal with
             | H : env_pc s' = _ |- _ => rewrite H; clear H
             | H : env_status s' = _ |- _ => rewrite H; clear H
             end;
      rewrite ?Hs'; rank_arith.
  - unfold nn_rank. rewrite Hns, Hnpc.
    assert (Hac : act_chosen (agent s') = act_chosen (agent s) \/
                  act_chosen (agent s') = true)
      by (destruct (env_pc s); intuition).
    destruct (nn_status s); try lia. destruct (nn_pc s); try lia.
    destruct Hac as [-> | ->]; rank_arith.
Qed.

Lemma nn_effect_rank cfg (s s' : SysT) :
  nn_effect cfg s s' ->
  0 <= nn_rank cfg s' < nn_rank cfg s /\ env_rank cfg s' <= env_rank cfg s.
Proof.
  intros He.
  pose proof (nn_effect_control cfg s s' He) as (Hs' & Hctl).
  destruct He as (Hst & Hns & Hnpc & Hc). cbv zeta in Hc. split.
  - unfold nn_rank. rewrite Hst.
    destruct (nn_pc s) eqn:Hpc; open_effect;
      repeat match goal with
             | H : nn_pc s' = _ |- _ => rewrite H; clear H
             | H : nn_status s' = _ |- _ => rewrite H; clear H
             end;
      rewrite ?Hs';
      repeat match goal with |- context [match ?f with Some _ => _ | None => _ end] =>
                               destruct f end;
      rank_arith.
  - unfold env_rank. rewrite Hns, Hnpc, Hs'.
    assert (Htd : train_done (agent s') = train_done (agent s) \/
                  train_done (agent s') = true)
      by (destruct (nn_pc s); intuition).
    destruct (env_status s); try lia. destruct (env_pc s); try lia.
    destruct Htd as [-> | ->]; rank_arith.
Qed.

Lemma rank_nonneg cfg (s : SysT) : 0 <= env_rank cfg s /\ 0 <= nn_rank cfg s.
Proof.
  unfold env_rank, nn_rank. split.
  - destruct (env_status s); try lia. destruct (env_pc s); rank_arith.
  - destruct (nn_status s); try lia. destruct (nn_pc s); rank_arith.
Qed.

(** every move of either thread brings the run closer to its end *)
Lemma measure_decreases cfg tid (s s' : SysT) :
  move cfg tid s = Some s' -> 0 <= measure cfg s' < measure cfg s.
Proof.
  intros Hm. apply move_effect in Hm. unfold measure.
  pose proof (rank_nonneg cfg s') as [? ?].
  destruct tid.
  - apply env_effect_rank in Hm. lia.
  - apply nn_effect_rank in Hm. lia.
Qed.

Lemma joined_stays cfg sched : forall s : SysT,
  joined s = true -> run cfg sched s = s.
Proof.
  induction sched as [|tid sched IH]; intros s Hj; simpl; [reflexivity|].
  assert (Hf : fire cfg s tid = s).
  { unfold fire, move, _run_env, _train_model, joined in *.
    destruct (env_status s); try discriminate.
    destruct (nn_status s); try discriminate.
    now destruct tid. }
  rewrite Hf. now apply IH.
Qed.

(** the two threads moving in turn run to completion *)
Lemma in_turn_completes cfg start (n : nat) : forall s : SysT,
  valid cfg -> train_inv cfg start s -> no_raise s ->
  measure cfg s <= Z.of_nat n ->
  joined (run cfg (in_turn n) s) = true.
Proof.
  induction n as [|n IH]; intros s Hv Hi Hr Hm.
  - simpl. destruct (joined s) eqn:Hj; [reflexivity|exfalso].
    destruct (progress cfg start s Hi Hr Hj) as (tid & s' & Hmv).
    apply measure_decreases in Hmv. lia.
  - destruct (joined s) eqn:Hj; [now rewrite joined_stays|].
    cbn [in_turn run fold_left]. apply IH; try assumption.
    + now do 2 apply train_inv_fire.
    + unfold fire.
      destruct (move cfg T_env s) as [s1|] eqn:H1.
      * pose proof (no_raise_move cfg T_env s s1 Hv Hr H1) as Hr1.
        destruct (move cfg T_nn s1) as [s2|] eqn:H2; [|exact Hr1].
        eapply no_raise_move; eauto.
      * destruct (move cfg T_nn s) as [s2|] eqn:H2; [|exact Hr].
        eapply no_raise_move; eauto.
    + unfold fire.
      destruct (move cfg T_env s) as [s1|] eqn:H1.
      * apply measure_decreases in H1.
        destruct (move cfg T_nn s1) as [s2|] eqn:H2; [|lia].
        apply measure_decreases in H2. lia.
      * destruct (move cfg T_nn s) as [s2|] eqn:H2.
        -- apply measure_decreases in H2. lia.
        -- destruct (progress cfg start s Hi Hr Hj) as ([|] & s' & Hmv); congruence.
Qed.

Lemma joined_finished (s : SysT) :
  joined s = true -> env_status s = Finished /\ nn_status s = Finished.
Proof.
  unfold joined. destruct (env_status s), (nn_status s); try discriminate. auto.
Qed.

(** under a valid configuration some schedule lets both threads return *)
Lemma run_completes cfg (a : AgentT) :
  valid cfg -> exists sched, joined (run cfg sched (train a : SysT)) = true.
Proof.
  intros Hv. exists (in_turn (Z.to_nat (measure cfg (train a : SysT)))).
  eapply in_turn_completes; [exact Hv|apply train_inv_init|apply no_raise_init|].
  pose proof (rank_nonneg cfg (train a : SysT)). unfold measure. lia.
Qed.

(** ** The events of a run *)

Lemma range_max a b : range a (Z.max a (b + 1)) = range a (b + 1).
Proof.
  destruct (Z.max_spec a (b + 1)) as [[H ->]|[H ->]]; [reflexivity|].
  now rewrite !range_empty by lia.
Qed.

Lemma joined_handshake cfg start (s : SysT) :
  train_inv cfg start s -> joined s = true ->
  handshake (trace (agent s)) = handshake_of_run start (stop_step cfg).
Proof.
  intros (Hh & He & Hn & _) Hj. apply joined_finished in Hj. destruct Hj as [Hef Hnf].
  destruct (finished_at_head cfg s He Hn) as [Hfe Hfn].
  destruct (Hfe Hef) as [Hem Het]. destruct (Hfn Hnf) as [Hnm Hnt].
  destruct Hh as (Hs & j & Hph & _ & _ & Htr & _).
  apply phase_some in Hph. rewrite <- Hs, Het, Hnt, Hem, Hnm in Hph.
  assert (j = 0%nat) as -> by (intuition (try congruence; lia)).
  rewrite Htr, Hnt, Hs. apply handshake_upto_run.
Qed.

Lemma finished_learning cfg start (s : SysT) :
  train_inv cfg start s -> nn_status s = Finished ->
  learning (trace (agent s)) =
    flat_map (learning_at cfg) (range start (stop_step cfg + 1)).
Proof.
  intros (Hh & He & Hn & Hb & Hl) Hnf.
  destruct (finished_at_head cfg s He Hn) as [_ Hfn]. destruct (Hfn Hnf) as [_ Hnt].
  assert (Hs : start_step (agent s) = start) by apply Hh.
  rewrite Hl, Hnt, Hs, range_max.
  unfold nn_in_range in Hn.
  destruct (nn_pc s); simpl; try (exfalso; intuition congruence).
  apply app_nil_r.
Qed.

(** *** Counting the events of the handshake *)

Lemma count_event_app p (l l' : list Event) :
  count_event p (l ++ l') = (count_event p l + count_event p l')%nat.
Proof. unfold count_event. now rewrite filter_app, length_app. Qed.

Lemma count_event_handshake p (tr : list Event) :
  (forall e, p e = true -> is_handshake e = true) ->
  count_event p tr = count_event p (handshake tr).
Proof.
  intros Hp. unfold count_event, handshake.
  induction tr as [|e tr IH]; simpl; [reflexivity|].
  destruct (p e) eqn:He.
  - rewrite (Hp e He). simpl. rewrite He. simpl. now rewrite IH.
  - destruct (is_handshake e); simpl; rewrite ?He; exact IH.
Qed.

Lemma count_event_rounds p (l : list Z) :
  (forall t, count_event p (round t) = 1%nat) ->
  count_event p (flat_map round l) = List.length l.
Proof.
  intros Hp. induction l as [|t l IH]; [reflexivity|].
  cbn [flat_map]. rewrite count_event_app, Hp, IH. reflexivity.
Qed.

Lemma handshake_of_run_counts start stop :
  let run_events := handshake_of_run start stop in
  let n := steps_of_run start stop in
  count_event (is_observed TrainDone) run_events = n /\
  count_event (is_signalled ActChosen) run_events = n /\
  count_event (is_observed ActChosen) run_events = n /\
  count_event (is_signalled TrainDone) run_events = S n.
Proof.
  unfold handshake_of_run, steps_of_run.
  change (Signalled TrainDone start :: ?l) with ([Signalled TrainDone start] ++ l).
  rewrite !count_event_app, !count_event_rounds, range_length by reflexivity.
  repeat split.
Qed.

(** *** The steps at which the learner trained and synchronised *)

Lemma in_train_steps (tr : list Event) t : In t (train_steps tr) <-> In (TrainStep t) tr.
Proof.
  unfold train_steps. rewrite in_flat_map. split.
  - intros (e & He & Ht). destruct e; simpl in Ht; try contradiction.
    destruct Ht as [->|[]]. exact He.
  - intros H. exists (TrainStep t). split; [exact H|now left].
Qed.

Lemma in_sync_steps (tr : list Event) t : In t (sync_steps tr) <-> In (TargetSync t) tr.
Proof.
  unfold sync_steps. rewrite in_flat_map. split.
  - intros (e & He & Ht). destruct e; simpl in Ht; try contradiction.
    destruct Ht as [->|[]]. exact He.
  - intros H. exists (TargetSync t). split; [exact H|now left].
Qed.

Lemma train_steps_learning (tr : list Event) : train_steps tr = train_steps (learning tr).
Proof.
  unfold train_steps, learning. induction tr as [|e tr IH]; [reflexivity|].
  destruct e; simpl; rewrite IH; reflexivity.
Qed.

Lemma sync_steps_learning (tr : list Event) : sync_steps tr = sync_steps (learning tr).
Proof.
  unfold sync_steps, learning. induction tr as [|e tr IH]; [reflexivity|].
  destruct e; simpl; rewrite IH; reflexivity.
Qed.

Lemma train_steps_of_run cfg (l : list Z) :
  train_steps (flat_map (learning_at cfg) l) = filter (trains_at cfg) l.
Proof.
  unfold train_steps. induction l as [|t l IH]; [reflexivity|].
  cbn [flat_map filter]. rewrite flat_map_app, IH. unfold learning_at.
  destruct (trains_at cfg t); [|reflexivity]. now destruct (syncs_at cfg t).
Qed.

Lemma sync_steps_of_run cfg (l : list Z) :
  sync_steps (flat_map (learning_at cfg) l) = filter (syncs_at cfg) l.
Proof.
  unfold sync_steps. induction l as [|t l IH]; [reflexivity|].
  cbn [flat_map filter]. rewrite flat_map_app, IH. unfold learning_at.
  destruct (trains_at cfg t) eqn:Ht.
  - now destruct (syncs_at cfg t).
  - unfold syncs_at. rewrite Ht. reflexivity.
Qed.

Lemma in_learning (tr : list Event) (e : Event) :
  is_learning e = true -> (In e tr <-> In e (learning tr)).
Proof.
  intros He. unfold learning. rewrite filter_In. tauto.
Qed.

Lemma in_learning_at cfg t' (e : Event) :
  In e (learning_at cfg t') ->
  (e = TrainStep t' /\ trains_at cfg t' = true) \/
  (e = TargetSync t' /\ syncs_at cfg t' = true /\ In (TrainStep t') (learning_at cfg t')).
Proof.
  unfold learning_at. destruct (trains_at cfg t') eqn:Ht; [|intros []].
  destruct (syncs_at cfg t') eqn:Hs; simpl; intuition.
Qed.

(** what the learner has recorded so far is right, also in the middle of
    a run *)
Lemma learning_so_far cfg start (s : SysT) (e : Event) :
  train_inv cfg start s -> In e (learning (trace (agent s))) ->
  exists t, start <= t <= stop_step cfg /\
    ((e = TrainStep t /\ trains_at cfg t = true) \/
     (e = TargetSync t /\ syncs_at cfg t = true /\
      In (TrainStep t) (learning (trace (agent s))))).
Proof.
  intros (Hh & _ & Hn & Hb & Hl) Hin.
  assert (Hs : start_step (agent s) = start) by apply Hh.
  rewrite Hl in *. unfold nn_in_range in Hn. rewrite Hs in Hn.
  apply in_app_or in Hin. destruct Hin as [Hin|Hin].
  - apply in_flat_map in Hin. destruct Hin as (t & Ht & He).
    apply in_range in Ht. exists t. split.
    + destruct (nn_pc s); simpl in *; lia.
    + destruct (in_learning_at cfg t e He) as [H|(H1 & H2 & H3)]; [now left|right].
      repeat split; try assumption. apply in_or_app. left.
      apply in_flat_map. exists t. split; [now apply in_range|assumption].
  - destruct (nn_pc s) eqn:Hpc; simpl in Hin; try contradiction.
    + (* N_target *)
      destruct Hin as [<-|[]]. exists t. split; [lia|left]. split; [reflexivity|].
      unfold trains_at. simpl in Hb. now rewrite Hb.
    + (* N_save *)
      exists t. split; [lia|].
      destruct (in_learning_at cfg t e Hin) as [H|(H1 & H2 & H3)]; [now left|right].
      repeat split; try assumption. apply in_or_app. now right.
    + (* N_signal *)
      exists t. split; [lia|].
      destruct (in_learning_at cfg t e Hin) as [H|(H1 & H2 & H3)]; [now left|right].
      repeat split; try assumption. apply in_or_app. now right.
Qed.

Lemma trains_at_valid cfg t : train_freq cfg <> 0 ->
  trains_at cfg t = (start_train cfg <=? t) && (t mod train_freq cfg =? 0).
Proof.
  intros H. unfold trains_at. rewrite train_due_valid by assumption.
  now destruct ((start_train cfg <=? t) && (t mod train_freq cfg =? 0)).
Qed.

Lemma syncs_at_valid cfg t : update_target_freq cfg <> 0 ->
  syncs_at cfg t = trains_at cfg t && (t mod update_target_freq cfg =? 0).
Proof.
  intros H. unfold syncs_at, target_due. rewrite divides_some by assumption.
  now destruct (t mod update_target_freq cfg =? 0).
Qed.

(** C1. Under any schedule, the learner runs a training step only at a
    step [t] of the range with [t >= start_train] and [t % train_freq ==
    0]; once it has gone through its loop it has run one at each such
    step, once and in order.  Under a valid configuration some schedule
    takes it through its loop. *)
Theorem training_steps cfg (a : AgentT) (sched : list Tid) :
  train_freq cfg <> 0 ->
  let s : SysT := run cfg sched (train a) in
  let due t := (start_train cfg <=? t) && (t mod train_freq cfg =? 0) in
  (forall t, In (TrainStep t) (trace (agent s)) ->
             start_step a <= t <= stop_step cfg /\ due t = true) /\
  (nn_status s = Finished ->
   train_steps (trace (agent s)) = filter due (range (start_step a) (stop_step cfg + 1)) /\
   forall t, start_step a <= t <= stop_step cfg ->
     (In (TrainStep t) (trace (agent s)) <->
      start_train cfg <= t /\ t mod train_freq cfg = 0)) /\
  (valid cfg -> exists sched', nn_status (run cfg sched' (train a) : SysT) = Finished).
Proof.
  intros Hf s due.
  assert (Hlive : valid cfg ->
            exists sched', nn_status (run cfg sched' (train a) : SysT) = Finished).
  { intros Hv. destruct (run_completes cfg a Hv) as [sched' Hj].
    exists sched'. now apply joined_finished in Hj. }
  refine ((fun H => conj (proj1 H) (conj (proj2 H) Hlive)) _).
  assert (Hi : train_inv cfg (start_step a) s)
    by (apply train_inv_run, train_inv_init).
  assert (Hdue : forall t, trains_at cfg t = due t)
    by (intros t; now apply trains_at_valid).
  split.
  - intros t Hin. apply (in_learning _ (TrainStep t) eq_refl) in Hin.
    destruct (learning_so_far cfg _ s _ Hi Hin) as (t' & Hr & [[He Ht]|[He _]]);
      [|discriminate].
    injection He as ->. rewrite <- Hdue. auto.
  - intros Hfin.
    assert (Hsteps : train_steps (trace (agent s))
                     = filter due (range (start_step a) (stop_step cfg + 1))).
    { rewrite train_steps_learning, (finished_learning cfg _ s Hi Hfin),
        train_steps_of_run.
      apply filter_ext. exact Hdue. }
    split; [exact Hsteps|].
    intros t Hr. rewrite <- in_train_steps, Hsteps, filter_In, in_range.
    unfold due. rewrite andb_true_iff, Z.leb_le, Z.eqb_eq. intuition lia.
Qed.

(** C5. Under any schedule, the target network is synchronised at step [t]
    only if a training step ran at [t] and [t % update_target_freq == 0];
    once the learner has gone through its loop, it has been synchronised
    at exactly those steps.  Under a valid configuration some schedule
    takes it through its loop. *)
Theorem target_sync cfg (a : AgentT) (sched : list Tid) :
  update_target_freq cfg <> 0 ->
  let s : SysT := run cfg sched (train a) in
  (forall t, In (TargetSync t) (trace (agent s)) ->
             In (TrainStep t) (trace (agent s)) /\ t mod update_target_freq cfg = 0) /\
  (nn_status s = Finished ->
   forall t, In (TargetSync t) (trace (agent s)) <->
             In (TrainStep t) (trace (agent s)) /\ t mod update_target_freq cfg = 0) /\
  (valid cfg -> exists sched', nn_status (run cfg sched' (train a) : SysT) = Finished).
Proof.
  intros Hf s.
  assert (Hlive : valid cfg ->
            exists sched', nn_status (run cfg sched' (train a) : SysT) = Finished).
  { intros Hv. destruct (run_completes cfg a Hv) as [sched' Hj].
    exists sched'. now apply joined_finished in Hj. }
  refine ((fun H => conj (proj1 H) (conj (proj2 H) Hlive)) _).
  assert (Hi : train_inv cfg (start_step a) s)
    by (apply train_inv_run, train_inv_init).
  assert (Hsafe : forall t, In (TargetSync t) (trace (agent s)) ->
            In (TrainStep t) (trace (agent s)) /\ t mod update_target_freq cfg = 0).
  { intros t Hin. apply (in_learning _ (TargetSync t) eq_refl) in Hin.
    destruct (learning_so_far cfg _ s _ Hi Hin)
      as (t' & Hr & [[He _]|(He & Hs & Ht)]); [discriminate|].
    injection He as <-. split.
    - now apply (in_learning _ (TrainStep t) eq_refl).
    - rewrite syncs_at_valid in Hs by assumption.
      apply andb_true_iff in Hs. now apply Z.eqb_eq. }
  split; [exact Hsafe|].
  intros Hfin t. split; [apply Hsafe|]. intros [Ht Hm].
  rewrite <- in_sync_steps, sync_steps_learning, (finished_learning cfg _ s Hi Hfin),
    sync_steps_of_run, filter_In.
  rewrite <- in_train_steps, train_steps_learning, (finished_learning cfg _ s Hi Hfin),
    train_steps_of_run, filter_In in Ht.
  destruct Ht as [Hr Ht]. split; [exact Hr|].
  rewrite syncs_at_valid, Ht by assumption. now apply Z.eqb_eq.
Qed.

(** C2. [train()] sets [train_done] and clears [act_chosen] before either
    thread has moved.  Under any schedule the recorded handshake is then
    a beginning of the alternation [train_done(t), action_chosen(t),
    train_done(t+1), ...] in which each signal is observed and cleared by
    its waiter before the next is set, and the two flags are never set
    together.  When both threads have returned, over the [n] steps of the
    range each signal has been observed [n] times, [action_chosen] has been
    set [n] times and [train_done] [n] times after the one of [train()].
    Under a valid configuration a run never deadlocks and the threads
    moving in turn run to completion. *)
Theorem handshake_alternates cfg (a : AgentT) :
  let start := start_step a in
  (train_done (agent (train a : SysT)) = true /\
   act_chosen (agent (train a : SysT)) = false /\
   env_pc (train a : SysT) = E_start /\ nn_pc (train a : SysT) = N_head start) /\
  (forall sched, let s : SysT := run cfg sched (train a) in
     (exists t j, (j <= 3)%nat /\
        handshake (trace (agent s)) = handshake_upto start t j /\
        train_done (agent s) = Nat.eqb j 0 /\ act_chosen (agent s) = Nat.eqb j 2) /\
     (joined s = true ->
        let n := steps_of_run start (stop_step cfg) in
        handshake (trace (agent s)) = handshake_of_run start (stop_step cfg) /\
        count_event (is_observed TrainDone) (trace (agent s)) = n /\
        count_event (is_signalled ActChosen) (trace (agent s)) = n /\
        count_event (is_observed ActChosen) (trace (agent s)) = n /\
        count_event (is_signalled TrainDone) (trace (agent s)) = S n)) /\
  (valid cfg ->
   (forall sched, joined (run cfg sched (train a : SysT)) = false ->
      exists tid s', move cfg tid (run cfg sched (train a)) = Some s') /\
   (exists sched, joined (run cfg sched (train a : SysT)) = true)).
Proof.
  intros start. split; [repeat split|]. split.
  - intros sched s.
    assert (Hi : train_inv cfg start s) by (apply train_inv_run, train_inv_init).
    split.
    + destruct Hi as ((_ & j & Hph & Htd & Hac & Htr & _) & _).
      exists (nn_t (nn_pc s)), j. repeat split; try assumption.
      apply phase_some in Hph. intuition lia.
    + intros Hj n. pose proof (joined_handshake cfg start s Hi Hj) as Hh.
      split; [exact Hh|].
      destruct (handshake_of_run_counts start (stop_step cfg)) as (C1 & C2 & C3 & C4).
      repeat split;
        (rewrite count_event_handshake, Hh;
         [assumption | intros [[]|[]| | | | | | |]; simpl; congruence]).
  - intros Hv. split.
    + intros sched Hj. eapply progress; [| |exact Hj].
      * apply train_inv_run, train_inv_init.
      * apply no_raise_run; [exact Hv|apply no_raise_init].
    + now apply run_completes.
Qed.

(** ** No evaluation without an evaluation length *)

Lemma evals_record (e : Event) (a : AgentT) :
  evals (trace (record e a)) = evals (trace a) ++ (if is_eval e then [e] else []).
Proof. unfold evals, record. simpl. now rewrite filter_app; simpl; destruct (is_eval e). Qed.

Lemma eval_due_off cfg t : eval_len cfg <= 0 -> eval_due cfg t = Some false.
Proof.
  intros H. unfold eval_due. now destruct (Z.ltb_spec 0 (eval_len cfg)); [lia|].
Qed.

Lemma move_eval_view cfg tid (s s' : SysT) :
  eval_len cfg <= 0 -> move cfg tid s = Some s' ->
  eval_view (agent s') = eval_view (agent s).
Proof.
  intros Hl Hm. apply move_effect in Hm.
  destruct tid; destruct Hm as (Hst & Hns & Hnpc & Hc); cbv zeta in Hc.
  - destruct (env_pc s) eqn:Hpc;
      try (rewrite eval_due_off in Hc by exact Hl);
      open_effect; unfold eval_view;
      try match goal with H : agent s' = _ |- _ => rewrite H end;
      rewrite ?evals_record; simpl; rewrite ?app_nil_r; congruence.
  - destruct (nn_pc s) eqn:Hpc;
      open_effect; unfold eval_view;
      try match goal with H : agent s' = _ |- _ => rewrite H end;
      rewrite ?evals_record; simpl; rewrite ?app_nil_r; congruence.
Qed.

(** C7. With [eval_len <= 0] the guard of [_run_env] is false at every
    step without evaluating [t % eval_freq], so it raises for no value of
    [eval_freq], zero included; under any schedule [eval()] is never
    entered and the run counter keeps its value. *)
Theorem no_eval_without_length cfg (a : AgentT) (sched : list Tid) :
  eval_len cfg <= 0 ->
  let s : SysT := run cfg sched (train a) in
  (forall t, eval_due cfg t = Some false) /\
  (forall r, ~ In (EvalStart r) (trace (agent s))) /\
  (forall t m, ~ In (EvalStep t m) (trace (agent s))) /\
  eval_runs (agent s) = eval_runs a.
Proof.
  intros Hl s.
  assert (Hv : eval_view (agent s) = ([], eval_runs a)).
  { subst s. change ([], eval_runs a) with (eval_view (agent (train a : SysT))).
    generalize (train a : SysT). induction sched as [|tid sched IH]; intros s0; simpl.
    - reflexivity.
    - rewrite IH. unfold fire. destruct (move cfg tid s0) eqn:Hm; [|reflexivity].
      eapply move_eval_view; eauto. }
  unfold eval_view in Hv. injection Hv as He Hr.
  split; [intros t; now apply eval_due_off|].
  assert (Hno : forall e, is_eval e = true -> ~ In e (trace (agent s))).
  { intros e Hee Hin.
    assert (Hin' : In e (evals (trace (agent s)))) by (apply filter_In; auto).
    rewrite He in Hin'. exact Hin'. }
  repeat split; try assumption; intros; now apply Hno.
Qed.

(** ** [build()] on a checkpoint of its own *)

Lemma find_op_snoc (g : Graph) (o : Operation) (n : string) :
  find_op (g ++ [o]) n =
  match find_op g n with
  | Some x => Some x
  | None => if String.eqb (op_name o) n then Some o else None
  end.
Proof.
  unfold find_op. induction g as [|x g IH]; simpl.
  - reflexivity.
  - destruct (String.eqb (op_name x) n); [reflexivity|exact IH].
Qed.

Lemma fresh_graph_ops :
  names_free ->
  fresh_graph = build_ops ++ [mkOp "t_tf" 1; mkOp "add" 1; mkOp "t_inc_op" 1;
                              mkOp "Merge/MergeSummary" 1].
Proof.
  intros Hf. unfold names_free, agent_names in Hf.
  unfold fresh_graph, add_op, unique_name, name_taken.
  rewrite !find_op_snoc, !Hf by (simpl; tauto). simpl.
  rewrite <- !app_assoc. reflexivity.
Qed.

Lemma fresh_graph_find (n : string) :
  names_free -> In n agent_names ->
  find_op fresh_graph n =
  find (fun o => String.eqb (op_name o) n)
    [mkOp "t_tf" 1; mkOp "add" 1; mkOp "t_inc_op" 1; mkOp "Merge/MergeSummary" 1].
Proof.
  intros Hf Hn. rewrite (fresh_graph_ops Hf).
  change (build_ops ++ [mkOp "t_tf" 1; mkOp "add" 1; mkOp "t_inc_op" 1;
                        mkOp "Merge/MergeSummary" 1])
    with (build_ops ++ [mkOp "t_tf" 1] ++ [mkOp "add" 1] ++ [mkOp "t_inc_op" 1]
                    ++ [mkOp "Merge/MergeSummary" 1]).
  assert (Hb : find_op build_ops n = None) by now apply Hf.
  unfold agent_names in Hn. simpl in Hn.
  repeat (destruct Hn as [<-|Hn];
          [rewrite !app_assoc, !find_op_snoc, Hb; reflexivity|]).
  contradiction.
Qed.

Lemma fresh_graph_lookups :
  names_free ->
  find_op fresh_graph "t_tf" = Some (mkOp "t_tf" 1) /\
  find_op fresh_graph "t_inc_op" = Some (mkOp "t_inc_op" 1) /\
  find_op fresh_graph "t_tf_inc" = None.
Proof.
  intros Hf. repeat split.
  - rewrite (fresh_graph_find "t_tf" Hf); [reflexivity|simpl; tauto].
  - rewrite (fresh_graph_find "t_inc_op" Hf); [reflexivity|simpl; tauto].
  - rewrite (fresh_graph_find "t_tf_inc" Hf); [reflexivity|simpl; tauto].
Qed.

Lemma own_checkpoint_raises (a : AgentT) w rb :
  names_free -> graph a = fresh_graph -> learn_started a = true ->
  build w rb (disk (fst (save a))) = Err (KeyError "t_tf_inc").
Proof.
  intros Hf Hg Hl. destruct (fresh_graph_lookups Hf) as (H1 & _ & H3).
  unfold build. rewrite (save_started a Hl). cbn [fst disk set_disk checkpoints ck_graph].
  rewrite Hg. unfold get_tensor_by_name, get_operation_by_name. simpl.
  rewrite H1, H3. reflexivity.
Qed.

(** *** The checkpoints of a run *)

Ltac persist_eq := unfold persist_view, record; simpl; reflexivity.

Ltac persist_method := repeat method_step; try persist_eq.

Lemma reset_persist : respects (same persist_view) reset.
Proof. unfold reset. persist_method. Qed.

Lemma log_stats_persist cfg t : respects (same persist_view) (_log_stats cfg t).
Proof. unfold _log_stats. persist_method. Qed.

Lemma eval_persist cfg : respects (same persist_view) (eval cfg).
Proof.
  unfold eval. persist_method. unfold eval_body. persist_method. apply reset_persist.
Qed.

Lemma respects_checkpoints {X} (m : MT X) (g : Graph) (a : AgentT) :
  respects (same persist_view) m -> checkpoints_of g a -> checkpoints_of g (fst (m a)).
Proof.
  intros Hm Hc. specialize (Hm a). unfold same, persist_view in Hm.
  injection Hm as Hg Hd. unfold checkpoints_of in *. now rewrite Hg, Hd.
Qed.

Lemma save_checkpoints (g : Graph) (a : AgentT) :
  checkpoints_of g a -> checkpoints_of g (fst (save a)).
Proof.
  intros [Hg Hc]. destruct (learn_started a) eqn:Hl.
  - rewrite (save_started a Hl). cbv zeta. cbn [fst]. split; [exact Hg|].
    cbn [disk set_saver set_disk checkpoints]. intros ck Hin.
    apply put_in in Hin. destruct Hin as [->|[Hin _]]; [exact Hg|now apply Hc].
  - rewrite (save_not_started a Hl). now split.
Qed.

Lemma env_do_agent {X} (s : SysT) (m : MT X) (k : X -> EnvPc) :
  agent (env_do s m k) = fst (m (agent s)).
Proof. unfold env_do. now destruct (m (agent s)) as [a [x|e]]. Qed.

Lemma nn_do_agent {X} (s : SysT) (m : MT X) (k : X -> NnPc) :
  agent (nn_do s m k) = fst (m (agent s)).
Proof. unfold nn_do. now destruct (m (agent s)) as [a [x|e]]. Qed.

Lemma move_checkpoints cfg tid (g : Graph) (s s' : SysT) :
  checkpoints_of g (agent s) -> move cfg tid s = Some s' -> checkpoints_of g (agent s').
Proof.
  intros Hc Hm. destruct tid; simpl in Hm.
  - unfold _run_env in Hm. destruct (env_status s); try discriminate.
    destruct (env_pc s);
      repeat match type of Hm with
             | (if ?b then _ else _) = _ => destruct b
             end;
      try discriminate; injection Hm as <-;
      rewrite ?env_do_agent; try exact Hc;
      try solve [apply respects_checkpoints; [|exact Hc]; persist_method;
                 first [apply reset_persist | apply eval_persist | apply log_stats_persist]].
  - unfold _train_model in Hm. destruct (nn_status s); try discriminate.
    destruct (nn_pc s);
      repeat match type of Hm with
             | (if ?b then _ else _) = _ => destruct b
             | (let (_, _) := ?x in _) = _ => destruct x
             end;
      try discriminate; injection Hm as <-;
      rewrite ?nn_do_agent; try exact Hc;
      try solve [apply respects_checkpoints; [|exact Hc]; persist_method].
    (* N_save *)
    destruct (save_due_some cfg t) as [[|] ->]; unfold bind, guard, ret, modify; simpl.
    + apply (save_checkpoints g (record (SaveCall t) (agent s))). exact Hc.
    + exact Hc.
Qed.

Lemma run_checkpoints cfg sched (g : Graph) : forall s : SysT,
  checkpoints_of g (agent s) -> checkpoints_of g (agent (run cfg sched s)).
Proof.
  induction sched as [|tid sched IH]; intros s H; simpl; [exact H|].
  apply IH. unfold fire. destruct (move cfg tid s) eqn:Hm; [|exact H].
  eapply move_checkpoints; eauto.
Qed.

Lemma fresh_build_checkpoints w rb d (a0 : AgentT) :
  checkpoints d = [] -> build w rb d = Ret a0 ->
  checkpoints_of fresh_graph (agent (train a0 : SysT)).
Proof.
  intros Hd Hb. unfold build in Hb. rewrite Hd in Hb. injection Hb as <-.
  split; [reflexivity|]. simpl. rewrite Hd. intros ck [].
Qed.

Lemma fresh_checkpoint_raises w rb (d : Disk) ckpt rest :
  names_free -> checkpoints d = ckpt :: rest -> ck_graph ckpt = fresh_graph ->
  build w rb d = Err (KeyError "t_tf_inc").
Proof.
  intros Hf Hd Hg. destruct (fresh_graph_lookups Hf) as (H1 & _ & H3).
  unfold build. rewrite Hd, Hg. unfold get_tensor_by_name, get_operation_by_name. simpl.
  rewrite H1, H3. reflexivity.
Qed.

(** no checkpoint that a run leaves behind can be restored *)
Lemma run_checkpoint_raises cfg sched w rb d (a0 : AgentT) w' rb' :
  names_free -> checkpoints d = [] -> build w rb d = Ret a0 ->
  checkpoints (disk (agent (run cfg sched (train a0 : SysT)))) <> [] ->
  build w' rb' (disk (agent (run cfg sched (train a0 : SysT))))
    = Err (KeyError "t_tf_inc").
Proof.
  intros Hf Hd Hb Hne.
  pose proof (run_checkpoints cfg sched fresh_graph _
                (fresh_build_checkpoints w rb d a0 Hd Hb)) as [_ Hc].
  destruct (checkpoints (disk (agent (run cfg sched (train a0 : SysT)))))
    as [|ckpt rest] eqn:Hck; [contradiction|].
  eapply fresh_checkpoint_raises; eauto. apply Hc. now left.
Qed.

(** C3. In the graph that the build branch constructs the increment of
    the step counter is the operation [t_inc_op]; the restore branch looks
    for [t_tf_inc], which that graph does not contain.  So [build()]
    raises [KeyError] on a checkpoint that [save()] wrote from this graph,
    and on the model directory that any run of [train()] after a fresh
    [build()] leaves behind, once it holds a checkpoint. *)
Theorem restore_lookup_fails :
  names_free ->
  get_operation_by_name fresh_graph "t_inc_op" = Ret (mkOp "t_inc_op" 1) /\
  get_operation_by_name fresh_graph "t_tf_inc" = Err (KeyError "t_tf_inc") /\
  (forall (a : AgentT) w rb,
     graph a = fresh_graph -> learn_started a = true ->
     build w rb (disk (fst (save a))) = Err (KeyError "t_tf_inc")) /\
  (forall cfg sched w rb d (a0 : AgentT) w' rb',
     checkpoints d = [] -> build w rb d = Ret a0 ->
     checkpoints (disk (agent (run cfg sched (train a0 : SysT)))) <> [] ->
     build w' rb' (disk (agent (run cfg sched (train a0 : SysT))))
       = Err (KeyError "t_tf_inc")).
Proof.
  intros Hf. destruct (fresh_graph_lookups Hf) as (_ & H2 & H3).
  unfold get_operation_by_name. rewrite H2, H3. repeat split.
  - intros a w rb Hg Hl. now apply own_checkpoint_raises.
  - intros cfg sched w rb d a0 w' rb' Hd Hb Hne.
    now apply (run_checkpoint_raises cfg sched w rb d a0 w' rb').
Qed.

(** C4. [build()] never returns an agent from a checkpoint that [save()]
    wrote from the graph of the build branch, nor from the model directory
    that a run of [train()] after a fresh [build()] leaves behind, so no
    [start_step] is set.  Where the restore branch does return, on another
    checkpoint, it sets [start_step] to the persisted counter itself and
    [learn_started] to true. *)
Theorem restore_after_save :
  names_free ->
  (forall (a : AgentT) w rb a',
     graph a = fresh_graph -> learn_started a = true ->
     build w rb (disk (fst (save a))) <> Ret a') /\
  (forall cfg sched w rb d (a0 : AgentT) w' rb' a',
     checkpoints d = [] -> build w rb d = Ret a0 ->
     checkpoints (disk (agent (run cfg sched (train a0 : SysT)))) <> [] ->
     build w' rb' (disk (agent (run cfg sched (train a0 : SysT)))) <> Ret a') /\
  (forall w rb d ckpt rest (a' : AgentT),
     checkpoints d = ckpt :: rest -> build w rb d = Ret a' ->
     start_step a' = ck_t_tf ckpt /\ t_tf a' = ck_t_tf ckpt /\ learn_started a' = true).
Proof.
  intros Hf. split; [|split].
  - intros a w rb a' Hg Hl.
    rewrite (own_checkpoint_raises a w rb Hf Hg Hl). discriminate.
  - intros cfg sched w rb d a0 w' rb' a' Hd Hb Hne.
    rewrite (run_checkpoint_raises cfg sched w rb d a0 w' rb' Hf Hd Hb Hne).
    discriminate.
  - intros w rb d ckpt rest a' Hd Hb. unfold build in Hb. rewrite Hd in Hb.
    unfold and_then in Hb.
    repeat match type of Hb with
           | match ?x with _ => _ end = _ => destruct x; try discriminate
           end.
    injection Hb as <-. repeat split.
Qed.

(** * More of the two threads *)

(** ** Action selection and training never overlap *)

(** X1. Under every schedule the environment thread is in [eval()] or in
    action selection only while the learner is outside its training and
    synchronisation operations; the two threads stay within one step of
    each other, the learner being past its wait only once the action of
    its step is chosen. *)
Theorem action_excludes_training cfg (a : AgentT) (sched : list Tid) :
  let s : SysT := run cfg sched (train a) in
  let te := env_t (start_step a) (env_pc s) in
  let tn := nn_t (nn_pc s) in
  (selecting (env_pc s) = true -> updating (nn_pc s) = false) /\
  tn <= te <= tn + 1 /\
  (nn_mid (nn_pc s) = true -> te = tn + 1) /\
  (env_mid (env_pc s) = true -> te = tn).
Proof.
  intros s te tn.
  assert (Hi : train_inv cfg (start_step a) s) by (apply train_inv_run, train_inv_init).
  destruct Hi as ((_ & j & Hph & _) & _). apply phase_some in Hph.
  fold te tn in Hph.
  assert (Hsel : selecting (env_pc s) = true -> env_mid (env_pc s) = true)
    by (destruct (env_pc s); simpl; congruence).
  assert (Hupd : updating (nn_pc s) = true -> nn_mid (nn_pc s) = true)
    by (destruct (nn_pc s); simpl; congruence).
  destruct (updating (nn_pc s)); [specialize (Hupd eq_refl)|clear Hupd];
    destruct Hph as [(_ & Ht & Hem & Hnm)|[(_ & Ht & Hem & Hnm)
                    |[(_ & Ht & Hem & Hnm)|(_ & Ht & Hem & Hnm)]]];
    rewrite Hem, Hnm in *; repeat split; intros;
    try congruence; try lia;
    try (exfalso; assert (true = false) by auto; discriminate);
    try (exfalso; assert (false = true) by auto; discriminate).
Qed.

(** ** What a move does to the counter, the flag and the directory *)

Ltac data_eq :=
  unfold clear_train_done, clear_act_chosen, _signal_act_chosen, _signal_train_done,
    modify;
  unfold data_view, record, env_events, save_calls;
  simpl; rewrite ?filter_app, ?flat_map_app; simpl; rewrite ?app_nil_r; reflexivity.

Ltac data_method := repeat method_step; try data_eq.

Lemma reset_data : respects (same data_view) reset.
Proof. unfold reset. data_method. Qed.

Lemma log_stats_data cfg t : respects (same data_view) (_log_stats cfg t).
Proof. unfold _log_stats. data_method. Qed.

Lemma eval_data cfg : respects (same data_view) (eval cfg).
Proof. unfold eval. data_method. unfold eval_body. data_method. apply reset_data. Qed.

Lemma respects_eq {X V} (view : AgentT -> V) (m : MT X) (a : AgentT) :
  respects (same view) m -> view (fst (m a)) = view a.
Proof. intros H. apply H. Qed.

Lemma env_move_data cfg (s s' : SysT) :
  _run_env cfg s = Some s' ->
  data_view (agent s') =
    (match env_pc s with E_inc _ _ _ => wrap32 (t_tf (agent s) + 1) | _ => t_tf (agent s) end,
     learn_started (agent s),
     disk (agent s),
     env_events (trace (agent s))
       ++ match env_pc s with
          | E_act t _ => [Chose t (learn_started (agent s))]
          | E_store t _ _ _ _ _ => [EnvStep t]
          | _ => []
          end,
     save_calls (trace (agent s))).
Proof.
  intros Hm. unfold _run_env in Hm. destruct (env_status s); try discriminate.
  destruct (env_pc s);
    repeat match type of Hm with
           | (if ?b then _ else _) = _ => destruct b
           end;
    try discriminate; injection Hm as <-;
    rewrite ?env_do_agent, ?app_nil_r; try reflexivity;
    try solve [rewrite respects_eq; [reflexivity|];
               data_method;
               first [apply reset_data | apply eval_data | apply log_stats_data]];
    try solve [data_eq].
  - (* E_act *)
    unfold bind, call, modify, ret.
    destruct (agent s) as [? ls ? ? ? ? pr ? ? ? w ? ? ? ? ?]; simpl.
    destruct ls; simpl;
      [destruct (action_train pr obs t w)|destruct (sample_action w)]; data_eq.
Qed.

Lemma save_disk_of_record (e : Event) (a : AgentT) :
  disk (fst (save (record e a))) = disk (fst (save a)) /\
  t_tf (fst (save (record e a))) = t_tf a /\
  learn_started (fst (save (record e a))) = learn_started a /\
  trace (fst (save (record e a))) = trace a ++ [e] /\
  saver (fst (save (record e a))) = saver (fst (save a)).
Proof.
  destruct (learn_started a) eqn:Hl.
  - rewrite (save_started (record e a)), (save_started a) by exact Hl.
    cbv zeta. simpl. rewrite Hl. repeat split; reflexivity.
  - rewrite (save_not_started (record e a)), (save_not_started a) by exact Hl.
    simpl. rewrite Hl. repeat split; reflexivity.
Qed.

Lemma train_model_data cfg (s s' : SysT) :
  _train_model cfg s = Some s' ->
  data_view (agent s') =
    (t_tf (agent s),
     match nn_pc s with N_mark _ => true | _ => learn_started (agent s) end,
     match nn_pc s with
     | N_save t => if save_at cfg t then disk (fst (save (agent s))) else disk (agent s)
     | _ => disk (agent s)
     end,
     env_events (trace (agent s)),
     save_calls (trace (agent s))
       ++ match nn_pc s with
          | N_save t => if save_at cfg t then [t] else []
          | _ => []
          end).
Proof.
  intros Hm. unfold _train_model in Hm. destruct (nn_status s); try discriminate.
  destruct (nn_pc s);
    repeat match type of Hm with
           | (if ?b then _ else _) = _ => destruct b
           | (let (_, _) := ?x in _) = _ => destruct x
           end;
    try discriminate; injection Hm as <-;
    rewrite ?nn_do_agent, ?app_nil_r; try reflexivity;
    try solve [rewrite respects_eq; [reflexivity|]; data_method];
    try solve [data_eq].
  (* N_save *)
  unfold save_at. destruct (save_due_some cfg t) as [[|] ->];
    unfold bind, guard, ret; simpl; [|now rewrite app_nil_r].
  unfold modify. simpl.
  destruct (save_disk_of_record (SaveCall t) (agent s)) as (Hd & Ht & Hl & Htr & _).
  unfold data_view. rewrite Hd, Ht, Hl, Htr.
  unfold env_events, save_calls. rewrite filter_app, flat_map_app. simpl.
  now rewrite app_nil_r.
Qed.

(** what the saver remembers changes in [save()] only *)
Definition saver_view (a : AgentT) : nat := saver a.

Ltac saver_eq :=
  unfold clear_train_done, clear_act_chosen, _signal_act_chosen, _signal_train_done,
    modify;
  unfold saver_view, record; simpl; reflexivity.

Ltac saver_method := repeat method_step; try saver_eq.

Lemma reset_saver : respects (same saver_view) reset.
Proof. unfold reset. saver_method. Qed.

Lemma log_stats_saver cfg t : respects (same saver_view) (_log_stats cfg t).
Proof. unfold _log_stats. saver_method. Qed.

Lemma eval_saver cfg : respects (same saver_view) (eval cfg).
Proof. unfold eval. saver_method. unfold eval_body. saver_method. apply reset_saver. Qed.

Lemma env_move_saver cfg (s s' : SysT) :
  _run_env cfg s = Some s' -> saver (agent s') = saver (agent s).
Proof.
  intros Hm. unfold _run_env in Hm. destruct (env_status s); try discriminate.
  change (saver_view (agent s') = saver_view (agent s)).
  destruct (env_pc s);
    repeat match type of Hm with
           | (if ?b then _ else _) = _ => destruct b
           end;
    try discriminate; injection Hm as <-;
    rewrite ?env_do_agent; try reflexivity;
    try solve [rewrite respects_eq; [reflexivity|];
               saver_method;
               first [apply reset_saver | apply eval_saver | apply log_stats_saver]];
    try solve [saver_eq].
Qed.

Lemma train_model_saver cfg (s s' : SysT) :
  _train_model cfg s = Some s' ->
  saver (agent s') =
    match nn_pc s with
    | N_save t => if save_at cfg t then saver (fst (save (agent s))) else saver (agent s)
    | _ => saver (agent s)
    end.
Proof.
  intros Hm. unfold _train_model in Hm. destruct (nn_status s); try discriminate.
  destruct (nn_pc s);
    repeat match type of Hm with
           | (if ?b then _ else _) = _ => destruct b
           | (let (_, _) := ?x in _) = _ => destruct x
           end;
    try discriminate; injection Hm as <-;
    rewrite ?nn_do_agent; try reflexivity;
    try solve [change (saver ?x) with (saver_view x);
               rewrite respects_eq; [reflexivity|]; saver_method];
    try solve [saver_eq].
  (* N_save *)
  unfold save_at. destruct (save_due_some cfg t) as [[|] ->];
    unfold bind, guard, ret; simpl; [|reflexivity].
  unfold modify. simpl.
  now destruct (save_disk_of_record (SaveCall t) (agent s)) as (_ & _ & _ & _ & ->).
Qed.

(** ** Invariants of a run, one move at a time *)

Lemma run_invariant cfg (a : AgentT) (P : SysT -> Prop) :
  P (train a) ->
  (forall tid s s', train_inv cfg (start_step a) s -> P s ->
                    move cfg tid s = Some s' -> P s') ->
  forall sched, P (run cfg sched (train a)).
Proof.
  intros H0 Hstep sched.
  assert (H : forall s : SysT, train_inv cfg (start_step a) s -> P s ->
                               P (run cfg sched s)).
  { induction sched as [|tid sched IH]; intros s Hi Hp; simpl; [exact Hp|].
    apply IH; [now apply train_inv_fire|].
    unfold fire. destruct (move cfg tid s) eqn:Hm; [|exact Hp].
    eapply Hstep; eauto. }
  apply H; [apply train_inv_init|exact H0].
Qed.

Lemma chose_steps_app (tr1 tr2 : list Event) :
  chose_steps (tr1 ++ tr2) = chose_steps tr1 ++ chose_steps tr2.
Proof. apply flat_map_app. Qed.

Lemma env_steps_app (tr1 tr2 : list Event) :
  env_steps (tr1 ++ tr2) = env_steps tr1 ++ env_steps tr2.
Proof. apply flat_map_app. Qed.

Lemma chose_steps_env (tr : list Event) : chose_steps (env_events tr) = chose_steps tr.
Proof.
  induction tr as [|e tr IH]; [reflexivity|].
  unfold env_events in *. simpl. destruct e; simpl; now rewrite ?IH.
Qed.

Lemma env_steps_env (tr : list Event) : env_steps (env_events tr) = env_steps tr.
Proof.
  induction tr as [|e tr IH]; [reflexivity|].
  unfold env_events in *. simpl. destruct e; simpl; now rewrite ?IH.
Qed.

(** the two lemmas on a move, opened at the position of the thread *)
Ltac env_move Hm :=
  let He := fresh "He" in
  let Hd := fresh "Hd" in
  pose proof (run_env_effect _ _ _ Hm) as He;
  pose proof (env_move_data _ _ _ Hm) as Hd;
  unfold data_view in Hd;
  destruct He as (_ & ? & ? & He); cbv zeta in He.

Ltac nn_move Hm :=
  let He := fresh "He" in
  let Hd := fresh "Hd" in
  pose proof (train_model_effect _ _ _ Hm) as He;
  pose proof (train_model_data _ _ _ Hm) as Hd;
  unfold data_view in Hd;
  destruct He as (_ & ? & ? & He); cbv zeta in He.

Ltac to_new_pc :=
  repeat match goal with
         | H : env_pc ?s' = _ |- context [env_pc ?s'] => rewrite H
         | H : nn_pc ?s' = _ |- context [nn_pc ?s'] => rewrite H
         end.

Lemma wrap32_small (z : Z) : - 2 ^ 31 <= z <= 2 ^ 31 - 1 -> wrap32 z = z.
Proof. intros H. unfold wrap32. rewrite Z.mod_small; lia. Qed.

Lemma wrap32_range (z : Z) : - 2 ^ 31 <= wrap32 z <= 2 ^ 31 - 1.
Proof.
  unfold wrap32. pose proof (Z.mod_pos_bound (z + 2 ^ 31) (2 ^ 32)). lia.
Qed.

Lemma incremented_zero (x n : Z) : n <= 0 -> incremented x n = x.
Proof.
  intros H. unfold incremented. now replace (Z.to_nat n) with O by lia.
Qed.

Lemma incremented_succ (x n : Z) :
  0 <= n -> incremented x (n + 1) = wrap32 (incremented x n + 1).
Proof.
  intros H. unfold incremented.
  replace (Z.to_nat (n + 1)) with (S (Z.to_nat n)) by lia. reflexivity.
Qed.

(** as long as the counter does not pass the largest [int32], it counts *)
Lemma incremented_exact (x n : Z) :
  0 <= n -> (0 < n -> - 2 ^ 31 <= x /\ x + n <= 2 ^ 31 - 1) ->
  incremented x n = x + n.
Proof.
  intros Hn. pattern n. apply natlike_ind; [| |exact Hn].
  - intros _. rewrite incremented_zero; lia.
  - intros k Hk IH Hb. unfold Z.succ in *. rewrite incremented_succ by exact Hk.
    rewrite IH by lia. rewrite wrap32_small; lia.
Qed.

Lemma env_data_init (a : AgentT) : env_data_inv a (train a : SysT).
Proof.
  unfold env_data_inv. simpl. rewrite range_empty by lia.
  rewrite incremented_zero by lia. repeat split; lia.
Qed.

Lemma env_data_move cfg (a0 : AgentT) tid (s s' : SysT) :
  train_inv cfg (start_step a0) s -> env_data_inv a0 s ->
  move cfg tid s = Some s' -> env_data_inv a0 s'.
Proof.
  intros (Hh & Hr & _) (Ht & Hc & Hs) Hm. unfold env_data_inv.
  destruct Hh as [Hst _]. unfold env_in_range in Hr. rewrite Hst in Hr.
  destruct tid; simpl in Hm.
  - env_move Hm. injection Hd as -> _ _ -> _.
    rewrite chose_steps_app, env_steps_app, Hc, Hs, Ht.
    destruct (env_pc s) eqn:Hpc; open_effect; to_new_pc; rewrite ?Hst;
      try destruct (train_done (agent s)); simpl;
      rewrite ?app_nil_r; repeat split; try lia; try reflexivity;
      try (rewrite range_snoc by lia; reflexivity);
      try (f_equal; lia);
      try (replace (start_step a0 - start_step a0) with 0 by lia;
           now rewrite !incremented_zero by lia);
      try (rewrite <- incremented_succ by lia; f_equal; lia).
  - nn_move Hm. injection Hd as -> _ _ -> _. to_new_pc. auto.
Qed.

Lemma started_init cfg (a : AgentT) : started_inv cfg a (train a : SysT).
Proof.
  unfold started_inv. simpl. rewrite range_empty by lia. simpl.
  now rewrite !orb_false_r.
Qed.

Lemma started_move cfg (a0 : AgentT) tid (s s' : SysT) :
  train_inv cfg (start_step a0) s -> started_inv cfg a0 s ->
  move cfg tid s = Some s' -> started_inv cfg a0 s'.
Proof.
  intros (Hh & _ & Hr & Hb & _) Hs Hm. unfold started_inv in *.
  destruct Hh as [Hst _]. unfold nn_in_range in Hr. rewrite Hst in Hr.
  destruct tid; simpl in Hm.
  - env_move Hm. injection Hd as _ -> _ _ _. to_new_pc. exact Hs.
  - nn_move Hm. injection Hd as _ -> _ _ _.
    destruct (nn_pc s) eqn:Hpc; simpl in Hb; open_effect; to_new_pc;
      try destruct (act_chosen (agent s)); try destruct feed;
      simpl in *; rewrite ?Hs;
      try rewrite range_snoc by lia; rewrite ?existsb_app; simpl;
      unfold trains_at in *;
      repeat match goal with
             | H : train_due _ _ = _ |- _ => rewrite H in *
             end;
      rewrite ?orb_false_r, ?orb_true_r, ?andb_false_r, ?andb_true_r, ?orb_assoc;
      try reflexivity; try congruence.
Qed.

Lemma chosen_init cfg (a : AgentT) : chosen_inv cfg a (train a : SysT).
Proof. intros t b []. Qed.

Lemma chosen_ok_now cfg (a0 : AgentT) (t : Z) (am : bool) :
  start_step a0 <= t ->
  chosen_ok cfg a0 t
    (learn_started a0 || existsb (trains_at cfg) (range (start_step a0) t)
     || (am && trains_at cfg t)).
Proof.
  intros Ht. unfold chosen_ok, started_by.
  replace (t - 1 + 1) with t by lia.
  rewrite range_snoc by lia. rewrite existsb_app. simpl.
  destruct (learn_started a0), (existsb (trains_at cfg) (range (start_step a0) t)),
    am, (trains_at cfg t); reflexivity.
Qed.

Lemma chosen_move cfg (a0 : AgentT) tid (s s' : SysT) :
  train_inv cfg (start_step a0) s -> started_inv cfg a0 s -> chosen_inv cfg a0 s ->
  move cfg tid s = Some s' -> chosen_inv cfg a0 s'.
Proof.
  intros (Hh & Hr & _) Hs Hc Hm. unfold chosen_inv in *.
  destruct Hh as (Hst & j & Hph & _). apply phase_some in Hph.
  unfold env_in_range in Hr. rewrite Hst in Hr.
  destruct tid; simpl in Hm.
  - env_move Hm. injection Hd as _ _ _ -> _. clear He.
    intros t b Hin. apply in_app_or in Hin. destruct Hin as [Hin|Hin]; [auto|].
    destruct (env_pc s) eqn:Hpc; simpl in Hin; try contradiction;
      destruct Hin as [Hin|[]]; try discriminate.
    injection Hin as <- <-. simpl in Hph.
    assert (Hn : nn_t (nn_pc s) = t0) by (intuition (try discriminate; lia)).
    rewrite Hs, Hn. apply chosen_ok_now. lia.
  - nn_move Hm. injection Hd as _ _ _ -> _. exact Hc.
Qed.

Lemma through_same (p : Z -> bool) (start : Z) (pc pc' : NnPc (Feed := Feed)) :
  nn_t pc' = nn_t pc -> after_save pc = false -> after_save pc' = false ->
  through p start pc' = through p start pc.
Proof. unfold through. now intros -> -> ->. Qed.

Lemma through_next (p : Z -> bool) (start t : Z) :
  start <= t ->
  through (Feed := Feed) p start (N_head (t + 1)) =
  through (Feed := Feed) p start (N_signal t).
Proof.
  intros H. unfold through. simpl. rewrite range_snoc by lia.
  rewrite filter_app. simpl. now destruct (p t); rewrite app_nil_r.
Qed.

Lemma through_save (p : Z -> bool) (start t : Z) :
  through (Feed := Feed) p start (N_signal t) =
  through (Feed := Feed) p start (N_save t) ++ (if p t then [t] else []).
Proof. unfold through. simpl. now rewrite app_nil_r. Qed.

Lemma increments_bounds (start t : Z) (pc : EnvPc (Obs := Obs) (Act := Act) (Rew := Rew)) :
  env_t start pc = t + 1 -> start <= t ->
  increments start pc = t - start \/ increments start pc = t - start + 1.
Proof. destruct pc; simpl; lia. Qed.

Lemma save_init cfg (a : AgentT) : save_inv cfg a (train a : SysT).
Proof.
  unfold save_inv, through. simpl. rewrite range_empty by lia. split; [reflexivity|].
  exists [], []. simpl. repeat split. constructor.
Qed.

Lemma save_move cfg (a0 : AgentT) tid (s s' : SysT) :
  train_inv cfg (start_step a0) s -> env_data_inv a0 s -> started_inv cfg a0 s ->
  save_inv cfg a0 s -> move cfg tid s = Some s' -> save_inv cfg a0 s'.
Proof.
  intros (Hh & _ & Hr & _) (Htf & _) Hls (Hsc & new & snaps & Hck & Hmon & Hw & Hlen) Hm.
  unfold save_inv.
  destruct Hh as (Hst & j & Hph & _). apply phase_some in Hph.
  unfold nn_in_range in Hr. rewrite Hst in Hr.
  destruct tid; simpl in Hm.
  - pose proof (env_move_saver _ _ _ Hm) as Hsav.
    env_move Hm. injection Hd as _ _ -> _ ->. rewrite Hsav. to_new_pc.
    split; [assumption|]. exists new, snaps. auto.
  - pose proof (train_model_saver _ _ _ Hm) as Hsav.
    nn_move Hm. injection Hd as _ _ Hdisk _ Hcalls.
    assert (Hcases :
      (nn_t (nn_pc s') = nn_t (nn_pc s) /\ after_save (nn_pc s) = false /\
       after_save (nn_pc s') = false /\ disk (agent s') = disk (agent s) /\
       saver (agent s') = saver (agent s) /\
       save_calls (trace (agent s')) = save_calls (trace (agent s))) \/
      (exists t, nn_pc s = N_save t /\ nn_pc s' = N_signal t) \/
      (exists t, nn_pc s = N_signal t /\ nn_pc s' = N_head (t + 1))).
    { destruct (nn_pc s) eqn:Hpc; open_effect; rewrite ?app_nil_r in Hcalls;
        eauto;
        left; to_new_pc; try destruct (act_chosen (agent s)); try destruct feed;
        simpl; auto 10. }
    destruct Hcases as [(Ht & Ha & Ha' & Hd & Hv & Hc)|[(t & Hpc & Hpc')|(t & Hpc & Hpc')]].
    + rewrite Hd, Hv, Hc, !(through_same _ _ _ _ Ht Ha Ha').
      split; [assumption|]. exists new, snaps. auto.
    + rewrite Hpc in *. rewrite Hpc', !through_save, Hcalls, Hsc. simpl in Hph.
      split; [reflexivity|].
      unfold started_inv in Hls. rewrite Hpc in Hls. simpl in Hls.
      assert (Hsb : learn_started (agent s) =
                    started_by cfg (learn_started a0) (start_step a0) t).
      { unfold started_by. rewrite range_snoc by lia. rewrite existsb_app. simpl.
        rewrite Hls, orb_false_r. now rewrite orb_assoc. }
      unfold saves_at. rewrite <- Hsb.
      destruct (save_at cfg t); simpl;
        [|exists new, snaps; rewrite Hdisk, Hsav, !app_nil_r; auto].
      destruct (learn_started (agent s)) eqn:Hl.
      * rewrite (save_started _ Hl) in Hdisk, Hsav. cbv zeta in Hdisk, Hsav.
        cbn [fst disk saver set_saver set_disk] in Hdisk, Hsav.
        exists (new ++ [mkCheckpoint (graph (agent s)) (params (agent s))
                          (target (agent s)) (t_tf (agent s)) (t_tf (agent s))]),
               (monitor_snapshot (world (agent s)) :: snaps).
        rewrite Hdisk, Hsav, fold_left_app, <- Hck. cbn [fold_left checkpoints monitor_saves].
        rewrite Hmon.
        split; [now destruct (put _ _)|]. split; [reflexivity|]. split.
        -- apply Forall2_app; [exact Hw|]. constructor; [|constructor].
           split; [reflexivity|]. cbn [ck_global_step]. rewrite Htf.
           assert (Hb : increments (start_step a0) (env_pc s) = t - start_step a0 \/
                        increments (start_step a0) (env_pc s) = t - start_step a0 + 1).
           { apply increments_bounds; intuition (try discriminate; lia). }
           destruct Hb as [-> | ->]; auto.
        -- rewrite length_app. simpl. lia.
      * rewrite (save_not_started _ Hl) in Hdisk, Hsav. simpl in Hdisk, Hsav.
        exists new, snaps. rewrite Hdisk, Hsav, !app_nil_r. auto.
    + rewrite Hpc in *. rewrite Hpc', !through_next by lia.
      rewrite app_nil_r in Hcalls. rewrite Hdisk, Hsav, Hcalls.
      split; [assumption|]. exists new, snaps. auto.
Qed.

Lemma evals_of_calls_snoc cfg (k : nat) : forall r,
  evals_of_calls cfg r (S k) =
  evals_of_calls cfg r k
  ++ EvalStart (r + Z.of_nat k)
     :: map (fun t => EvalStep t EvalMode) (eval_range cfg (r + Z.of_nat k)).
Proof.
  induction k as [|k IH]; intros r.
  - simpl. rewrite app_nil_r. now replace (r + 0) with r by lia.
  - change (evals_of_calls cfg r (S (S k)))
      with ((EvalStart r :: map (fun t => EvalStep t EvalMode) (eval_range cfg r))
            ++ evals_of_calls cfg (r + 1) (S k)).
    rewrite IH. simpl. rewrite <- app_assoc. simpl.
    now replace (r + 1 + Z.of_nat k) with (r + Z.pos (Pos.of_succ_nat k)) by lia.
Qed.

Lemma evals_of_steps (ts : list Z) :
  filter is_eval (map (fun t => EvalStep t EvalMode) ts)
  = map (fun t => EvalStep t EvalMode) ts.
Proof. induction ts; simpl; congruence. Qed.

Lemma eval_view_of_eval cfg (a : AgentT) :
  log_freq cfg <> 0 ->
  eval_view (fst (eval cfg a)) =
    (evals (trace a)
     ++ EvalStart (eval_runs a + 1)
        :: map (fun t => EvalStep t EvalMode) (eval_range cfg (eval_runs a + 1)),
     eval_runs a + 1).
Proof.
  intros Hlog. destruct (eval_spec cfg a) as [Hr H].
  destruct (H Hlog) as (_ & _ & Ht). unfold eval_view, evals. rewrite Hr, Ht.
  rewrite filter_app. simpl. now rewrite evals_of_steps.
Qed.

Lemma evals_upto_act cfg (start t : Z) (obs : Obs) :
  start <= t ->
  evals_upto (Act := Act) (Rew := Rew) cfg start (E_act t obs) =
  (evals_upto (Act := Act) (Rew := Rew) cfg start (E_eval t obs)
   + (if eval_at cfg t then 1 else 0))%nat.
Proof.
  intros H. unfold evals_upto. simpl. rewrite range_snoc by lia.
  rewrite filter_app, length_app. simpl. now destruct (eval_at cfg t).
Qed.

Lemma eval_init cfg (a : AgentT) : eval_inv cfg a (train a : SysT).
Proof.
  unfold eval_inv, evals_upto. simpl. rewrite range_empty by lia. simpl.
  unfold eval_view. simpl. f_equal. lia.
Qed.

Lemma eval_move cfg (a0 : AgentT) tid (s s' : SysT) :
  log_freq cfg <> 0 ->
  train_inv cfg (start_step a0) s -> eval_inv cfg a0 s ->
  move cfg tid s = Some s' -> eval_inv cfg a0 s'.
Proof.
  intros Hlog (Hh & Hr & _) Hi Hm. unfold eval_inv in *.
  destruct Hh as (Hst & _). unfold env_in_range in Hr. rewrite Hst in Hr.
  pose proof (move_effect _ _ _ _ Hm) as He.
  destruct tid; destruct He as (_ & _ & Hpc' & He); cbv zeta in He.
  - destruct (env_pc s) eqn:Hpc.
    6: { (* E_eval *)
      destruct (eval_due cfg t) as [[|]|] eqn:Hdue; open_effect;
        try contradiction; to_new_pc;
        rewrite ?evals_upto_act by lia; unfold eval_at; rewrite ?Hdue;
        repeat match goal with H : agent _ = _ |- _ => rewrite H end;
        rewrite ?Nat.add_0_r; try exact Hi.
      rewrite eval_view_of_eval by exact Hlog.
      unfold eval_view in Hi. injection Hi as Hev Hrn. rewrite Hev, Hrn.
      rewrite Nat.add_1_r, evals_of_calls_snoc. f_equal; [|lia].
      match goal with
      | |- context [EvalStart (?r + ?k + 1)] =>
          replace (r + k + 1) with (r + 1 + k) by lia
      end.
      reflexivity. }
    all: open_effect; to_new_pc; rewrite ?Hst;
      try match goal with |- context [if ?b then _ else _] => destruct b end;
      unfold evals_upto in *; cbn [evaluated_upto] in *;
      unfold eval_view in *;
      repeat match goal with H : agent _ = _ |- _ => rewrite H end;
      rewrite ?evals_record; simpl; rewrite ?app_nil_r; try congruence.
  - rewrite Hpc'.
    destruct (nn_pc s) eqn:Hpc;
      open_effect; unfold eval_view in *;
      repeat match goal with H : agent _ = _ |- _ => rewrite H end;
      rewrite ?evals_record; simpl; rewrite ?app_nil_r; congruence.
Qed.

Lemma data_inv_run cfg (a : AgentT) (sched : list Tid) :
  let s : SysT := run cfg sched (train a) in
  env_data_inv a s /\ started_inv cfg a s /\ chosen_inv cfg a s /\ save_inv cfg a s.
Proof.
  apply (run_invariant cfg a
           (fun s => env_data_inv a s /\ started_inv cfg a s /\
                     chosen_inv cfg a s /\ save_inv cfg a s)).
  - split; [|split; [|split]];
      [apply env_data_init|apply started_init|apply chosen_init|apply save_init].
  - intros tid s s' Hi (He & Hs & Hc & Hv) Hm. split; [|split; [|split]].
    + eapply env_data_move; eauto.
    + eapply started_move; eauto.
    + eapply chosen_move; eauto.
    + eapply save_move; eauto.
Qed.

Lemma eval_inv_run cfg (a : AgentT) (sched : list Tid) :
  log_freq cfg <> 0 -> eval_inv cfg a (run cfg sched (train a) : SysT).
Proof.
  intros Hlog. apply (run_invariant cfg a (eval_inv cfg a)).
  - apply eval_init.
  - intros tid s s' Hi He Hm. eapply eval_move; eauto.
Qed.

(** where a thread that returned stands *)
Lemma env_finished_head cfg start (s : SysT) :
  train_inv cfg start s -> env_status s = Finished ->
  exists t obs, env_pc s = E_head t obs /\ start <= t /\ stop_step cfg < t /\
                (t = stop_step cfg + 1 \/ (t = start /\ stop_step cfg < start)).
Proof.
  intros ((Hst & _) & Hr & _) Hf. unfold env_in_range in Hr. rewrite Hst in Hr.
  destruct (env_pc s); try (exfalso; intuition congruence).
  exists t, obs. destruct Hr as (? & ? & Hs). specialize (Hs Hf).
  repeat split; try lia.
Qed.

Lemma nn_finished_head cfg start (s : SysT) :
  train_inv cfg start s -> nn_status s = Finished ->
  exists t, nn_pc s = N_head t /\ start <= t /\ stop_step cfg < t /\
            (t = stop_step cfg + 1 \/ (t = start /\ stop_step cfg < start)).
Proof.
  intros ((Hst & _) & _ & Hr & _) Hf. unfold nn_in_range in Hr. rewrite Hst in Hr.
  destruct (nn_pc s); try (exfalso; intuition congruence).
  exists t. destruct Hr as (? & ? & Hs). specialize (Hs Hf).
  repeat split; try lia.
Qed.

Lemma range_upto_stop (start stop t : Z) :
  t = stop + 1 \/ (t = start /\ stop < start) -> range start t = range start (stop + 1).
Proof.
  intros [->|[-> H]]; [reflexivity|]. now rewrite !range_empty by lia.
Qed.

Lemma through_finished (p : Z -> bool) (start stop t : Z) :
  t = stop + 1 \/ (t = start /\ stop < start) ->
  through (Feed := Feed) p start (N_head t) = filter p (range start (stop + 1)).
Proof.
  intros H. unfold through. simpl. now rewrite app_nil_r, (range_upto_stop _ stop).
Qed.

(** ** The step counter *)

(** X2. Under every schedule the counter [t_tf], an [int32] variable, is
    its value at the call of [train()] after as many runs of the increment
    [tf.assign(t_tf, t_tf + 1)], which wraps around past [2^31 - 1], as the
    environment thread has made: one per step taken, never more than the
    steps of the run, and exactly that many once the environment thread has
    returned.  As long as the sum stays within [int32], the counter is its
    value at the call plus that number. *)
Theorem counter_follows_steps cfg (a : AgentT) (sched : list Tid) :
  let s : SysT := run cfg sched (train a) in
  let n := increments (start_step a) (env_pc s) in
  let steps := Z.of_nat (steps_of_run (start_step a) (stop_step cfg)) in
  t_tf (agent s) = incremented (t_tf a) n /\
  0 <= n <= steps /\
  (env_status s = Finished -> t_tf (agent s) = incremented (t_tf a) steps) /\
  (- 2 ^ 31 <= t_tf a -> t_tf a + n <= 2 ^ 31 - 1 -> t_tf (agent s) = t_tf a + n).
Proof.
  intros s n steps.
  destruct (data_inv_run cfg a sched) as ((Ht & _) & _). fold s in Ht. fold n in Ht.
  assert (Hi : train_inv cfg (start_step a) s) by (apply train_inv_run, train_inv_init).
  assert (Hn : 0 <= n <= steps).
  { destruct Hi as ((Hst & _) & Hr & _). unfold env_in_range in Hr. rewrite Hst in Hr.
    unfold n, steps, steps_of_run. destruct (env_pc s); simpl; lia. }
  split; [exact Ht|]. split; [exact Hn|]. split.
  - intros Hf. destruct (env_finished_head cfg _ s Hi Hf) as (t & obs & Hpc & ? & ? & ?).
    rewrite Ht. f_equal. unfold n, steps, steps_of_run. rewrite Hpc. simpl. lia.
  - intros Hlo Hhi. rewrite Ht. apply incremented_exact; lia.
Qed.

(** ** The steps of the environment thread *)

(** X3. Under every schedule the environment thread has chosen one action
    and stored one transition for each step it is through, in the order of
    the steps and with the action of a step chosen before its transition is
    stored; once it has returned it has done both for every step of
    [range(start_step, stop_step + 1)]. *)
Theorem steps_in_order cfg (a : AgentT) (sched : list Tid) :
  let s : SysT := run cfg sched (train a) in
  let start := start_step a in
  chose_steps (trace (agent s)) = range start (acted_upto start (env_pc s)) /\
  env_steps (trace (agent s)) = range start (stored_upto start (env_pc s)) /\
  stored_upto start (env_pc s) <= acted_upto start (env_pc s)
    <= stored_upto start (env_pc s) + 1 /\
  (env_status s = Finished ->
   chose_steps (trace (agent s)) = range start (stop_step cfg + 1) /\
   env_steps (trace (agent s)) = range start (stop_step cfg + 1)).
Proof.
  intros s start.
  destruct (data_inv_run cfg a sched) as ((_ & Hc & Hs) & _).
  fold s in Hc, Hs. fold start in Hc, Hs.
  rewrite chose_steps_env in Hc. rewrite env_steps_env in Hs.
  assert (Hi : train_inv cfg start s) by (apply train_inv_run, train_inv_init).
  repeat split; try assumption.
  - destruct (env_pc s); simpl; lia.
  - destruct (env_pc s); simpl; lia.
  - destruct (env_finished_head cfg _ s Hi H) as (t & obs & Hpc & _ & _ & Ht).
    rewrite Hc, Hpc. simpl. now apply range_upto_stop.
  - destruct (env_finished_head cfg _ s Hi H) as (t & obs & Hpc & _ & _ & Ht).
    rewrite Hs, Hpc. simpl. now apply range_upto_stop.
Qed.

(** ** Where the actions come from *)

Lemma trains_at_due cfg t : trains_at cfg t = true <-> train_due cfg t = Some true.
Proof.
  unfold trains_at. destruct (train_due cfg t) as [[|]|]; split; congruence.
Qed.

Lemma started_by_true cfg (ls : bool) (start t : Z) :
  started_by cfg ls start t = true ->
  ls = true \/ exists t', start <= t' <= t /\ train_due cfg t' = Some true.
Proof.
  unfold started_by. intros H. apply orb_true_iff in H. destruct H as [H|H]; [now left|].
  right. apply existsb_exists in H. destruct H as (t' & Hin & Ht).
  apply in_range in Hin. apply trains_at_due in Ht. exists t'. split; [lia|exact Ht].
Qed.

Lemma started_by_false cfg (ls : bool) (start t : Z) :
  started_by cfg ls start t = false ->
  ls = false /\ forall t', start <= t' <= t -> train_due cfg t' <> Some true.
Proof.
  unfold started_by. intros H. apply orb_false_iff in H. destruct H as [Hl H].
  split; [exact Hl|]. intros t' Ht' Hd. apply trains_at_due in Hd.
  assert (He : existsb (trains_at cfg) (range start (t + 1)) = true).
  { apply existsb_exists. exists t'. split; [apply in_range; lia|exact Hd]. }
  congruence.
Qed.

Lemma in_chose_steps (tr : list Event) (t : Z) (b : bool) :
  In (Chose t b) tr -> In t (chose_steps tr).
Proof.
  intros H. unfold chose_steps. apply in_flat_map. exists (Chose t b).
  split; [exact H|now left].
Qed.

(** X4. Under every schedule, an action that [_run_env] let the networks
    choose at step [t] was chosen when learning had started: the agent was
    restored, or the guard of training held at some step up to [t]; an
    action it sampled from the environment was chosen when the guard had
    held at no step before [t].  At the first step at which the guard
    holds either may happen. *)
Theorem action_source cfg (a : AgentT) (sched : list Tid) (t : Z) (b : bool) :
  In (Chose t b) (trace (agent (run cfg sched (train a) : SysT))) ->
  start_step a <= t <= stop_step cfg /\
  (b = true ->
   learn_started a = true \/
   exists t', start_step a <= t' <= t /\ train_due cfg t' = Some true) /\
  (b = false ->
   learn_started a = false /\
   forall t', start_step a <= t' < t -> train_due cfg t' <> Some true).
Proof.
  intros Hin. set (s := run cfg sched (train a) : SysT) in *.
  destruct (data_inv_run cfg a sched) as ((_ & Hc & _) & _ & Hch & _).
  fold s in Hc, Hch.
  assert (Hi : train_inv cfg (start_step a) s) by (apply train_inv_run, train_inv_init).
  split.
  - apply in_chose_steps in Hin. rewrite <- chose_steps_env, Hc in Hin.
    apply in_range in Hin.
    destruct Hi as ((Hst & _) & Hr & _). unfold env_in_range in Hr. rewrite Hst in Hr.
    destruct (env_pc s); simpl in Hin; lia.
  - assert (Hok : chosen_ok cfg a t b).
    { apply Hch. unfold env_events. apply filter_In. split; [exact Hin|reflexivity]. }
    unfold chosen_ok in Hok. split; intros ->.
    + now apply started_by_true.
    + apply started_by_false in Hok. destruct Hok as [Hl Hn].
      split; [exact Hl|]. intros t' Ht'. apply Hn. lia.
Qed.

(** X5. [learn_started] is never reset during a run: it is true at a
    point of a run only if it was true at the call of [train()] or the
    guard of training held at a step the learner has reached, and once the
    learner has returned it is true exactly if one of the two is the case
    for the steps of the run. *)
Theorem learning_starts_once cfg (a : AgentT) (sched : list Tid) :
  let s : SysT := run cfg sched (train a) in
  (learn_started a = true -> learn_started (agent s) = true) /\
  (learn_started (agent s) = true ->
   learn_started a = true \/
   exists t, start_step a <= t <= nn_t (nn_pc s) /\ t <= stop_step cfg /\
             train_due cfg t = Some true) /\
  (nn_status s = Finished ->
   learn_started (agent s) =
   started_by cfg (learn_started a) (start_step a) (stop_step cfg)).
Proof.
  intros s.
  destruct (data_inv_run cfg a sched) as (_ & Hs & _). fold s in Hs.
  unfold started_inv in Hs.
  assert (Hi : train_inv cfg (start_step a) s) by (apply train_inv_run, train_inv_init).
  split; [|split].
  - intros Hl. rewrite Hs, Hl. reflexivity.
  - intros Hl. rewrite Hs in Hl.
    apply orb_true_iff in Hl. destruct Hl as [Hl|Hl];
      [apply orb_true_iff in Hl; destruct Hl as [Hl|Hl]|].
    + now left.
    + right. apply existsb_exists in Hl. destruct Hl as (t & Hin & Ht).
      apply in_range in Hin. apply trains_at_due in Ht.
      destruct Hi as ((Hst & _) & _ & Hr & _). unfold nn_in_range in Hr.
      rewrite Hst in Hr. exists t. repeat split; try lia; try exact Ht.
      destruct (nn_pc s); simpl in *; lia.
    + right. apply andb_true_iff in Hl. destruct Hl as [Ham Ht].
      apply trains_at_due in Ht.
      destruct Hi as ((Hst & _) & _ & Hr & _). unfold nn_in_range in Hr.
      rewrite Hst in Hr. exists (nn_t (nn_pc s)). repeat split; try exact Ht;
        destruct (nn_pc s); simpl in *; try discriminate; lia.
  - intros Hf. destruct (nn_finished_head cfg _ s Hi Hf) as (t & Hpc & _ & _ & Ht).
    rewrite Hs, Hpc. simpl. rewrite orb_false_r.
    unfold started_by. now rewrite (range_upto_stop _ (stop_step cfg)).
Qed.

(** ** The model directory *)

Lemma in_save_calls (tr : list Event) (t : Z) :
  In (SaveCall t) tr -> In t (save_calls tr).
Proof.
  intros H. unfold save_calls. apply in_flat_map. exists (SaveCall t).
  split; [exact H|now left].
Qed.

Lemma through_none (p : Z -> bool) (start : Z) (pc : NnPc (Feed := Feed)) :
  (forall t, p t = false) -> through p start pc = [].
Proof.
  intros H. unfold through. rewrite H, andb_false_r, app_nil_r.
  induction (range start (nn_t pc)) as [|t l IH]; simpl; [reflexivity|].
  now rewrite H.
Qed.

Lemma save_due_off cfg t : save_freq cfg <= 0 -> save_due cfg t = Some false.
Proof.
  intros H. unfold save_due. now destruct (Z.ltb_spec 0 (save_freq cfg)); [lia|].
Qed.

(** what is in the directory after some saves was there before or is one
    of the checkpoints saved *)
Lemma fold_put_in (new : list CkT) : forall (st : list CkT * nat) (c : CkT),
  In c (fst (fold_left put new st)) -> In c (fst st) \/ In c new.
Proof.
  induction new as [|ck new IH]; intros st c H; simpl in *; [now left|].
  apply IH in H. destruct H as [H|H]; [|now right; right].
  apply put_in in H. destruct H as [->|[H _]]; [right; now left|now left].
Qed.

(** the checkpoint saved last is the newest, and the saver remembers it *)
Lemma fold_put_last (new : list CkT) (ck : CkT) (st : list CkT * nat) :
  let st' := fold_left put (new ++ [ck]) st in
  (exists rest, fst st' = ck :: rest) /\ (1 <= snd st' <= max_to_keep)%nat.
Proof.
  cbv zeta. rewrite fold_left_app. cbn [fold_left].
  split; [|apply put_kept].
  destruct (fold_left put new st) as [cks k]. rewrite put_spec. cbn [fst]. eauto.
Qed.

(** X6. Under every schedule the learner has called [save()] at the steps
    it is through at which [save_freq > 0 and t % save_freq == 0] held, in
    order, and each call made once learning had started has written one set
    of monitor statistics and handed one checkpoint to the saver.  The
    saver, made with [max_to_keep=2], keeps the two newest checkpoints it
    has written and deletes the ones it wrote before them, and a checkpoint
    replaces the one of the same global step.  So every checkpoint of the
    directory was there at the call of [train()] or was written during the
    run, and the newest one is the one written last.  The global step of
    the checkpoint of step [t] is the counter [t_tf], read before or after
    the environment thread incremented it for that step. *)
Theorem checkpoints_of_run cfg (a : AgentT) (sched : list Tid) :
  let s : SysT := run cfg sched (train a) in
  let start := start_step a in
  let called := through (save_at cfg) start (nn_pc s) in
  let written := through (saves_at cfg (learn_started a) start) start (nn_pc s) in
  save_calls (trace (agent s)) = called /\
  (exists new snaps,
     (checkpoints (disk (agent s)), saver (agent s))
       = fold_left put new (checkpoints (disk a), saver a) /\
     monitor_saves (disk (agent s)) = snaps ++ monitor_saves (disk a) /\
     List.length snaps = List.length new /\
     Forall2 (written_at a) written new /\
     (forall c, In c (checkpoints (disk (agent s))) ->
                In c (checkpoints (disk a)) \/ In c new) /\
     (forall ts t, written = ts ++ [t] ->
        (1 <= saver (agent s) <= max_to_keep)%nat /\
        exists ck rest,
          checkpoints (disk (agent s)) = ck :: rest /\ written_at a t ck)) /\
  (nn_status s = Finished ->
   called = filter (save_at cfg) (range start (stop_step cfg + 1)) /\
   written = filter (saves_at cfg (learn_started a) start) (range start (stop_step cfg + 1))).
Proof.
  intros s start called written.
  destruct (data_inv_run cfg a sched) as (_ & _ & _ & Hc & new & snaps & Hck & Hm & Hw & Hl).
  fold s in Hc, Hck, Hm, Hw. fold start in Hc, Hw. fold written in Hw.
  split; [exact Hc|]. split.
  - exists new, snaps. split; [exact Hck|]. split; [exact Hm|]. split; [exact Hl|].
    split; [exact Hw|]. split.
    + intros c Hin.
      change (In c (fst (checkpoints (disk (agent s)), saver (agent s)))) in Hin.
      rewrite Hck in Hin. apply fold_put_in in Hin. exact Hin.
    + intros ts t Hts. rewrite Hts in Hw. apply Forall2_app_inv_l in Hw.
      destruct Hw as (l1 & l2 & _ & H2 & ->).
      inversion H2 as [|t' ck l l' Hwr Hnil]; subst. inversion Hnil; subst.
      destruct (fold_put_last l1 ck (checkpoints (disk a), saver a)) as [[rest Hr] Hk].
      cbv zeta in Hr, Hk. rewrite <- Hck in Hr, Hk. cbn [fst snd] in Hr, Hk.
      split; [exact Hk|]. exists ck, rest. split; [exact Hr|exact Hwr].
  - intros Hf.
    assert (Hi : train_inv cfg start s) by (apply train_inv_run, train_inv_init).
    destruct (nn_finished_head cfg _ s Hi Hf) as (t & Hpc & _ & _ & Ht).
    unfold called, written. rewrite Hpc. split; now apply through_finished.
Qed.

(** X7. With [save_freq <= 0] nothing is saved: the guard of [save()] is
    false at every step without evaluating [t % save_freq], and under every
    schedule [save()] is never called, so that the checkpoints and the
    monitor's statistics of the model directory, and what the saver
    remembers, stay as they were at the call of [train()].  (The TensorBoard
    events that [_log_stats] and [eval()] write under [tb/] are not part of
    [disk].) *)
Theorem no_saving_without_period cfg (a : AgentT) (sched : list Tid) :
  save_freq cfg <= 0 ->
  let s : SysT := run cfg sched (train a) in
  (forall t, save_due cfg t = Some false) /\
  (forall t, ~ In (SaveCall t) (trace (agent s))) /\
  disk (agent s) = disk a /\
  saver (agent s) = saver a.
Proof.
  intros Hs s.
  assert (Hoff : forall t, save_at cfg t = false).
  { intros t. unfold save_at. now rewrite save_due_off. }
  destruct (data_inv_run cfg a sched) as (_ & _ & _ & Hc & new & snaps & Hck & Hm & Hw & Hl).
  fold s in Hc, Hck, Hm, Hw.
  rewrite (through_none _ _ _ Hoff) in Hc.
  rewrite through_none in Hw by (intros t; unfold saves_at; now rewrite Hoff).
  inversion Hw; subst new. destruct snaps; [|discriminate]. simpl in Hck, Hm.
  injection Hck as Hck Hsv.
  split; [intros t; now apply save_due_off|]. split; [|split].
  - intros t Hin. apply in_save_calls in Hin. rewrite Hc in Hin. contradiction.
  - destruct (disk (agent s)), (disk a). simpl in *. congruence.
  - exact Hsv.
Qed.

(** ** Evaluation during training *)

Lemma eval_steps_app (tr1 tr2 : list Event) :
  eval_steps (tr1 ++ tr2) = eval_steps tr1 ++ eval_steps tr2.
Proof. apply flat_map_app. Qed.

Lemma eval_steps_evals (tr : list Event) : eval_steps (evals tr) = eval_steps tr.
Proof.
  induction tr as [|e tr IH]; [reflexivity|].
  unfold evals in *. simpl. destruct e; simpl; now rewrite ?IH.
Qed.

Lemma eval_steps_of_calls cfg (k : nat) : forall r,
  0 <= eval_len cfg ->
  eval_steps (evals_of_calls cfg r k) =
  range (eval_len cfg * r + 1) (eval_len cfg * (r + Z.of_nat k) + 1).
Proof.
  induction k as [|k IH]; intros r Hl.
  - simpl. rewrite range_empty; [reflexivity|]. rewrite Z.add_0_r. lia.
  - cbn [evals_of_calls]. rewrite eval_steps_app. simpl.
    rewrite eval_steps_of_steps, IH by exact Hl. unfold eval_range.
    symmetry.
    replace (eval_len cfg * (r + 1 + Z.of_nat k) + 1)
      with (eval_len cfg * (r + Z.of_nat (S k)) + 1) by lia.
    replace (eval_len cfg * (r + 1) + 1)
      with (eval_len cfg + (eval_len cfg * r + 1)) by lia.
    apply range_app. nia.
Qed.

(** X8. While [log_freq] is not zero, the calls of [eval()] that
    [_run_env] makes are one for each step it is through at which
    [eval_len > 0 and t % eval_freq == 0] held: the run counter has grown
    by their number, each call has recorded its run and the steps of its
    loop in evaluation mode, and the evaluation steps of all the calls, put
    end to end, are one range without a gap or a repetition. *)
Theorem evals_of_run cfg (a : AgentT) (sched : list Tid) :
  log_freq cfg <> 0 ->
  let s : SysT := run cfg sched (train a) in
  let k := evals_upto cfg (start_step a) (env_pc s) in
  let r := eval_runs a + 1 in
  eval_runs (agent s) = eval_runs a + Z.of_nat k /\
  evals (trace (agent s)) = evals_of_calls cfg r k /\
  (0 <= eval_len cfg ->
   eval_steps (trace (agent s)) =
   range (eval_len cfg * r + 1) (eval_len cfg * (r + Z.of_nat k) + 1)) /\
  (env_status s = Finished ->
   k = List.length (filter (eval_at cfg) (range (start_step a) (stop_step cfg + 1)))).
Proof.
  intros Hlog s k r.
  pose proof (eval_inv_run cfg a sched Hlog) as Hi. fold s in Hi.
  unfold eval_inv in Hi. fold k in Hi. fold r in Hi. unfold eval_view in Hi.
  injection Hi as Hev Hr.
  split; [exact Hr|]. split; [exact Hev|]. split.
  - intros Hl. rewrite <- eval_steps_evals, Hev. now apply eval_steps_of_calls.
  - intros Hf.
    assert (Ht : train_inv cfg (start_step a) s) by (apply train_inv_run, train_inv_init).
    destruct (env_finished_head cfg _ s Ht Hf) as (t & obs & Hpc & _ & _ & Hx).
    unfold k, evals_upto. rewrite Hpc. simpl.
    now rewrite (range_upto_stop _ (stop_step cfg)).
Qed.

(** ** When a thread raises *)

Lemma nn_stopped_fire cfg tid (s : SysT) :
  nn_status s <> Running ->
  nn_status (fire cfg s tid) = nn_status s /\ nn_pc (fire cfg s tid) = nn_pc s.
Proof.
  intros H. unfold fire. destruct (move cfg tid s) as [s'|] eqn:Hm; [|auto].
  destruct tid; simpl in Hm.
  - apply run_env_effect in Hm. destruct Hm as (_ & ? & ? & _). auto.
  - unfold _train_model in Hm. destruct (nn_status s); congruence.
Qed.

Lemma env_stopped_fire cfg tid (s : SysT) :
  env_status s <> Running ->
  env_status (fire cfg s tid) = env_status s /\ env_pc (fire cfg s tid) = env_pc s.
Proof.
  intros H. unfold fire. destruct (move cfg tid s) as [s'|] eqn:Hm; [|auto].
  destruct tid; simpl in Hm.
  - unfold _run_env in Hm. destruct (env_status s); congruence.
  - apply train_model_effect in Hm. destruct Hm as (_ & ? & ? & _). auto.
Qed.

Lemma nn_stopped_run cfg sched : forall s : SysT,
  nn_status s <> Running ->
  nn_status (run cfg sched s) = nn_status s /\ nn_pc (run cfg sched s) = nn_pc s.
Proof.
  induction sched as [|tid sched IH]; intros s H; simpl; [auto|].
  destruct (nn_stopped_fire cfg tid s H) as [Hs Hp].
  destruct (IH (fire cfg s tid)) as [Hs' Hp']; [congruence|]. split; congruence.
Qed.

Lemma env_stopped_run cfg sched : forall s : SysT,
  env_status s <> Running ->
  env_status (run cfg sched s) = env_status s /\ env_pc (run cfg sched s) = env_pc s.
Proof.
  induction sched as [|tid sched IH]; intros s H; simpl; [auto|].
  destruct (env_stopped_fire cfg tid s H) as [Hs Hp].
  destruct (IH (fire cfg s tid)) as [Hs' Hp']; [congruence|]. split; congruence.
Qed.

Lemma run_app cfg (sched sched' : list Tid) (s : SysT) :
  run cfg (sched ++ sched') s = run cfg sched' (run cfg sched s).
Proof. unfold run. apply fold_left_app. Qed.

(** a thread that returned has left the other at most one signal short *)
Lemma finished_other cfg start (s : SysT) :
  train_inv cfg start s ->
  (env_status s = Finished -> stop_step cfg <= nn_t (nn_pc s)) /\
  (nn_status s = Finished -> stop_step cfg < env_t start (env_pc s)).
Proof.
  intros Hi. pose proof Hi as ((_ & j & Hph & _) & _). apply phase_some in Hph.
  split; intros Hf.
  - destruct (env_finished_head cfg _ s Hi Hf) as (t & obs & Hpc & _ & Ht & _).
    rewrite Hpc in Hph. simpl in Hph. lia.
  - destruct (nn_finished_head cfg _ s Hi Hf) as (t & Hpc & _ & Ht & _).
    rewrite Hpc in Hph. simpl in Hph. lia.
Qed.

(** X9. An exception ends the thread that raised it and nothing else:
    the thread stays where it raised, and the other thread never gets to
    the end of its loop, unless the exception came in the last step.  A
    learner that raised at a step before [stop_step] leaves the
    environment thread short of its end under every continuation of the
    schedule, and so does an environment thread that raised before
    signalling the action of a step, or before the last step, leave the
    learner. *)
Theorem raise_blocks_other cfg (a : AgentT) (sched sched' : list Tid) (e : Exn) :
  let s : SysT := run cfg sched (train a) in
  let s' : SysT := run cfg sched' s in
  (nn_status s = Raised e ->
   nn_status s' = Raised e /\ nn_pc s' = nn_pc s /\
   (nn_t (nn_pc s) < stop_step cfg -> env_status s' <> Finished)) /\
  (env_status s = Raised e ->
   env_status s' = Raised e /\ env_pc s' = env_pc s /\
   (env_t (start_step a) (env_pc s) <= stop_step cfg -> nn_status s' <> Finished)).
Proof.
  intros s s'.
  assert (Hi : train_inv cfg (start_step a) s').
  { unfold s', s. rewrite <- run_app. apply train_inv_run, train_inv_init. }
  destruct (finished_other cfg _ s' Hi) as [He Hn].
  split; intros Hr.
  - destruct (nn_stopped_run cfg sched' s) as [Hs Hp]; [congruence|].
    fold s' in Hs, Hp. repeat split; try congruence.
    intros Hlt Hf. specialize (He Hf). rewrite Hp in He. lia.
  - destruct (env_stopped_run cfg sched' s) as [Hs Hp]; [congruence|].
    fold s' in Hs, Hp. repeat split; try congruence.
    intros Hlt Hf. specialize (Hn Hf). rewrite Hp in Hn. lia.
Qed.

(** ** A run that may raise *)

Lemma no_raise_of_raised (s : SysT) : raised s = false -> no_raise s.
Proof.
  unfold raised, no_raise. intros H.
  split; intros e He; rewrite He in H; [discriminate|].
  destruct (env_status s); discriminate.
Qed.

Lemma raised_fire cfg tid (s : SysT) : raised s = true -> raised (fire cfg s tid) = true.
Proof.
  unfold raised. intros H.
  destruct (env_status s) eqn:He.
  3: { destruct (env_stopped_fire cfg tid s) as [-> _]; [congruence|]. now rewrite He. }
  all: destruct (nn_status s) eqn:Hn; try discriminate;
    destruct (nn_stopped_fire cfg tid s) as [-> _]; try congruence;
    rewrite Hn; now destruct (env_status (fire cfg s tid)).
Qed.

Lemma raised_run cfg sched : forall s : SysT,
  raised s = true -> raised (run cfg sched s) = true.
Proof.
  induction sched as [|tid sched IH]; intros s H; simpl; [exact H|].
  apply IH. now apply raised_fire.
Qed.

(** the two threads moving in turn go on until both have returned or one
    has raised *)
Lemma in_turn_ends cfg start (n : nat) : forall s : SysT,
  train_inv cfg start s -> measure cfg s <= Z.of_nat n ->
  joined (run cfg (in_turn n) s) = true \/ raised (run cfg (in_turn n) s) = true.
Proof.
  induction n as [|n IH]; intros s Hi Hm.
  - simpl. destruct (joined s) eqn:Hj; [now left|].
    destruct (raised s) eqn:Hr; [now right|exfalso].
    destruct (progress cfg start s Hi (no_raise_of_raised s Hr) Hj) as (tid & s' & Hmv).
    apply measure_decreases in Hmv. lia.
  - destruct (joined s) eqn:Hj; [left; now rewrite joined_stays|].
    destruct (raised s) eqn:Hr; [right; now apply raised_run|].
    cbn [in_turn run fold_left]. apply IH.
    + now do 2 apply train_inv_fire.
    + unfold fire.
      destruct (move cfg T_env s) as [s1|] eqn:H1.
      * apply measure_decreases in H1.
        destruct (move cfg T_nn s1) as [s2|] eqn:H2; [|lia].
        apply measure_decreases in H2. lia.
      * destruct (move cfg T_nn s) as [s2|] eqn:H2.
        -- apply measure_decreases in H2. lia.
        -- destruct (progress cfg start s Hi (no_raise_of_raised s Hr) Hj)
             as ([|] & s' & Hmv); congruence.
Qed.

Lemma eval_due_env_valid cfg t : env_valid cfg -> eval_due cfg t <> None.
Proof.
  intros (_ & He). unfold eval_due.
  destruct (Z.ltb_spec 0 (eval_len cfg)); [|discriminate].
  rewrite divides_some by auto. discriminate.
Qed.

Lemma env_no_raise_move cfg tid (s s' : SysT) :
  env_valid cfg -> (forall e, env_status s <> Raised e) ->
  move cfg tid s = Some s' -> forall e, env_status s' <> Raised e.
Proof.
  intros Hv Hn Hm.
  assert (Hev : forall t, eval_due cfg t <> None)
    by (intros t; now apply eval_due_env_valid).
  destruct Hv as [Hlog _]. apply move_effect in Hm.
  destruct tid; destruct Hm as (Hst & Hs & _ & Hc); cbv zeta in Hc.
  - intros e He.
    destruct (env_pc s) eqn:Hpc; try (pose proof (Hev t));
      open_effect; try contradiction; congruence.
  - intros e. rewrite Hs. apply Hn.
Qed.

Lemma env_no_raise_run cfg sched : forall s : SysT,
  env_valid cfg -> (forall e, env_status s <> Raised e) ->
  forall e, env_status (run cfg sched s) <> Raised e.
Proof.
  induction sched as [|tid sched IH]; intros s Hv H; simpl; [exact H|].
  apply IH; [exact Hv|]. unfold fire.
  destruct (move cfg tid s) eqn:Hm; [|exact H]. eapply env_no_raise_move; eauto.
Qed.

Lemma nn_do_raises {X} (s : SysT) (m : MT X) (k : X -> NnPc) (e : Exn) :
  nn_status s = Running -> nn_status (nn_do s m k) = Raised e ->
  snd (m (agent s)) = Err e.
Proof.
  unfold nn_do. destruct (m (agent s)) as [a' [x|e']]; simpl; congruence.
Qed.

Lemma nn_raises_zero_move cfg tid (s s' : SysT) :
  nn_raises_zero s -> move cfg tid s = Some s' -> nn_raises_zero s'.
Proof.
  unfold nn_raises_zero. intros Hz Hm e He.
  destruct tid; simpl in Hm.
  - apply run_env_effect in Hm. destruct Hm as (_ & Hs & _). rewrite Hs in He. auto.
  - unfold _train_model in Hm. destruct (nn_status s) eqn:Hst; try discriminate.
    destruct (nn_pc s);
      repeat match type of Hm with
             | (if ?b then _ else _) = _ => destruct b
             | (let (_, _) := ?x in _) = _ => destruct x
             end;
      try discriminate; injection Hm as <-; try discriminate He;
      apply nn_do_raises in He; try exact Hst; revert He;
      unfold bind, guard, call, clear_act_chosen, _signal_train_done, modify, ret, raise.
    + destruct (train_due cfg t) as [b|]; simpl; intros H; congruence.
    + destruct (get_feed_dict _ _ _). simpl. intros H; congruence.
    + destruct (target_due cfg t) as [[|]|]; simpl; intros H; congruence.
    + destruct (save_due cfg t) as [[|]|]; simpl; intros H; try congruence.
      destruct (save_returns (record (SaveCall t) (agent s))) as [x Hx].
      congruence.
Qed.

Lemma nn_raises_zero_run cfg sched : forall s : SysT,
  nn_raises_zero s -> nn_raises_zero (run cfg sched s).
Proof.
  induction sched as [|tid sched IH]; intros s H; simpl; [exact H|].
  apply IH. unfold fire.
  destruct (move cfg tid s) eqn:Hm; [|exact H]. eapply nn_raises_zero_move; eauto.
Qed.

(** ** A training period of zero *)

Lemma train_due_zero cfg t :
  train_freq cfg = 0 ->
  train_due cfg t = if start_train cfg <=? t then None else Some false.
Proof. intros H. unfold train_due. now rewrite H, divides_zero. Qed.

Lemma flat_map_nil {A B} (f : A -> list B) (l : list A) :
  (forall x, f x = []) -> flat_map f l = [].
Proof. intros H. induction l as [|x l IH]; simpl; [reflexivity|]. now rewrite H, IH. Qed.

Lemma zero_freq_move cfg (a : AgentT) tid (s s' : SysT) :
  train_freq cfg = 0 ->
  train_inv cfg (start_step a) s ->
  nn_t (nn_pc s) <= first_guarded cfg (start_step a) /\
  (forall e, nn_status s = Raised e ->
             exists t, nn_pc s = N_cond t /\ train_due cfg t = None) ->
  move cfg tid s = Some s' ->
  nn_t (nn_pc s') <= first_guarded cfg (start_step a) /\
  (forall e, nn_status s' = Raised e ->
             exists t, nn_pc s' = N_cond t /\ train_due cfg t = None).
Proof.
  intros Hz (_ & _ & _ & Hb & _) [Ht Hr] Hm. apply move_effect in Hm.
  destruct tid; destruct Hm as (Hst & Hs & Hp & Hc); cbv zeta in Hc.
  - rewrite Hs, Hp. auto.
  - unfold first_guarded in *.
    destruct (nn_pc s) eqn:Hpc; simpl in Hb, Ht;
      try rewrite (train_due_zero cfg t Hz) in Hb;
      try (destruct (Z.leb_spec (start_train cfg) t));
      open_effect; try discriminate; to_new_pc;
      try match goal with |- context [if ?b then _ else _] => destruct b end;
      try match goal with |- context [match ?f with Some _ => _ | None => _ end] =>
            destruct f end;
      simpl; (split; [lia|intros e' He'; try congruence]).
    all: exists t; auto.
Qed.

(** X10. With [train_freq = 0] the guard of the learner divides by zero
    at the first step [t0] of the run that is not below [start_train].
    Under every schedule the learner gets no further than [t0], runs no
    training step and does not return; it raises nothing but
    [ZeroDivisionError], at its guard and at step [t0]; and when [t0] is
    not the last step the environment thread does not return either.
    While the guards of the environment thread are sound, the two threads
    moving in turn do make the learner raise.  The calls into the
    environment, the monitor and the model are taken to return. *)
Theorem zero_train_freq cfg (a : AgentT) :
  train_freq cfg = 0 ->
  let t0 := first_guarded cfg (start_step a) in
  t0 <= stop_step cfg ->
  (forall sched,
     let s : SysT := run cfg sched (train a) in
     nn_status s <> Finished /\
     nn_t (nn_pc s) <= t0 /\
     train_steps (trace (agent s)) = [] /\
     (forall e, nn_status s = Raised e -> e = ZeroDivisionError /\ nn_pc s = N_cond t0) /\
     (t0 < stop_step cfg -> env_status s <> Finished)) /\
  (env_valid cfg ->
   exists sched, nn_status (run cfg sched (train a) : SysT) = Raised ZeroDivisionError).
Proof.
  intros Hz t0 Hstop.
  assert (Hall : forall sched,
    let s : SysT := run cfg sched (train a) in
    nn_status s <> Finished /\ nn_t (nn_pc s) <= t0 /\
    train_steps (trace (agent s)) = [] /\
    (forall e, nn_status s = Raised e -> e = ZeroDivisionError /\ nn_pc s = N_cond t0) /\
    (t0 < stop_step cfg -> env_status s <> Finished)).
  { intros sched s.
    assert (Hi : train_inv cfg (start_step a) s) by (apply train_inv_run, train_inv_init).
    assert (Hq : nn_t (nn_pc s) <= t0 /\
                 (forall e, nn_status s = Raised e ->
                            exists t, nn_pc s = N_cond t /\ train_due cfg t = None)).
    { apply (run_invariant cfg a
               (fun s => nn_t (nn_pc s) <= t0 /\
                         (forall e, nn_status s = Raised e ->
                                    exists t, nn_pc s = N_cond t /\ train_due cfg t = None))).
      - simpl. split; [unfold t0, first_guarded; lia|discriminate].
      - intros tid s1 s2 Hi1 Hq1 Hm. eapply zero_freq_move; eauto. }
    destruct Hq as [Ht Hr].
    assert (Hz' : nn_raises_zero s)
      by (apply nn_raises_zero_run; intros e; discriminate).
    destruct (finished_other cfg _ s Hi) as [He Hn].
    pose proof Hi as ((Hst & j & Hph & _) & _ & Hnr & Hb & Hl).
    apply phase_some in Hph. unfold nn_in_range in Hnr. rewrite Hst in Hnr.
    split; [|split; [exact Ht|split; [|split]]].
    - intros Hf. destruct (nn_finished_head cfg _ s Hi Hf) as (t & Hpc & _ & Hlt & _).
      rewrite Hpc in Ht. simpl in Ht. lia.
    - rewrite train_steps_learning, Hl.
      rewrite flat_map_nil.
      + destruct (nn_pc s) eqn:Hpc; simpl in *; try reflexivity;
          try (rewrite (train_due_zero cfg t Hz) in Hb;
               destruct (start_train cfg <=? t); discriminate);
          unfold learning_at, trains_at; rewrite (train_due_zero cfg t Hz);
          now destruct (start_train cfg <=? t).
      + intros t. unfold learning_at, trains_at. rewrite (train_due_zero cfg t Hz).
        now destruct (start_train cfg <=? t).
    - intros e He'. split; [now apply Hz'|].
      destruct (Hr e He') as (t & Hpc & Hd). rewrite Hpc in *. simpl in Ht, Hnr.
      rewrite (train_due_zero cfg t Hz) in Hd.
      destruct (Z.leb_spec (start_train cfg) t); [|discriminate].
      f_equal. unfold t0, first_guarded in *. lia.
    - intros Hlt Hf. specialize (He Hf). lia. }
  split; [exact Hall|].
  intros Hv. exists (in_turn (Z.to_nat (measure cfg (train a : SysT)))).
  set (sched := in_turn (Z.to_nat (measure cfg (train a : SysT)))).
  destruct (Hall sched) as (Hnf & _ & _ & Hr & _).
  assert (Hne : forall e, env_status (run cfg sched (train a) : SysT) <> Raised e).
  { apply env_no_raise_run; [exact Hv|]. intros e. discriminate. }
  destruct (in_turn_ends cfg (start_step a) (Z.to_nat (measure cfg (train a : SysT)))
              (train a)) as [Hj|Hj].
  - apply train_inv_init.
  - pose proof (rank_nonneg cfg (train a : SysT)). unfold measure. lia.
  - fold sched in Hj. apply joined_finished in Hj. destruct Hj as [_ Hj]. contradiction.
  - fold sched in Hj. unfold raised in Hj.
    destruct (env_status (run cfg sched (train a))) eqn:Hes;
      [| |exfalso; exact (Hne e eq_refl)];
      destruct (nn_status (run cfg sched (train a))) eqn:Hns; try discriminate;
      destruct (Hr e eq_refl) as [-> _]; reflexivity.
Qed.

(** ** What the methods raise *)

Lemma raises_zero_ret {A} (x : A) : raises_zero (ret x : MT A).
Proof. intros a e. discriminate. Qed.

Lemma raises_zero_get : raises_zero (get : MT AgentT).
Proof. intros a e. discriminate. Qed.

Lemma raises_zero_modify (f : AgentT -> AgentT) : raises_zero (modify f).
Proof. intros a e. discriminate. Qed.

Lemma raises_zero_call {A} (f : World -> World * A) : raises_zero (call f : MT A).
Proof. intros a e. unfold call. destruct (f (world a)). discriminate. Qed.

Lemma raises_zero_guard (g : option bool) : raises_zero (guard g : MT bool).
Proof. intros a e. destruct g; simpl; congruence. Qed.

Lemma raises_zero_bind {A B} (m : MT A) (k : A -> MT B) :
  raises_zero m -> (forall x, raises_zero (k x)) -> raises_zero (bind m k).
Proof.
  intros Hm Hk a e. unfold bind. specialize (Hm a).
  destruct (m a) as [a' [x|e']]; simpl in *; [apply Hk|].
  intros H. apply Hm. congruence.
Qed.

Lemma raises_zero_for_each {X} (ts : list Z) (body : Z -> X -> MT X) (x : X) :
  (forall t y, raises_zero (body t y)) -> raises_zero (for_each ts body x).
Proof.
  intros Hb. revert x. induction ts as [|t ts IH]; intros x; simpl.
  - apply raises_zero_ret.
  - apply raises_zero_bind; [apply Hb|exact IH].
Qed.

Ltac zero_step :=
  match goal with
  | |- raises_zero (if ?b then _ else _) => destruct b
  | |- raises_zero (match ?x with _ => _ end) => destruct x
  | |- raises_zero (ret _) => apply raises_zero_ret
  | |- raises_zero get => apply raises_zero_get
  | |- raises_zero (guard _) => apply raises_zero_guard
  | |- raises_zero (bind _ _) => apply raises_zero_bind; [|intros ?]
  | |- raises_zero (modify _) => apply raises_zero_modify
  | |- raises_zero (call _) => apply raises_zero_call
  | |- raises_zero (for_each _ _ _) => apply raises_zero_for_each; intros ? ?
  end.

Lemma reset_raises_zero : raises_zero reset.
Proof. unfold reset. repeat zero_step. Qed.

Lemma log_stats_raises_zero cfg t : raises_zero (_log_stats cfg t).
Proof. unfold _log_stats. repeat zero_step. Qed.

Lemma eval_raises_zero cfg : raises_zero (eval cfg).
Proof.
  unfold eval. repeat zero_step. unfold eval_body. repeat zero_step.
  apply reset_raises_zero.
Qed.

(** ** [_log_stats] and [eval()] when [log_freq] is zero *)

(** X11. [_log_stats] evaluates [t % self.log_freq] before it looks at
    [learn_started]: with [log_freq = 0] it raises [ZeroDivisionError] at
    every step, whether learning has started or not, and leaves the agent
    as it was.  Otherwise it returns, and it writes nothing but the state
    of the monitor and of the summary writer, and that only at a multiple
    of [log_freq] once learning has started. *)
Theorem log_stats_spec cfg (t : Z) (a : AgentT) :
  (log_freq cfg = 0 -> _log_stats cfg t a = (a, Err ZeroDivisionError)) /\
  (log_freq cfg <> 0 ->
   snd (_log_stats cfg t a) = Ret tt /\
   (exists w, fst (_log_stats cfg t a) = set_world w a) /\
   (learn_started a = false \/ t mod log_freq cfg <> 0 ->
    _log_stats cfg t a = (a, Ret tt))).
Proof.
  unfold _log_stats, log_due, bind, get. split.
  - intros ->. rewrite divides_zero. reflexivity.
  - intros Hl. rewrite (divides_some t _ Hl).
    destruct (Z.eqb_spec (t mod log_freq cfg) 0) as [Hm|Hm]; simpl.
    + destruct (learn_started a) eqn:Hs; simpl.
      * unfold modify, ret. simpl. destruct (summary a); simpl;
          (repeat split; [eexists; reflexivity|intros [H|H]; [discriminate|contradiction]]).
      * repeat split. exists (world a). now destruct a.
    + repeat split. exists (world a). now destruct a.
Qed.

Lemma range_cons (a b : Z) : a < b -> range a b = a :: range (a + 1) b.
Proof.
  intros H. unfold range.
  replace (Z.to_nat (b - a)) with (S (Z.to_nat (b - (a + 1)))) by lia.
  simpl. f_equal; [lia|].
  rewrite <- seq_shift, map_map. apply map_ext. intros i. lia.
Qed.

Lemma eval_body_raises cfg t obs (a : AgentT) :
  log_freq cfg = 0 -> snd (eval_body cfg t obs a) = Err ZeroDivisionError.
Proof.
  intros Hl. unfold eval_body. rewrite Hl, divides_zero.
  unfold bind, modify, get, call. simpl.
  destruct (action_eval _ _ _ _) as [w1 action]. simpl.
  destruct (env_step _ _) as [w2 [[next_obs rew] done]]. simpl.
  destruct done.
  - match goal with
    | |- context [reset ?x] =>
        destruct (reset_returns x) as [o Ho]; destruct (reset x) as [a' r]
    end.
    simpl in Ho. subst r. reflexivity.
  - reflexivity.
Qed.

(** X12. With [log_freq = 0] a call of [eval()] with a loop to run does
    not get through the first step of its loop: it raises
    [ZeroDivisionError] after that step, having added one to the run
    counter, and it leaves the monitor in evaluation mode.  Whatever
    [log_freq] is, [eval()] raises nothing else, and with [eval_len <= 0]
    its loop is empty and it returns.  The calls into the
    environment, the monitor and the model are taken to return. *)
Theorem eval_without_log_period cfg (a : AgentT) :
  let r := eval_runs a + 1 in
  (log_freq cfg = 0 -> 0 < eval_len cfg ->
   snd (eval cfg a) = Err ZeroDivisionError /\
   mon_mode (fst (eval cfg a)) = EvalMode /\
   eval_runs (fst (eval cfg a)) = r /\
   trace (fst (eval cfg a)) =
     trace a ++ [EvalStart r; EvalStep (eval_len cfg * r + 1) EvalMode]) /\
  (forall e, snd (eval cfg a) = Err e -> e = ZeroDivisionError) /\
  (eval_len cfg <= 0 ->
   snd (eval cfg a) = Ret tt /\ mon_mode (fst (eval cfg a)) = TrainMode).
Proof.
  intros r. split; [|split].
  - intros Hl Hlen.
    assert (H : exists a2,
              eval cfg a = (a2, Err ZeroDivisionError) /\
              mon_mode a2 = EvalMode /\ eval_runs a2 = r /\
              trace a2 = (trace a ++ [EvalStart r])
                         ++ [EvalStep (eval_len cfg * r + 1) EvalMode]).
    { rewrite eval_unfold. fold r. cbv zeta.
      destruct (env_reset _) as [w obs]. unfold eval_range.
      rewrite range_cons by lia. cbn [for_each]. unfold bind.
      match goal with
      | |- context [eval_body cfg ?t ?o ?x] =>
          pose proof (eval_body_raises cfg t o x Hl) as He;
          pose proof (eval_body_trace cfg t o x) as Ht;
          pose proof (eval_body_mode cfg t o x) as Hm;
          pose proof (eval_body_runs cfg t o x) as Hr;
          destruct (eval_body cfg t o x) as [a2 res]
      end.
      unfold same in Hm, Hr. simpl in *. subst res. exists a2. auto. }
    destruct H as (a2 & -> & Hm & Hr & Ht). simpl.
    rewrite Ht, <- app_assoc. auto.
  - apply eval_raises_zero.
  - intros Hlen. rewrite eval_unfold. fold r. cbv zeta.
    destruct (env_reset _) as [w obs]. unfold eval_range.
    rewrite range_empty by lia. simpl. split; reflexivity.
Qed.

(** ** A logging period of zero *)

Lemma log_stats_zero cfg t (a : AgentT) :
  log_freq cfg = 0 -> _log_stats cfg t a = (a, Err ZeroDivisionError).
Proof.
  intros Hl. unfold _log_stats, log_due, bind, get. rewrite Hl, divides_zero. reflexivity.
Qed.

Lemma env_do_raises {X} (s : SysT) (m : MT X) (k : X -> EnvPc) (e : Exn) :
  env_status s = Running -> env_status (env_do s m k) = Raised e ->
  snd (m (agent s)) = Err e.
Proof.
  unfold env_do. destruct (m (agent s)) as [a' [x|e']]; simpl; congruence.
Qed.

Lemma env_raises_zero_move cfg tid (s s' : SysT) :
  env_raises_zero s -> move cfg tid s = Some s' -> env_raises_zero s'.
Proof.
  unfold env_raises_zero. intros Hz Hm e He.
  destruct tid; simpl in Hm.
  - unfold _run_env in Hm. destruct (env_status s) eqn:Hst; try discriminate.
    destruct (env_pc s);
      repeat match type of Hm with
             | (if ?b then _ else _) = _ => destruct b
             end;
      try discriminate; injection Hm as <-; try discriminate He;
      apply env_do_raises in He; try exact Hst; revert He;
      match goal with
      | |- snd (?m _) = Err _ -> _ =>
          intros He;
          assert (Hm : raises_zero m)
            by (unfold clear_train_done, _signal_act_chosen; repeat zero_step;
                first [apply reset_raises_zero | apply eval_raises_zero
                      | apply log_stats_raises_zero]);
          exact (Hm _ _ He)
      end.
  - apply train_model_effect in Hm. destruct Hm as (_ & Hs & _). rewrite Hs in He. auto.
Qed.

Lemma env_raises_zero_run cfg sched : forall s : SysT,
  env_raises_zero s -> env_raises_zero (run cfg sched s).
Proof.
  induction sched as [|tid sched IH]; intros s H; simpl; [exact H|].
  apply IH. unfold fire.
  destruct (move cfg tid s) eqn:Hm; [|exact H]. eapply env_raises_zero_move; eauto.
Qed.

Lemma run_env_log_zero cfg (s s' : SysT) t obs :
  log_freq cfg = 0 -> env_pc s = E_log t obs -> _run_env cfg s = Some s' ->
  env_status s' <> Running.
Proof.
  intros Hl Hpc Hm. unfold _run_env in Hm.
  destruct (env_status s); try discriminate. rewrite Hpc in Hm.
  injection Hm as <-. unfold env_do. rewrite log_stats_zero by exact Hl.
  simpl. discriminate.
Qed.

Lemma zero_log_move cfg (a : AgentT) tid (s s' : SysT) :
  log_freq cfg = 0 ->
  env_step_of (start_step a) (env_pc s) = start_step a ->
  train_inv cfg (start_step a) s ->
  move cfg tid s = Some s' ->
  env_step_of (start_step a) (env_pc s') = start_step a.
Proof.
  intros Hl Hi ((Hst & _) & _) Hm. pose proof (move_effect _ _ _ _ Hm) as He.
  destruct tid; destruct He as (_ & _ & Hp & Hc); cbv zeta in Hc.
  - simpl in Hm.
    destruct (env_pc s) eqn:Hpc; simpl in Hi;
      try (pose proof (run_env_log_zero cfg s s' t obs Hl Hpc Hm));
      open_effect; try congruence; to_new_pc;
      try match goal with |- context [if ?b then _ else _] => destruct b end;
      simpl; congruence.
  - now rewrite Hp.
Qed.

(** the environment thread in its first step does not wait for the learner *)
Lemma env_alone cfg (a : AgentT) (n : nat) : forall s : SysT,
  log_freq cfg = 0 ->
  train_inv cfg (start_step a) s ->
  env_step_of (start_step a) (env_pc s) = start_step a ->
  nn_t (nn_pc s) = start_step a -> nn_mid (nn_pc s) = false ->
  env_rank cfg s <= Z.of_nat n ->
  env_status (run cfg (repeat T_env n) s) <> Running.
Proof.
  induction n as [|n IH]; intros s Hl Hi He Hn Hnm Hr.
  - simpl. intros Hrun. unfold env_rank in Hr. rewrite Hrun in Hr.
    destruct (env_pc s); rank_arith.
  - destruct (env_status s) eqn:Hst.
    2, 3: destruct (env_stopped_run cfg (repeat T_env (S n)) s) as [-> _];
      congruence.
    cbn [repeat run fold_left]. unfold fire.
    destruct (move cfg T_env s) as [s1|] eqn:Hm.
    + pose proof (move_effect _ _ _ _ Hm) as Hef.
      pose proof (env_effect_rank cfg s s1 Hef) as [Hrk _].
      destruct Hef as (_ & _ & Hp & _).
      apply IH; try assumption.
      * eapply train_inv_move; eauto.
      * eapply zero_log_move; eauto.
      * now rewrite Hp.
      * now rewrite Hp.
      * lia.
    + exfalso. simpl in Hm. apply run_env_stuck in Hm.
      destruct Hm as [Hm|(_ & t & obs & Hpc & Htd)]; [congruence|].
      destruct Hi as ((_ & j & Hph & Hd & _) & _). apply phase_some in Hph.
      rewrite Hpc in *. simpl in *. rewrite Hnm in Hph.
      assert (j = 0%nat) by (intuition (try discriminate; lia)). subst j.
      simpl in Hd. congruence.
Qed.

(** X13. With [log_freq = 0] the environment thread does not get past
    the first step of a run: under every schedule it stays in step
    [start_step], stores at most one transition and does not return; it
    raises nothing but [ZeroDivisionError]; and the learner does not
    return either unless the run has one step only.  Left to move, the
    environment thread does raise, in [eval()] or in [_log_stats].  The calls into the
    environment, the monitor and the model are taken to return. *)
Theorem zero_log_freq cfg (a : AgentT) :
  log_freq cfg = 0 ->
  start_step a <= stop_step cfg ->
  (forall sched,
     let s : SysT := run cfg sched (train a) in
     env_step_of (start_step a) (env_pc s) = start_step a /\
     env_status s <> Finished /\
     (List.length (env_steps (trace (agent s))) <= 1)%nat /\
     (forall e, env_status s = Raised e -> e = ZeroDivisionError) /\
     (start_step a < stop_step cfg -> nn_status s <> Finished)) /\
  (exists sched, env_status (run cfg sched (train a) : SysT) = Raised ZeroDivisionError).
Proof.
  intros Hl Hstop.
  assert (Hall : forall sched,
    let s : SysT := run cfg sched (train a) in
    env_step_of (start_step a) (env_pc s) = start_step a /\
    env_status s <> Finished /\
    (List.length (env_steps (trace (agent s))) <= 1)%nat /\
    (forall e, env_status s = Raised e -> e = ZeroDivisionError) /\
    (start_step a < stop_step cfg -> nn_status s <> Finished)).
  { intros sched s.
    assert (Hi : train_inv cfg (start_step a) s) by (apply train_inv_run, train_inv_init).
    assert (Hq : env_step_of (start_step a) (env_pc s) = start_step a).
    { apply (run_invariant cfg a
               (fun s => env_step_of (start_step a) (env_pc s) = start_step a)).
      - reflexivity.
      - intros tid s1 s2 Hi1 Hq1 Hm. eapply zero_log_move; eauto. }
    destruct (data_inv_run cfg a sched) as ((_ & _ & Hs) & _). fold s in Hs.
    rewrite env_steps_env in Hs.
    destruct (finished_other cfg _ s Hi) as [_ Hn].
    split; [exact Hq|]. split; [|split; [|split]].
    - intros Hf. destruct (env_finished_head cfg _ s Hi Hf) as (t & obs & Hpc & _ & Hlt & _).
      rewrite Hpc in Hq. simpl in Hq. lia.
    - rewrite Hs, range_length. destruct (env_pc s); simpl in *; lia.
    - apply env_raises_zero_run. intros e. discriminate.
    - intros Hlt Hf. specialize (Hn Hf). destruct (env_pc s); simpl in *; lia. }
  split; [exact Hall|].
  set (n := Z.to_nat (env_rank cfg (train a : SysT))).
  exists (repeat T_env n).
  destruct (Hall (repeat T_env n)) as (_ & Hnf & _ & Hz & _).
  assert (Hnr : env_status (run cfg (repeat T_env n) (train a) : SysT) <> Running).
  { apply (env_alone cfg a); try reflexivity; try assumption.
    - apply train_inv_init.
    - pose proof (rank_nonneg cfg (train a : SysT)). unfold n. lia. }
  destruct (env_status (run cfg (repeat T_env n) (train a))) eqn:Hes; try contradiction.
  now rewrite (Hz e eq_refl).
Qed.

(** ** The counter of a built agent *)

Lemma build_counter w rb d (a : AgentT) :
  build w rb d = Ret a -> t_tf a = start_step a /\ disk a = d /\ saver a = 0%nat.
Proof.
  unfold build. destruct (checkpoints d) as [|ckpt rest].
  - intros H. injection H as <-. auto.
  - unfold and_then. intros H.
    repeat match type of H with
           | match ?x with _ => _ end = _ => destruct x; try discriminate
           end.
    injection H as <-. auto.
Qed.

Lemma in_through (p : Z -> bool) (start : Z) (pc : NnPc (Feed := Feed)) (t : Z) :
  In t (through p start pc) ->
  p t = true /\ t <= nn_t pc /\ (start <= t \/ t = nn_t pc) /\
  (t = nn_t pc -> after_save pc = true).
Proof.
  unfold through. intros H. apply in_app_or in H. destruct H as [H|H].
  - apply filter_In in H. destruct H as [H Hp]. apply in_range in H.
    repeat split; try exact Hp; try lia.
  - destruct (after_save pc && p (nn_t pc)) eqn:Hb; [|contradiction].
    destruct H as [<-|[]]. apply andb_true_iff in Hb.
    destruct Hb as [Ha Hp]. repeat split; auto; lia.
Qed.

Lemma Forall2_right {A B} (R : A -> B -> Prop) (l : list A) (l' : list B) :
  Forall2 R l l' -> Forall (fun y => exists x, In x l /\ R x y) l'.
Proof.
  induction 1 as [|x y l l' Hxy _ IH]; constructor.
  - exists x. split; [now left|exact Hxy].
  - eapply Forall_impl; [|exact IH]. intros b (c & Hin & Hr). exists c.
    split; [now right|exact Hr].
Qed.

(** X14. For an agent that [build()] returned, built afresh or restored,
    the counter [t_tf] is the step of the loop as long as the steps of the
    run stay within [int32]: during a run of [train()] it is the step the
    environment thread is in, until the thread runs the increment, and the
    next step from then on.  So the global step of a checkpoint written at
    a step [t], one at which [save_freq > 0 and t % save_freq == 0] held,
    is [t] or [t + 1], depending on the schedule.  The checkpoints of the
    run went through the saver that [build()] made, with [max_to_keep=2]
    and nothing remembered, in the order they were written. *)
Theorem counter_is_step cfg w rb d (a : AgentT) (sched : list Tid) :
  build w rb d = Ret a ->
  - 2 ^ 31 <= start_step a ->
  stop_step cfg < 2 ^ 31 - 1 ->
  let s : SysT := run cfg sched (train a) in
  t_tf (agent s) = start_step a + increments (start_step a) (env_pc s) /\
  exists new,
    (checkpoints (disk (agent s)), saver (agent s))
      = fold_left put new (checkpoints d, 0%nat) /\
    Forall (fun ck => exists t,
              start_step a <= t <= stop_step cfg /\
              save_due cfg t = Some true /\
              (ck_global_step ck = t \/ ck_global_step ck = t + 1)) new.
Proof.
  intros Hb Hlo Hhi s. destruct (build_counter w rb d a Hb) as (Ht & Hd & Hsv).
  destruct (data_inv_run cfg a sched)
    as ((Htf & _) & _ & _ & _ & new & snaps & Hck & _ & Hw & _).
  fold s in Htf, Hck, Hw. rewrite Ht in Htf. rewrite Hd, Hsv in Hck.
  assert (Hi : train_inv cfg (start_step a) s) by (apply train_inv_run, train_inv_init).
  destruct Hi as ((Hst & _) & Hre & Hr & _).
  unfold env_in_range in Hre. unfold nn_in_range in Hr. rewrite Hst in Hre, Hr.
  split.
  - rewrite Htf. apply incremented_exact; destruct (env_pc s); simpl in *; lia.
  - exists new. split; [exact Hck|].
    apply Forall2_right in Hw. eapply Forall_impl; [|exact Hw].
    intros ck (t & Hin & _ & Hg). exists t.
    apply in_through in Hin. destruct Hin as (Hp & Hle & Hlow & Has).
    unfold saves_at in Hp. apply andb_true_iff in Hp. destruct Hp as [Hp _].
    unfold save_at in Hp. rewrite Ht in Hg.
    assert (Hrange : start_step a <= t <= stop_step cfg).
    { destruct (nn_pc s); simpl in *; try lia;
        destruct (Z.eq_dec t t0) as [->|Hne]; try lia;
        try (specialize (Has eq_refl); discriminate). }
    split; [exact Hrange|]. split.
    + destruct (save_due cfg t) as [[|]|]; congruence.
    + rewrite !incremented_exact in Hg by lia.
      destruct Hg as [Hg|Hg]; [left|right]; lia.
Qed.

(** ** A target-update period of zero *)

Lemma target_due_zero cfg t : update_target_freq cfg = 0 -> target_due cfg t = None.
Proof. intros H. unfold target_due. now rewrite H, divides_zero. Qed.

Lemma flat_map_nil_in {A B} (f : A -> list B) (l : list A) :
  (forall x, In x l -> f x = []) -> flat_map f l = [].
Proof.
  intros H. induction l as [|x l IH]; simpl; [reflexivity|].
  rewrite H by now left. simpl. apply IH. intros y Hy. apply H. now right.
Qed.

Lemma zero_target_move cfg (a : AgentT) tid (s s' : SysT) :
  update_target_freq cfg = 0 ->
  train_inv cfg (start_step a) s ->
  (forall t, start_step a <= t < nn_t (nn_pc s) -> train_due cfg t <> Some true) ->
  move cfg tid s = Some s' ->
  forall t, start_step a <= t < nn_t (nn_pc s') -> train_due cfg t <> Some true.
Proof.
  intros Hz (_ & _ & _ & Hb & _) Hi Hm. apply move_effect in Hm.
  destruct tid; destruct Hm as (Hst & Hs & Hp & Hc); cbv zeta in Hc.
  - now rewrite Hp.
  - destruct (nn_pc s) eqn:Hpc; simpl in Hb, Hi;
      open_effect; try discriminate; to_new_pc;
      try match goal with |- context [if ?b then _ else _] => destruct b end;
      try match goal with |- context [match ?f with Some _ => _ | None => _ end] =>
            destruct f end;
      simpl; try exact Hi.
    + intros t' Ht'. destruct (Z.eq_dec t' t) as [->|Hne]; [congruence|apply Hi; lia].
    + exfalso. match goal with H : target_due _ _ <> None |- _ => apply H end.
      now apply target_due_zero.
Qed.

(** X21. With [update_target_freq = 0] the learner divides by zero right
    after its first training step: under every schedule it gets past no
    step at which the guard of training holds, so it has run one training
    step at most, that of the step it stands in, and no synchronisation of
    the target; it returns only from a run without a training step, and it
    raises nothing but [ZeroDivisionError].  When a training step is due
    in the run and the guards of the environment thread are sound, the two
    threads moving in turn do make it raise.  The calls into the
    environment, the monitor and the model are taken to return. *)
Theorem zero_target_freq cfg (a : AgentT) :
  update_target_freq cfg = 0 ->
  (forall sched,
     let s : SysT := run cfg sched (train a) in
     sync_steps (trace (agent s)) = [] /\
     (forall t, start_step a <= t < nn_t (nn_pc s) -> train_due cfg t <> Some true) /\
     (forall t, In t (train_steps (trace (agent s))) ->
                t = nn_t (nn_pc s) /\ train_steps (trace (agent s)) = [t]) /\
     (nn_status s = Finished -> train_steps (trace (agent s)) = []) /\
     (forall e, nn_status s = Raised e -> e = ZeroDivisionError)) /\
  (env_valid cfg ->
   (exists t, start_step a <= t <= stop_step cfg /\ train_due cfg t = Some true) ->
   exists sched, nn_status (run cfg sched (train a) : SysT) = Raised ZeroDivisionError).
Proof.
  intros Hz.
  assert (Hall : forall sched,
    let s : SysT := run cfg sched (train a) in
    sync_steps (trace (agent s)) = [] /\
    (forall t, start_step a <= t < nn_t (nn_pc s) -> train_due cfg t <> Some true) /\
    (forall t, In t (train_steps (trace (agent s))) ->
               t = nn_t (nn_pc s) /\ train_steps (trace (agent s)) = [t]) /\
    (nn_status s = Finished -> train_steps (trace (agent s)) = []) /\
    (forall e, nn_status s = Raised e -> e = ZeroDivisionError)).
  { intros sched s.
    assert (Hi : train_inv cfg (start_step a) s) by (apply train_inv_run, train_inv_init).
    assert (Hq : forall t, start_step a <= t < nn_t (nn_pc s) ->
                           train_due cfg t <> Some true).
    { apply (run_invariant cfg a
               (fun s => forall t, start_step a <= t < nn_t (nn_pc s) ->
                                   train_due cfg t <> Some true)).
      - simpl. intros t Ht. lia.
      - intros tid s1 s2 Hi1 Hq1 Hm. eapply zero_target_move; eauto. }
    pose proof Hi as (_ & _ & _ & Hb & Hl).
    assert (Hlearn : learning (trace (agent s)) = learning_partial cfg (nn_pc s)).
    { rewrite Hl, flat_map_nil_in; [reflexivity|].
      intros t Ht. apply in_range in Ht. specialize (Hq t Ht).
      unfold learning_at, trains_at. destruct (train_due cfg t) as [[|]|]; congruence. }
    assert (Hpart : learning_partial cfg (nn_pc s) = [] \/
                    exists t, nn_pc s = N_target t /\
                              learning_partial cfg (nn_pc s) = [TrainStep t]).
    { destruct (nn_pc s) eqn:Hpc; simpl in *; auto.
      - right. exists t. auto.
      - left. destruct Hb as [Hb|[_ Hb]];
          [now apply learning_at_idle|exfalso; apply Hb; now apply target_due_zero].
      - left. destruct Hb as [Hb|[_ Hb]];
          [now apply learning_at_idle|exfalso; apply Hb; now apply target_due_zero]. }
    rewrite sync_steps_learning, train_steps_learning, Hlearn.
    split; [|split; [exact Hq|split; [|split]]].
    - destruct Hpart as [->|(t & _ & ->)]; reflexivity.
    - intros t Hin. destruct Hpart as [Hp|(t' & Hpc & Hp)]; rewrite Hp in *.
      + contradiction.
      + simpl in Hin. destruct Hin as [<-|[]]. rewrite Hpc. auto.
    - intros Hf. destruct (nn_finished_head cfg _ s Hi Hf) as (t & Hpc & _).
      rewrite Hpc. reflexivity.
    - apply nn_raises_zero_run. intros e. discriminate. }
  split; [exact Hall|].
  intros Hv (t & Ht & Hd).
  set (sched := in_turn (Z.to_nat (measure cfg (train a : SysT)))).
  exists sched.
  destruct (Hall sched) as (_ & Hq & _ & _ & Hr).
  assert (Hi : train_inv cfg (start_step a) (run cfg sched (train a) : SysT))
    by (apply train_inv_run, train_inv_init).
  assert (Hne : forall e, env_status (run cfg sched (train a) : SysT) <> Raised e).
  { apply env_no_raise_run; [exact Hv|]. intros e. discriminate. }
  destruct (in_turn_ends cfg (start_step a) (Z.to_nat (measure cfg (train a : SysT)))
              (train a)) as [Hj|Hj].
  - apply train_inv_init.
  - pose proof (rank_nonneg cfg (train a : SysT)). unfold measure. lia.
  - fold sched in Hj. apply joined_finished in Hj. destruct Hj as [_ Hj]. exfalso.
    destruct (nn_finished_head cfg _ _ Hi Hj) as (t' & Hpc & _ & Hlt & _).
    apply (Hq t); [rewrite Hpc; simpl; lia|exact Hd].
  - fold sched in Hj. unfold raised in Hj.
    destruct (env_status (run cfg sched (train a))) eqn:Hes;
      [| |exfalso; exact (Hne e eq_refl)];
      destruct (nn_status (run cfg sched (train a))) eqn:Hns; try discriminate;
      now rewrite (Hr e eq_refl).
Qed.

(** ** Every run comes to an end *)

Lemma moves_measure cfg (sched : list Tid) : forall s : SysT,
  Z.of_nat (moves cfg sched s) + measure cfg (run cfg sched s) <= measure cfg s.
Proof.
  induction sched as [|tid sched IH]; intros s.
  - simpl. lia.
  - cbn [moves]. change (run cfg (tid :: sched) s) with (run cfg sched (fire cfg s tid)).
    unfold fire. destruct (move cfg tid s) as [s'|] eqn:Hm.
    + apply measure_decreases in Hm. specialize (IH s'). lia.
    + apply IH.
Qed.

Lemma measure_init cfg (a : AgentT) :
  measure cfg (train a : SysT)
  = 40 * Z.of_nat (steps_of_run (start_step a) (stop_step cfg)) + 31.
Proof.
  unfold measure, env_rank, nn_rank, remaining, steps_of_run.
  cbn [train env_status nn_status env_pc nn_pc agent start_step set_trace
       set_train_done set_act_chosen].
  lia.
Qed.

(** X22. The two loops come to an end under every schedule: however the
    threads are interleaved, they execute at most [40 n + 31] statements
    between them, [n] being the number of steps of the run, so neither
    waits or loops for ever while the other moves.  Under a valid
    configuration no schedule leads into a deadlock: whatever the threads
    have done, letting them move in turn makes both return.  The calls into the
    environment, the monitor and the model are taken to return. *)
Theorem run_terminates cfg (a : AgentT) (sched : list Tid) :
  let n := steps_of_run (start_step a) (stop_step cfg) in
  (moves cfg sched (train a : SysT) <= 40 * n + 31)%nat /\
  (valid cfg ->
   joined (run cfg (sched ++ in_turn (40 * n + 31)) (train a : SysT)) = true).
Proof.
  intros n.
  pose proof (moves_measure cfg sched (train a)) as Hm.
  pose proof (rank_nonneg cfg (run cfg sched (train a) : SysT)) as [H1 H2].
  rewrite measure_init in Hm. fold n in Hm. unfold measure in Hm.
  split; [lia|].
  intros Hv. rewrite run_app.
  apply (in_turn_completes cfg (start_step a)).
  - exact Hv.
  - apply train_inv_run, train_inv_init.
  - apply no_raise_run; [exact Hv|apply no_raise_init].
  - unfold measure. lia.
Qed.

End CoreFacts.

(** ** The action tensors of DQN *)

(** C10. After [build()], the evaluation action of the DQN model is its
    training action, on every state and for every value of the weights:
    [a_eval] is the identity of [a_train]. *)
Theorem dqn_eval_is_train {Frame Scaled Weights QVal : Type}
    (shape_of : Frame -> list Z) (scale : Frame -> Scaled)
    (nn_model : Weights -> Scaled -> list QVal) (q_ltb : QVal -> QVal -> bool)
    (m0 m : DQN.Model) :
  DQN.build m0 = Ret m ->
  (exists t, DQN.a_train m = Some t /\ DQN.a_eval m = Some (DQN.Identity t "a_eval")) /\
  (forall w state,
     DQN.action_eval shape_of scale nn_model q_ltb m w state =
     DQN.action_train shape_of scale nn_model q_ltb m w state) /\
  (forall w state,
     shape_of state = DQN.obs_shape m ->
     DQN.action_train shape_of scale nn_model q_ltb m w state =
     Ret (DQN.argmax q_ltb (nn_model w (scale state)))).
Proof.
  unfold DQN.build. simpl. intros H. injection H as <-. simpl. split; [eauto|]. split.
  - intros w state. unfold DQN.action_eval, DQN.action_train. simpl.
    destruct (list_eq_dec Z.eq_dec (shape_of state) (DQN.obs_shape m0)); reflexivity.
  - intros w state Hs. unfold DQN.action_train. simpl.
    destruct (list_eq_dec Z.eq_dec (shape_of state) (DQN.obs_shape m0));
      [reflexivity|contradiction].
Qed.

(** ** The shape assertion and the restore of the DQN model *)

(** X15. [action_train] and [action_eval] check the shape of the state
    before they run anything: on a state whose shape is not [obs_shape]
    both raise [AssertionError], built or not; and on a built DQN model
    that is the only way either of them fails. *)
Theorem dqn_shape_assertion {Frame Scaled Weights QVal : Type}
    (shape_of : Frame -> list Z) (scale : Frame -> Scaled)
    (nn_model : Weights -> Scaled -> list QVal) (q_ltb : QVal -> QVal -> bool)
    (m : DQN.Model) (w : Weights) (state : Frame) :
  (shape_of state <> DQN.obs_shape m ->
   DQN.action_train shape_of scale nn_model q_ltb m w state = Err AssertionError /\
   DQN.action_eval shape_of scale nn_model q_ltb m w state = Err AssertionError) /\
  (forall m0, DQN.build m0 = Ret m ->
     DQN.obs_shape m = DQN.obs_shape m0 /\
     (shape_of state = DQN.obs_shape m <->
      exists a, DQN.action_train shape_of scale nn_model q_ltb m w state = Ret a) /\
     (shape_of state = DQN.obs_shape m <->
      exists a, DQN.action_eval shape_of scale nn_model q_ltb m w state = Ret a)).
Proof.
  split.
  - intros Hs. unfold DQN.action_train, DQN.action_eval.
    destruct (list_eq_dec Z.eq_dec (shape_of state) (DQN.obs_shape m));
      [contradiction|auto].
  - intros m0 Hb. unfold DQN.build in Hb. simpl in Hb. injection Hb as <-. simpl.
    split; [reflexivity|].
    unfold DQN.action_train, DQN.action_eval. simpl.
    destruct (list_eq_dec Z.eq_dec (shape_of state) (DQN.obs_shape m0)) as [He|Hn].
    + split; (split; [intros _; eexists; reflexivity|intros _; exact He]).
    + split; (split; [intros H; contradiction|intros [a Ha]; discriminate]).
Qed.

(** X16. [BaseDQN._restore] looks up [a_train:0] and [a_eval:0], the
    names [BaseDQN.build] gave the two action tensors: it returns on every
    graph that extends the operations of [build], the graph of a freshly
    built agent among them, and it raises [KeyError] on a graph without an
    operation [a_train]. *)
Theorem dqn_restore_finds_actions :
  (forall g', DQN._restore (DQN.named_ops ++ g') = Ret tt) /\
  (forall Obs Act Rew Params Replay Feed Summary MonSnap World
          (C : Collab Obs Act Rew Params Replay Feed Summary MonSnap World),
     build_ops = DQN.named_ops -> DQN._restore (fresh_graph (C := C)) = Ret tt) /\
  (forall g, find_op g "a_train" = None ->
             DQN._restore g = Err (KeyError "a_train:0")) /\
  (forall g o, find_op g "a_train" = Some o -> (0 < op_outputs o)%nat ->
               find_op g "a_eval" = None ->
               DQN._restore g = Err (KeyError "a_eval:0")).
Proof.
  assert (H1 : forall g', DQN._restore (DQN.named_ops ++ g') = Ret tt) by reflexivity.
  split; [exact H1|]. split; [|split].
  - intros Obs Act Rew Params Replay Feed Summary MonSnap World C Hb.
    unfold fresh_graph, add_op. rewrite Hb, <- !app_assoc. apply H1.
  - intros g Hf. unfold DQN._restore, get_tensor_by_name. simpl. now rewrite Hf.
  - intros g o Hf Ho Hg. unfold DQN._restore, get_tensor_by_name. simpl.
    rewrite Hf, Hg. destruct (op_outputs o); [lia|reflexivity].
Qed.

(** ** The hooks of [BaseDQN.build] in its subclasses *)

(** X17. [BaseDQN.build] never returns on a [QRDQN]: it calls
    [self._compute_target(agent_net, target_net)], and the method of that
    name in [QRDQN] has the one parameter [nn_out], so once the two
    networks and the estimate are built the call raises [TypeError].
    [QRDQN] does not define [_act_train] either: a call of it ends in the
    [NotImplementedError] of [BaseDQN]. *)
Theorem qrdqn_build_raises (V : Type) (str : string -> V)
    (prepare : option (V * V)) (optimize : V -> option unit)
    (bodies : string -> Hooks.Self V -> list V -> option V) :
  let mro := [Hooks.QRDQN bodies; Hooks.BaseDQN V] in
  (forall r, Hooks.build str prepare optimize mro <> Hooks.Returned r) /\
  (forall obs_t obs_tp1 agent_net target_net estimate,
     prepare = Some (obs_t, obs_tp1) ->
     bodies "_nn_model"%string None [obs_t; str "agent_net"%string] = Some agent_net ->
     bodies "_nn_model"%string None [obs_tp1; str "target_net"%string] = Some target_net ->
     bodies "_compute_estimate"%string None [agent_net] = Some estimate ->
     Hooks.build str prepare optimize mro = Hooks.TypeError "_compute_target") /\
  (forall self agent_net,
     Hooks.call mro self "_act_train" [agent_net] [("name"%string, str "a_train"%string)]
     = Hooks.NotImplementedError "_act_train").
Proof.
  cbv zeta. split; [|split].
  - intros r. unfold Hooks.build, Hooks.call. destruct prepare as [[o1 o2]|]; simpl; [|discriminate].
    repeat match goal with
           | |- context [bodies ?n ?s ?l] => destruct (bodies n s l); simpl
           end; discriminate.
  - intros o1 o2 an tn est -> H1 H2 H3. unfold Hooks.build, Hooks.call. simpl.
    rewrite H1. simpl. rewrite H2. simpl. rewrite H3. reflexivity.
  - reflexivity.
Qed.

(** X18. [DQN] overrides the six hooks with the parameters [build] calls
    them with: on a [DQN], [build] raises no [TypeError], no
    [NotImplementedError] and no [AttributeError], it returns whenever the
    bodies and the optimizer do, and [_act_eval] runs with [self.a_train]
    already set to what [_act_train] returned.  On a [BaseDQN] itself the
    first hook raises [NotImplementedError]. *)
Theorem dqn_hooks_fit (V : Type) (str : string -> V)
    (prepare : option (V * V)) (optimize : V -> option unit)
    (bodies : string -> Hooks.Self V -> list V -> option V) :
  let mro := [Hooks.DQN bodies; Hooks.BaseDQN V] in
  Hooks.dispatch_error (Hooks.build str prepare optimize mro) = false /\
  (forall obs_t obs_tp1 agent_net target_net estimate target loss a_train a_eval,
     prepare = Some (obs_t, obs_tp1) ->
     bodies "_nn_model"%string None [obs_t; str "agent_net"%string] = Some agent_net ->
     bodies "_nn_model"%string None [obs_tp1; str "target_net"%string] = Some target_net ->
     bodies "_compute_estimate"%string None [agent_net] = Some estimate ->
     bodies "_compute_target"%string None [agent_net; target_net] = Some target ->
     bodies "_compute_loss"%string None [estimate; target] = Some loss ->
     optimize loss = Some tt ->
     bodies "_act_train"%string None [agent_net; str "a_train"%string] = Some a_train ->
     bodies "_act_eval"%string (Some a_train) [agent_net; str "a_eval"%string]
       = Some a_eval ->
     Hooks.build str prepare optimize mro = Hooks.Returned (a_train, a_eval)) /\
  (forall obs, prepare = Some obs ->
     Hooks.build str prepare optimize [Hooks.BaseDQN V]
     = Hooks.NotImplementedError "_nn_model").
Proof.
  cbv zeta. split; [|split].
  - unfold Hooks.build, Hooks.call. destruct prepare as [[o1 o2]|]; simpl; [|reflexivity].
    repeat match goal with
           | |- context [bodies ?n ?s ?l] => destruct (bodies n s l); simpl
           | |- context [optimize ?l] => destruct (optimize l); simpl
           end; reflexivity.
  - intros o1 o2 an tn est tg ls tr ev -> H1 H2 H3 H4 H5 H6 H7 H8.
    unfold Hooks.build, Hooks.call. simpl.
    rewrite H1. simpl. rewrite H2. simpl. rewrite H3. simpl. rewrite H4. simpl.
    rewrite H5. simpl. rewrite H6. simpl. rewrite H7. simpl. rewrite H8. reflexivity.
  - intros [o1 o2] ->. reflexivity.
Qed.

(** ** The default arguments *)

Lemma find_model_none (l : list (string * Defaults.Dict)) (k : string) :
  ~ In k (map fst l) -> Defaults.find_model l k = None.
Proof.
  induction l as [|[k' d] l IH]; simpl; [reflexivity|]. intros H.
  destruct (String.eqb_spec k' k) as [->|Hn]; [exfalso; auto|]. apply IH. auto.
Qed.

Lemma find_model_some (l : list (string * Defaults.Dict)) (k : string) d :
  Defaults.find_model l k = Some d -> In (k, d) l.
Proof.
  induction l as [|[k' d'] l IH]; simpl; [discriminate|].
  destruct (String.eqb_spec k' k) as [->|Hn].
  - intros H. injection H as ->. now left.
  - intros H. right. now apply IH.
Qed.

Lemma get_in (d : Defaults.Dict) (k : string) v :
  Defaults.get d k = Some v -> In (k, v) d.
Proof.
  induction d as [|[k' v'] d IH]; simpl; [discriminate|].
  destruct (String.eqb_spec k' k) as [->|Hn].
  - intros H. injection H as ->. now left.
  - intros H. right. now apply IH.
Qed.

(** X19. [get_args] returns the arguments of each of the fifteen models
    of [MODELS] and raises [KeyError] for every other name.  In each set
    of arguments the periods of training, target update, evaluation,
    logging and saving are integers above zero, and so are [eval_len],
    [warm_up], [stop_step] and [batch_size].  [BstrapDQN_Ensemble],
    [BDQN_TS] and [BDQN_UCB] are copies of [BstrapDQN], [BDQN] and
    [BDQN_IDS]. *)
Theorem get_args_spec (model : string) :
  (In model (map fst Defaults.MODELS) ->
   exists d, Defaults.get_args model = Ret d /\
     forallb (Defaults.positive_int d)
       (Defaults.periods ++ ["eval_len"; "warm_up"; "stop_step"; "batch_size"]%string)
     = true) /\
  (~ In model (map fst Defaults.MODELS) ->
   Defaults.get_args model = Err (KeyError model)) /\
  Defaults.get_args "BstrapDQN_Ensemble" = Defaults.get_args "BstrapDQN" /\
  Defaults.get_args "BDQN_TS" = Defaults.get_args "BDQN" /\
  Defaults.get_args "BDQN_UCB" = Defaults.get_args "BDQN_IDS".
Proof.
  split; [|split; [|repeat split]].
  - simpl. intros H.
    repeat (destruct H as [<-|H]; [eexists; split; [reflexivity|vm_compute; reflexivity]|]).
    contradiction.
  - intros H. unfold Defaults.get_args. now rewrite find_model_none.
Qed.

(** X20. Every model but [DDPG] takes the arguments of [dqn_spec] as
    they are, whatever its own dictionary adds, with one exception:
    [target_update_period], which is 10000 as in [dqn_spec] or 40000. *)
Theorem presets_extend_dqn_spec (model : string) (d : Defaults.Dict) :
  Defaults.get_args model = Ret d -> model <> "DDPG"%string ->
  (forall k v, Defaults.get Defaults.dqn_spec k = Some v ->
               k <> "target_update_period"%string -> Defaults.get d k = Some v) /\
  (Defaults.get d "target_update_period" = Some (Defaults.VInt 10000) \/
   Defaults.get d "target_update_period" = Some (Defaults.VInt 40000)).
Proof.
  unfold Defaults.get_args. intros H Hn.
  destruct (Defaults.find_model Defaults.MODELS model) as [d'|] eqn:Hf; [|discriminate].
  injection H as ->. apply find_model_some in Hf. simpl in Hf.
  repeat (destruct Hf as [Hf|Hf];
          [injection Hf as <- <-;
           try (exfalso; apply Hn; reflexivity);
           (split;
            [intros k v Hg Hne; apply get_in in Hg; vm_compute in Hg;
             repeat (destruct Hg as [Hg|Hg];
                     [injection Hg as <- <-;
                      first [reflexivity | exfalso; apply Hne; reflexivity]|]);
             contradiction
            |first [left; reflexivity | right; reflexivity]])|]).
  contradiction.
Qed.

(** * The scenarios of the specification *)


(** the third evaluation run of [eval_cfg] covers the steps 7, 8, 9 *)
Lemma eval_run_covers_witness :
  steps_of_call (C := stub) eval_cfg (after_evals (C := stub) eval_cfg 2 fresh_agent)
    = [7; 8; 9].
Proof.
  assert (H1 : log_freq eval_cfg <> 0) by (vm_compute; discriminate).
  assert (H2 : eval_runs fresh_agent = -1) by reflexivity.
  destruct (eval_run_covers (C := stub) eval_cfg fresh_agent 2 H1 H2) as [H _].
  rewrite H. reflexivity.
Defined.

(** with [log_freq = 0] the first evaluation run of [zero_log_cfg], whose
    steps would be 1, 2 and 3 with [eval_len = 3], raises in step 1: the
    call iterates over step 1 only *)
Lemma eval_run_covers_counterexample :
  eval_runs fresh_agent = -1 /\
  log_freq zero_log_cfg = 0 /\
  range (eval_len zero_log_cfg * 0 + 1) (eval_len zero_log_cfg * 0 + eval_len zero_log_cfg + 1)
    = [1; 2; 3] /\
  steps_of_call (C := stub) zero_log_cfg (after_evals (C := stub) zero_log_cfg 0 fresh_agent)
    = [1] /\
  snd (eval (C := stub) zero_log_cfg fresh_agent) = Err ZeroDivisionError.
Proof. vm_compute. repeat split; reflexivity. Qed.

Lemma eval_frame_witness :
  mon_mode (fst (eval (C := stub) eval_cfg fresh_agent)) = TrainMode /\
  eval_runs (fst (eval (C := stub) eval_cfg fresh_agent)) = 0.
Proof.
  assert (H1 : log_freq eval_cfg <> 0) by (vm_compute; discriminate).
  destruct (eval_frame (C := stub) eval_cfg fresh_agent) as (_ & _ & _ & _ & Hr & H).
  destruct (H H1) as (_ & Hm & _). split; [exact Hm | exact Hr].
Defined.

(** with [log_freq = 0] and a loop to run, [eval()] is left by the
    [ZeroDivisionError] of [t % self.log_freq] in the first step of its
    loop, before [self.env_monitor.mode = 't']: the monitor, in training
    mode at the call, stays in evaluation mode *)
Lemma eval_frame_counterexample :
  mon_mode fresh_agent = TrainMode /\
  log_freq zero_log_cfg = 0 /\
  snd (eval (C := stub) zero_log_cfg fresh_agent) = Err ZeroDivisionError /\
  mon_mode (fst (eval (C := stub) zero_log_cfg fresh_agent)) = EvalMode /\
  trace (fst (eval (C := stub) zero_log_cfg fresh_agent))
    = [EvalStart 0; EvalStep 1 EvalMode].
Proof. vm_compute. repeat split; reflexivity. Qed.

(** before learning has started nothing is written; after it, the first
    save of a fresh agent writes the checkpoint of global step 1; of the
    saves at the counter values 1, 2 and 3 the directory keeps the last two *)
Lemma save_spec_witness :
  save (C := stub) fresh_agent = (fresh_agent, Ret tt) /\
  checkpoints (disk (fst (save (C := stub) (set_learn_started true fresh_agent)))) =
    [mkCheckpoint (fresh_graph (C := stub)) tt tt 1 1] /\
  (let a1 := fst (save (C := stub) (set_learn_started true fresh_agent)) in
   let a2 := fst (save (C := stub) (set_t_tf 2 a1)) in
   let a3 := fst (save (C := stub) (set_t_tf 3 a2)) in
   map ck_global_step (checkpoints (disk a3)) = [3; 2] /\ saver a3 = 2%nat).
Proof.
  split; [|split].
  - apply (save_spec (C := stub) fresh_agent). reflexivity.
  - destruct (save_spec (C := stub) (set_learn_started true fresh_agent)) as [_ H].
    destruct (H eq_refl) as [Heq _]. cbv zeta in Heq. rewrite Heq. reflexivity.
  - vm_compute. split; reflexivity.
Defined.

Lemma scenario_valid : valid scenario_cfg.
Proof.
  unfold valid. simpl. repeat split; discriminate.
Defined.

(** [train_freq=4], [start_train=10], steps 1 to 20: training steps at 12,
    16 and 20 *)
Lemma training_steps_witness :
  train_steps (trace (agent (run (C := stub) scenario_cfg (in_turn 300) (train fresh_agent))))
    = [12; 16; 20].
Proof.
  assert (H : train_freq scenario_cfg <> 0) by (vm_compute; discriminate).
  destruct (training_steps (C := stub) scenario_cfg fresh_agent (in_turn 300) H)
    as (_ & Hfin & _).
  destruct (Hfin ltac:(vm_compute; reflexivity)) as [Hs _].
  rewrite Hs. vm_compute. reflexivity.
Defined.

(** with [update_target_freq=10], the target is synchronised at step 20 *)
Lemma target_sync_witness :
  In (TargetSync 20)
     (trace (agent (run (C := stub) scenario_cfg (in_turn 300) (train fresh_agent)))).
Proof.
  assert (H : update_target_freq scenario_cfg <> 0) by (vm_compute; discriminate).
  destruct (target_sync (C := stub) scenario_cfg fresh_agent (in_turn 300) H)
    as (_ & Hfin & _).
  apply (Hfin ltac:(vm_compute; reflexivity) 20). split.
  - vm_compute. repeat (try (left; reflexivity); right).
  - reflexivity.
Defined.

(** the scenario runs to completion, each signal being observed 20 times *)
Lemma handshake_alternates_witness :
  (exists sched,
     joined (run (C := stub) scenario_cfg sched (train fresh_agent)) = true) /\
  count_event (is_observed TrainDone)
    (trace (agent (run (C := stub) scenario_cfg (in_turn 300) (train fresh_agent))))
    = 20%nat.
Proof.
  destruct (handshake_alternates (C := stub) scenario_cfg fresh_agent)
    as (_ & Hrun & Hlive).
  split.
  - apply (Hlive scenario_valid).
  - destruct (Hrun (in_turn 300)) as [_ Hj].
    destruct (Hj ltac:(vm_compute; reflexivity)) as (_ & Hc & _).
    rewrite Hc. reflexivity.
Defined.

(** [eval_len = 0] and [eval_freq = 0]: the run counter stays at -1 *)
Lemma no_eval_without_length_witness :
  eval_runs (agent (run (C := stub) scenario_cfg (in_turn 300) (train fresh_agent))) = -1.
Proof.
  assert (H : eval_len scenario_cfg <= 0) by (vm_compute; discriminate).
  destruct (no_eval_without_length (C := stub) scenario_cfg fresh_agent (in_turn 300) H)
    as (_ & _ & _ & Hr).
  rewrite Hr. reflexivity.
Defined.

Lemma stub_names_free : names_free (C := stub).
Proof.
  intros n Hn. unfold agent_names in Hn. simpl in Hn.
  repeat (destruct Hn as [<-|Hn]; [reflexivity|]). contradiction.
Defined.

(** the stub agent, saved once learning has started, cannot be restored *)
Lemma restore_lookup_fails_witness :
  build (C := stub) tt tt (disk (fst (save (C := stub) (set_learn_started true fresh_agent))))
    = Err (KeyError "t_tf_inc").
Proof.
  destruct (restore_lookup_fails (C := stub) stub_names_free) as (_ & _ & H & _).
  apply H; reflexivity.
Defined.

(** the stub agent's own checkpoint gives no agent; the foreign checkpoint
    gives one that starts at the persisted counter *)
Lemma restore_after_save_witness :
  match build (C := stub) tt tt
          (disk (fst (save (C := stub) (set_learn_started true fresh_agent)))) with
  | Ret _ => False
  | Err _ => True
  end /\
  match build (C := stub) tt tt foreign_disk with
  | Ret a' => start_step a' = 101 /\ learn_started a' = true
  | Err _ => False
  end.
Proof.
  destruct (restore_after_save (C := stub) stub_names_free) as (Hown & _ & Hother).
  split.
  - destruct (build (C := stub) tt tt
                (disk (fst (save (C := stub) (set_learn_started true fresh_agent)))))
      as [a'|e] eqn:Hb; [|exact I].
    exact (Hown (set_learn_started true fresh_agent) tt tt a' eq_refl eq_refl Hb).
  - destruct (build (C := stub) tt tt foreign_disk) as [a'|e] eqn:Hb.
    + destruct (Hother tt tt foreign_disk _ _ a' eq_refl Hb) as (H1 & _ & H3).
      split; [exact H1|exact H3].
    + vm_compute in Hb. discriminate Hb.
Defined.

(** a training run that saves, then [build()] in the same directory *)
Example restore_after_training_run :
  let final := agent (run (C := stub) saving_cfg (in_turn 300) (train fresh_agent)) in
  map (fun c => ck_t_tf c) (checkpoints (disk final)) = [21; 16] /\
  build (C := stub) tt tt (disk final) = Err (KeyError "t_tf_inc").
Proof. vm_compute. split; reflexivity. Qed.

(** [save()] at step 1 runs in the learner while the environment thread
    increments the counter: the checkpoint holds 2 when the increment came
    first and 1 when the save did *)
Example save_races_with_increment :
  map (fun c => ck_t_tf c)
    (checkpoints (disk (agent (run (C := stub) one_step_cfg env_first (train fresh_agent)))))
    = [2] /\
  map (fun c => ck_t_tf c)
    (checkpoints (disk (agent (run (C := stub) one_step_cfg learner_early (train fresh_agent)))))
    = [1].
Proof. vm_compute. split; reflexivity. Qed.

(** three Q-values, the second the largest: both actions are 1 *)
Lemma dqn_eval_is_train_witness :
  DQN.action_eval (fun x : list Z => [Z.of_nat (List.length x)]) (fun x => x) toy_q Z.ltb
    (mkDQN 3) tt [3; 9; 4] = Ret 1.
Proof.
  destruct (dqn_eval_is_train (fun x : list Z => [Z.of_nat (List.length x)]) (fun x => x)
              toy_q Z.ltb (DQN.init [3]) (mkDQN 3) eq_refl) as (_ & He & Ht).
  rewrite He, Ht; reflexivity.
Defined.

(** * More scenarios *)

(** after five moves the environment thread is choosing its first action;
    the learner is not training *)
Lemma action_excludes_training_witness :
  selecting (env_pc (run (C := stub) scenario_cfg (repeat T_env 5) (train fresh_agent)))
    = true /\
  updating (nn_pc (run (C := stub) scenario_cfg (repeat T_env 5) (train fresh_agent)))
    = false.
Proof.
  destruct (action_excludes_training (C := stub) scenario_cfg fresh_agent (repeat T_env 5))
    as (H & _).
  split; [reflexivity|]. apply H. reflexivity.
Defined.

(** steps 1 to 20 from a counter of 1: the counter ends at 21 *)
Lemma counter_follows_steps_witness :
  t_tf (agent (run (C := stub) scenario_cfg (in_turn 300) (train fresh_agent))) = 21.
Proof.
  destruct (counter_follows_steps (C := stub) scenario_cfg fresh_agent (in_turn 300))
    as (_ & _ & H & _).
  cbv zeta in H. rewrite H; [reflexivity|]. vm_compute. reflexivity.
Defined.

Lemma steps_in_order_witness :
  env_steps (trace (agent (run (C := stub) scenario_cfg (in_turn 300) (train fresh_agent))))
    = [1; 2; 3; 4; 5; 6; 7; 8; 9; 10; 11; 12; 13; 14; 15; 16; 17; 18; 19; 20].
Proof.
  destruct (steps_in_order (C := stub) scenario_cfg fresh_agent (in_turn 300))
    as (_ & _ & _ & H).
  destruct (H ltac:(vm_compute; reflexivity)) as [_ Hs].
  rewrite Hs. reflexivity.
Defined.

(** the first action is sampled: no training step is due before step 1 *)
Lemma action_source_witness :
  In (Chose 1 false)
     (trace (agent (run (C := stub) scenario_cfg (repeat T_env 6) (train fresh_agent)))) /\
  learn_started fresh_agent = false.
Proof.
  assert (H : In (Chose 1 false)
                 (trace (agent (run (C := stub) scenario_cfg (repeat T_env 6)
                                  (train fresh_agent)))))
    by (vm_compute; right; right; left; reflexivity).
  split; [exact H|].
  destruct (action_source (C := stub) scenario_cfg fresh_agent (repeat T_env 6) 1 false H)
    as (_ & _ & Hf).
  apply Hf. reflexivity.
Defined.

(** training is due at step 12: learning has started by the end of the run *)
Lemma learning_starts_once_witness :
  learn_started (agent (run (C := stub) scenario_cfg (in_turn 300) (train fresh_agent)))
    = true.
Proof.
  destruct (learning_starts_once (C := stub) scenario_cfg fresh_agent (in_turn 300))
    as (_ & _ & H).
  rewrite H; [reflexivity|]. vm_compute. reflexivity.
Defined.

(** [save_freq=5]: [save()] is called at steps 5, 10, 15 and 20.  With
    [save_freq=2] it writes a checkpoint at the steps 12, 14, 16, 18 and 20,
    and the directory keeps the last two of them *)
Lemma checkpoints_of_run_witness :
  save_calls (trace (agent (run (C := stub) saving_cfg (in_turn 300) (train fresh_agent))))
    = [5; 10; 15; 20] /\
  map ck_global_step
    (checkpoints (disk (agent (run (C := stub) often_saving_cfg (in_turn 300)
                                 (train fresh_agent)))))
    = [21; 19].
Proof.
  destruct (checkpoints_of_run (C := stub) saving_cfg fresh_agent (in_turn 300))
    as (Hc & _ & Hf).
  destruct (Hf ltac:(vm_compute; reflexivity)) as [Hcalled _].
  split; [rewrite Hc, Hcalled; reflexivity|]. vm_compute. reflexivity.
Defined.

(** [save_freq=0]: no checkpoint and no statistics of the monitor are written *)
Lemma no_saving_without_period_witness :
  disk (agent (run (C := stub) scenario_cfg (in_turn 300) (train fresh_agent)))
    = mkDisk [] [].
Proof.
  assert (H : save_freq scenario_cfg <= 0) by (vm_compute; discriminate).
  destruct (no_saving_without_period (C := stub) scenario_cfg fresh_agent (in_turn 300) H)
    as (_ & _ & Hd & _).
  rewrite Hd. reflexivity.
Defined.

(** [eval_freq=10], [eval_len=3]: two calls of [eval()], over the steps 1 to 6 *)
Lemma evals_of_run_witness :
  eval_runs (agent (run (C := stub) eval_cfg (in_turn 300) (train fresh_agent))) = 1 /\
  eval_steps (trace (agent (run (C := stub) eval_cfg (in_turn 300) (train fresh_agent))))
    = [1; 2; 3; 4; 5; 6].
Proof.
  assert (H : log_freq eval_cfg <> 0) by (vm_compute; discriminate).
  destruct (evals_of_run (C := stub) eval_cfg fresh_agent (in_turn 300) H)
    as (Hr & _ & Hs & Hk).
  rewrite Hr, (Hs ltac:(vm_compute; discriminate)).
  rewrite (Hk ltac:(vm_compute; reflexivity)). split; reflexivity.
Defined.

(** [train_freq=0], [start_train=10]: the learner raises at step 10 and the
    environment thread waits at step 11 *)
Lemma raise_blocks_other_witness :
  nn_status (run (C := stub) zero_train_cfg (in_turn 300) (train fresh_agent))
    = Raised ZeroDivisionError /\
  env_status (run (C := stub) zero_train_cfg (in_turn 50)
                (run (C := stub) zero_train_cfg (in_turn 300) (train fresh_agent)))
    <> Finished.
Proof.
  assert (H : nn_status (run (C := stub) zero_train_cfg (in_turn 300) (train fresh_agent))
              = Raised ZeroDivisionError) by (vm_compute; reflexivity).
  split; [exact H|].
  destruct (raise_blocks_other (C := stub) zero_train_cfg fresh_agent (in_turn 300)
              (in_turn 50) ZeroDivisionError) as [Hn _].
  destruct (Hn H) as (_ & _ & He). apply He. vm_compute. reflexivity.
Defined.

Lemma zero_train_freq_witness :
  train_steps (trace (agent (run (C := stub) zero_train_cfg (in_turn 300)
                               (train fresh_agent)))) = [] /\
  env_status (run (C := stub) zero_train_cfg (in_turn 300) (train fresh_agent)) <> Finished.
Proof.
  assert (H1 : train_freq zero_train_cfg = 0) by reflexivity.
  assert (H2 : first_guarded zero_train_cfg (start_step fresh_agent)
               <= stop_step zero_train_cfg) by (vm_compute; discriminate).
  destruct (zero_train_freq (C := stub) zero_train_cfg fresh_agent H1 H2) as [Hall _].
  destruct (Hall (in_turn 300)) as (_ & _ & Ht & _ & He).
  split; [exact Ht|]. apply He. vm_compute. reflexivity.
Defined.

(** [log_freq=0]: [_log_stats] raises at step 9, before learning started *)
Lemma log_stats_spec_witness :
  _log_stats (C := stub) zero_log_cfg 9 fresh_agent = (fresh_agent, Err ZeroDivisionError).
Proof.
  destruct (log_stats_spec (C := stub) zero_log_cfg 9 fresh_agent) as [H _].
  apply H. reflexivity.
Defined.

(** [log_freq=0], [eval_len=3]: the first call of [eval()] raises after step 1 *)
Lemma eval_without_log_period_witness :
  snd (eval (C := stub) zero_log_cfg fresh_agent) = Err ZeroDivisionError /\
  mon_mode (fst (eval (C := stub) zero_log_cfg fresh_agent)) = EvalMode.
Proof.
  destruct (eval_without_log_period (C := stub) zero_log_cfg fresh_agent) as [H _].
  destruct (H eq_refl ltac:(vm_compute; reflexivity)) as (Hs & Hm & _).
  split; assumption.
Defined.

(** [log_freq=0]: the environment thread stores one transition at most *)
Lemma zero_log_freq_witness :
  (List.length (env_steps (trace (agent (run (C := stub) zero_log_cfg (in_turn 300)
                                           (train fresh_agent))))) <= 1)%nat /\
  nn_status (run (C := stub) zero_log_cfg (in_turn 300) (train fresh_agent)) <> Finished.
Proof.
  assert (H1 : log_freq zero_log_cfg = 0) by reflexivity.
  assert (H2 : start_step fresh_agent <= stop_step zero_log_cfg)
    by (vm_compute; discriminate).
  destruct (zero_log_freq (C := stub) zero_log_cfg fresh_agent H1 H2) as [Hall _].
  destruct (Hall (in_turn 300)) as (_ & _ & Hl & _ & Hn).
  split; [exact Hl|]. apply Hn. vm_compute. reflexivity.
Defined.

(** after a fresh [build()], the counter is 10 at the head of step 10 *)
Lemma counter_is_step_witness :
  build (C := stub) tt tt (mkDisk [] []) = Ret fresh_agent /\
  env_pc (run (C := stub) scenario_cfg (in_turn 100) (train fresh_agent)) = E_head 10 tt /\
  t_tf (agent (run (C := stub) scenario_cfg (in_turn 100) (train fresh_agent))) = 10.
Proof.
  assert (H : build (C := stub) tt tt (mkDisk [] []) = Ret fresh_agent) by reflexivity.
  assert (Hlo : - 2 ^ 31 <= start_step fresh_agent) by (vm_compute; discriminate).
  assert (Hhi : stop_step scenario_cfg < 2 ^ 31 - 1) by reflexivity.
  split; [exact H|]. split; [vm_compute; reflexivity|].
  destruct (counter_is_step (C := stub) scenario_cfg tt tt (mkDisk [] []) fresh_agent
              (in_turn 100) H Hlo Hhi) as [Ht _].
  rewrite Ht. vm_compute. reflexivity.
Defined.

(** a state of two entries for a model of three: both methods refuse it *)
Lemma dqn_shape_assertion_witness :
  DQN.action_train (fun x : list Z => [Z.of_nat (List.length x)]) (fun x => x) toy_q Z.ltb
    (mkDQN 3) tt [3; 9] = Err AssertionError.
Proof.
  destruct (dqn_shape_assertion (fun x : list Z => [Z.of_nat (List.length x)]) (fun x => x)
              toy_q Z.ltb (mkDQN 3) tt [3; 9]) as [H _].
  apply H. vm_compute. discriminate.
Defined.

(** the graph of the stub is the one of the DQN model *)
Lemma dqn_restore_finds_actions_witness :
  DQN._restore (fresh_graph (C := stub)) = Ret tt.
Proof.
  destruct dqn_restore_finds_actions as (_ & H & _).
  apply (H _ _ _ _ _ _ _ _ _ stub). reflexivity.
Defined.

Lemma qrdqn_build_raises_witness :
  Hooks.build (fun s : string => s) (Some ("obs_t", "obs_tp1")%string) (fun _ => Some tt)
    [Hooks.QRDQN toy_bodies; Hooks.BaseDQN string]
  = Hooks.TypeError "_compute_target".
Proof.
  destruct (qrdqn_build_raises string (fun s : string => s)
              (Some ("obs_t", "obs_tp1")%string) (fun _ => Some tt) toy_bodies)
    as (_ & H & _).
  eapply H; reflexivity.
Defined.

Lemma dqn_hooks_fit_witness :
  Hooks.build (fun s : string => s) (Some ("obs_t", "obs_tp1")%string) (fun _ => Some tt)
    [Hooks.DQN toy_bodies; Hooks.BaseDQN string]
  = Hooks.Returned ("_act_train", "_act_eval")%string.
Proof.
  destruct (dqn_hooks_fit string (fun s : string => s)
              (Some ("obs_t", "obs_tp1")%string) (fun _ => Some tt) toy_bodies)
    as (_ & H & _).
  eapply H; reflexivity.
Defined.

(** an unknown model *)
Lemma get_args_spec_witness :
  Defaults.get_args "A3C" = Err (KeyError "A3C").
Proof.
  destruct (get_args_spec "A3C") as (_ & H & _).
  apply H. vm_compute. intuition discriminate.
Defined.

(** [QRDQN] keeps the training period of [dqn_spec] *)
Lemma presets_extend_dqn_spec_witness :
  Defaults.get Defaults.QRDQN "train_period" = Some (Defaults.VInt 4).
Proof.
  assert (H1 : Defaults.get_args "QRDQN" = Ret Defaults.QRDQN) by reflexivity.
  assert (H2 : "QRDQN"%string <> "DDPG"%string) by discriminate.
  destruct (presets_extend_dqn_spec "QRDQN" Defaults.QRDQN H1 H2) as [H _].
  apply H; [reflexivity|discriminate].
Defined.

(** [update_target_freq=0]: the learner raises after the training step of step 12 *)
Lemma zero_target_freq_witness :
  sync_steps (trace (agent (run (C := stub) zero_target_cfg (in_turn 300)
                              (train fresh_agent)))) = [] /\
  nn_status (run (C := stub) zero_target_cfg (in_turn 300) (train fresh_agent))
    = Raised ZeroDivisionError.
Proof.
  assert (H : update_target_freq zero_target_cfg = 0) by reflexivity.
  destruct (zero_target_freq (C := stub) zero_target_cfg fresh_agent H) as [Hall _].
  destruct (Hall (in_turn 300)) as (Hs & _).
  split; [exact Hs|]. vm_compute. reflexivity.
Defined.

(** twenty steps: 831 moves at most, and a run that is cut short completes *)
Lemma run_terminates_witness :
  (moves (C := stub) scenario_cfg (in_turn 300) (train fresh_agent) <= 831)%nat /\
  joined (run (C := stub) scenario_cfg (repeat T_env 40 ++ in_turn 831) (train fresh_agent))
    = true.
Proof.
  destruct (run_terminates (C := stub) scenario_cfg fresh_agent (in_turn 300)) as [H1 _].
  destruct (run_terminates (C := stub) scenario_cfg fresh_agent (repeat T_env 40))
    as [_ H2].
  split; [exact H1|exact (H2 scenario_valid)].
Defined.
